(** * morph_seq2seq.data: vocabularies, padded samples and batches

    A shallow embedding of [morph_seq2seq/data.py] (the classes [Dataset],
    [ValidationDataset] and [InferenceDataset]) together with the
    properties of the loader, the vocabularies and the batch producers.

    Conventions of the embedding.
    - A Python [str] is a [string]: one [ascii] per character.
    - Lengths, indices and vocabulary ids are results of [len], [range]
      and of constants [0..3]; they are never negative and are modelled
      in [nat].  The only negative integers of the program are the sort
      keys [-len], which live in [Z].
    - A Python [dict] keeps its insertion order: it is an association
      list without repeated keys, the oldest entry first.
    - The two [defaultdict] vocabularies are mutable objects that may be
      one and the same object ([share_vocab]); they live in a store and
      the dataset holds references to them.
    - An exception aborts the computation; the store keeps the mutations
      done before the exception was raised. *)

From Stdlib Require Import String Ascii List Arith ZArith Lia Bool.
From Stdlib Require Import Permutation Sorted.
Import ListNotations.
Open Scope string_scope.
Open Scope list_scope.

Set Implicit Arguments.

(* ================================================================= *)
(** ** Exceptions and fallible computations *)

Inductive value_error : Type :=
  | not_enough_values (expected got : nat)
      (* not enough values to unpack (expected _, got _) *)
  | too_many_values (expected : nat)
      (* too many values to unpack (expected _) *)
  | max_empty_sequence
      (* max() arg is an empty sequence *)
  | empty_population
      (* numpy.random.choice: 'a' cannot be empty unless no samples are taken *)
  | ragged_sequence.
      (* torch.LongTensor of rows of different lengths *)

Inductive exception : Type :=
  | ValueError (why : value_error)
  | IndexError
  | ZeroDivisionError
  | FileNotFoundError.

(** The name of the class of an exception, as [type(e).__name__]. *)
Definition class_name (e : exception) : string :=
  match e with
  | ValueError _ => "ValueError"
  | IndexError => "IndexError"
  | ZeroDivisionError => "ZeroDivisionError"
  | FileNotFoundError => "FileNotFoundError"
  end.

Inductive result (A : Type) : Type :=
  | Ok (a : A)
  | Raise (e : exception).

Arguments Ok {A} a.
Arguments Raise {A} e.

Definition rbind {A B : Type} (r : result A) (k : A -> result B) : result B :=
  match r with
  | Ok a => k a
  | Raise e => Raise e
  end.

Declare Scope result_scope.
Delimit Scope result_scope with result.
Notation "x <- r ;; k" := (rbind r (fun x => k))
  (at level 61, r at next level, right associativity) : result_scope.
Notation "' p <- r ;; k" := (rbind r (fun p => k))
  (at level 61, p pattern, r at next level, right associativity) : result_scope.

Fixpoint mapR {A B : Type} (f : A -> result B) (l : list A) : result (list B) :=
  match l with
  | [] => Ok []
  | x :: l' =>
      match f x with
      | Raise e => Raise e
      | Ok y =>
          match mapR f l' with
          | Raise e => Raise e
          | Ok ys => Ok (y :: ys)
          end
      end
  end.

(* ================================================================= *)
(** ** Python built-ins used by the module *)

Definition tab : ascii := ascii_of_nat 9.
Definition newline : ascii := ascii_of_nat 10.
Definition space : ascii := ascii_of_nat 32.

(** Text of one character, to write lines such as ["a b" ++ TAB ++ "x"]. *)
Definition TAB : string := String tab EmptyString.
Definition NL : string := String newline EmptyString.

(** [s.rstrip(c)] for a one-character [c]: drops every trailing [c]. *)
Fixpoint rstrip (c : ascii) (s : string) : string :=
  match s with
  | EmptyString => EmptyString
  | String a s' =>
      match rstrip c s' with
      | EmptyString => if Ascii.eqb a c then EmptyString else String a EmptyString
      | r => String a r
      end
  end.

(** [s.split(sep)] for a one-character [sep]: the pieces between the
    occurrences of [sep], empty pieces included. *)
Fixpoint split (sep : ascii) (s : string) : list string :=
  match s with
  | EmptyString => [EmptyString]
  | String a s' =>
      if Ascii.eqb a sep then EmptyString :: split sep s'
      else
        match split sep s' with
        | piece :: pieces => String a piece :: pieces
        | [] => [String a EmptyString]
        end
  end.

(** Number of occurrences of a character, [s.count(c)]. *)
Fixpoint count_char (c : ascii) (s : string) : nat :=
  match s with
  | EmptyString => 0
  | String a s' => (if Ascii.eqb a c then 1 else 0) + count_char c s'
  end.

(** [a, b = values] *)
Definition unpack2 {A : Type} (values : list A) : result (A * A) :=
  match values with
  | [a; b] => Ok (a, b)
  | [] => Raise (ValueError (not_enough_values 2 0))
  | [_] => Raise (ValueError (not_enough_values 2 1))
  | _ => Raise (ValueError (too_many_values 2))
  end.

(** [max(iterable)] on naturals. *)
Definition py_max (l : list nat) : result nat :=
  match l with
  | [] => Raise (ValueError max_empty_sequence)
  | x :: l' => Ok (fold_left Nat.max l' x)
  end.

(** [l[i]] for [i >= 0]. *)
Definition getitem {A : Type} (l : list A) (i : nat) : result A :=
  match nth_error l i with
  | Some x => Ok x
  | None => Raise IndexError
  end.

(** [l[start:stop]] for [start, stop >= 0]. *)
Definition slice {A : Type} (l : list A) (start stop : nat) : list A :=
  skipn start (firstn stop l).

(** [range(start, stop)] *)
Definition range (start stop : nat) : list nat := seq start (stop - start).

(** [enumerate(l)] *)
Definition enumerate {A : Type} (l : list A) : list (nat * A) :=
  combine (seq 0 (length l)) l.

(** [sorted(l, key=key)].  Python's sort is stable: elements whose keys
    are equal keep their order.  A stable sort has one possible result,
    computed here by insertion from the right. *)
Fixpoint insert_by {A : Type} (key : A -> Z) (x : A) (l : list A) : list A :=
  match l with
  | [] => [x]
  | y :: l' =>
      if (key x <=? key y)%Z then x :: y :: l'
      else y :: insert_by key x l'
  end.

Fixpoint sorted {A : Type} (key : A -> Z) (l : list A) : list A :=
  match l with
  | [] => []
  | x :: l' => insert_by key x (sorted key l')
  end.

(** [names, texts = zip( *rows )] for rows that are pairs: with no row
    the [zip] is empty and cannot be unpacked into two names. *)
Definition unzip2 {A B : Type} (rows : list (A * B)) : result (list A * list B) :=
  match rows with
  | [] => Raise (ValueError (not_enough_values 2 0))
  | _ => Ok (map fst rows, map snd rows)
  end.

(** [sorted(l, key=key)] when computing a key may raise: the keys of all
    the elements are computed first, then the decorated list is sorted. *)
Definition sorted_with {A : Type} (key : A -> result Z) (l : list A)
  : result (list A) :=
  (keys <- mapR key l ;;
   Ok (map snd (sorted fst (combine keys l))))%result.

(** [zip(a, b, c, d)]: as long as the shortest argument *)
Definition zip4 {A B C D : Type} (a : list A) (b : list B) (c : list C)
  (d : list D) : list (A * B * C * D) :=
  combine (combine (combine a b) c) d.

(** [a, b, c, d = zip( *rows )] for rows of four components *)
Definition unzip4 {A B C D : Type} (rows : list (A * B * C * D))
  : result (list A * list B * list C * list D) :=
  match rows with
  | [] => Raise (ValueError (not_enough_values 4 0))
  | _ =>
      Ok (map (fun x => fst (fst (fst x))) rows,
          map (fun x => snd (fst (fst x))) rows,
          map (fun x => snd (fst x)) rows,
          map (fun x => snd x) rows)
  end.

(** [numpy.random.choice(range(n), size)]: [size] indices below [n],
    drawn with replacement.  The outcome of the draws is read from the
    oracle [rnd], one number per position of the result; an empty
    population is refused unless nothing is drawn. *)
Definition random_choice (rnd : nat -> nat) (n size : nat) : result (list nat) :=
  if Nat.eqb n 0 && negb (Nat.eqb size 0)
  then Raise (ValueError empty_population)
  else Ok (map (fun k => rnd k mod n) (seq 0 size)).

(* ================================================================= *)
(** ** Dictionaries *)

(** Keys of a dictionary are compared with [==]. *)
Class KeyEq (K : Type) := key_eq_dec : forall x y : K, {x = y} + {x <> y}.

#[global] Instance string_KeyEq : KeyEq string := string_dec.
#[global] Instance nat_KeyEq : KeyEq nat := Nat.eq_dec.

Definition dict (K V : Type) : Type := list (K * V).

Section Dict.
Context {K V : Type} `{KeyEq K}.

(** [d.get(k)], [None] when the key is absent *)
Fixpoint dict_get (d : dict K V) (k : K) : option V :=
  match d with
  | [] => None
  | (k', v) :: d' => if key_eq_dec k k' then Some v else dict_get d' k
  end.

(** [d.get(k, default)] *)
Definition dict_get_or (d : dict K V) (k : K) (default : V) : V :=
  match dict_get d k with
  | Some v => v
  | None => default
  end.

(** [d[k] = v]: a present key keeps its place, a new key goes last *)
Fixpoint dict_set (d : dict K V) (k : K) (v : V) : dict K V :=
  match d with
  | [] => [(k, v)]
  | (k', v') :: d' =>
      if key_eq_dec k k' then (k', v) :: d'
      else (k', v') :: dict_set d' k v
  end.
End Dict.

(** [{i: ch for ch, i in d.items()}] *)
Definition inverse {K V : Type} `{KeyEq V} (d : dict K V) : dict V K :=
  fold_left (fun inv item => dict_set inv (snd item) (fst item)) d [].

(* ================================================================= *)
(** ** The store of vocabulary objects *)

Definition vocab : Type := dict string nat.
Definition loc : Type := nat.
Definition store : Type := list vocab.

(** Reading and writing the object at a reference.  A reference of the
    program always points into the store; outside the store a read finds
    no entry and a write does nothing. *)
Definition deref (st : store) (l : loc) : vocab := nth l st [].

Fixpoint assign (st : store) (l : loc) (d : vocab) : store :=
  match st, l with
  | [], _ => []
  | _ :: st', O => d :: st'
  | d' :: st', S l' => d' :: assign st' l' d
  end.

(** Computations that read and mutate the store and may raise. *)
Definition M (A : Type) : Type := store -> result A * store.

Definition ret {A : Type} (a : A) : M A := fun st => (Ok a, st).

Definition bind {A B : Type} (m : M A) (k : A -> M B) : M B :=
  fun st =>
    match m st with
    | (Ok a, st') => k a st'
    | (Raise e, st') => (Raise e, st')
    end.

Definition lift {A : Type} (r : result A) : M A := fun st => (r, st).

Declare Scope store_scope.
Delimit Scope store_scope with M.
Notation "x <- m ;; k" := (bind m (fun x => k))
  (at level 61, m at next level, right associativity) : store_scope.
Notation "' p <- m ;; k" := (bind m (fun p => k))
  (at level 61, p pattern, m at next level, right associativity) : store_scope.
Notation "m ;;; k" := (bind m (fun _ => k))
  (at level 61, right associativity) : store_scope.

(** [defaultdict(lambda: len(self.src_vocab))]: a new, empty object.  The
    factory of a vocabulary returns the size of that same vocabulary: the
    attribute it reads is bound to the object once and for all. *)
Definition new_defaultdict : M loc :=
  fun st => (Ok (length st), st ++ [[]]).

(** [vocab[k] = v] *)
Definition vocab_setitem (l : loc) (k : string) (v : nat) : M unit :=
  fun st => (Ok tt, assign st l (dict_set (deref st l) k v)).

(** [vocab[k]] on a [defaultdict]: a missing key is given the value of
    the factory, the current size, and is inserted. *)
Definition vocab_getitem (l : loc) (k : string) : M nat :=
  fun st =>
    let d := deref st l in
    match dict_get d k with
    | Some v => (Ok v, st)
    | None =>
        let v := length d in
        (Ok v, assign st l (dict_set d k v))
    end.

(** [vocab.get(k, default)]: never inserts *)
Definition vocab_get (l : loc) (k : string) (default : nat) : M nat :=
  fun st => (Ok (dict_get_or (deref st l) k default), st).

(** [len(vocab)] *)
Definition vocab_len (l : loc) : M nat :=
  fun st => (Ok (length (deref st l)), st).

(** [[vocab[c] for c in tokens]] *)
Fixpoint getitem_each (l : loc) (tokens : list string) : M (list nat) :=
  match tokens with
  | [] => ret []
  | c :: tokens' =>
      (i <- vocab_getitem l c ;;
       ids <- getitem_each l tokens' ;;
       ret (i :: ids))%M
  end.

(** [[vocab.get(c, default) for c in tokens]] *)
Fixpoint get_each (l : loc) (tokens : list string) (default : nat) : M (list nat) :=
  match tokens with
  | [] => ret []
  | c :: tokens' =>
      (i <- vocab_get l c default ;;
       ids <- get_each l tokens' default ;;
       ret (i :: ids))%M
  end.

(* ================================================================= *)
(** ** Tensors *)

(** A [torch.LongTensor] of one or two dimensions.  [Tensor2 d0 d1 rows]
    has shape [(d0, d1)]: [d0] rows of [d1] entries.  Entries stay
    unbounded naturals; the ids and lengths stored are far below the
    64-bit range. *)
Inductive tensor : Type :=
  | Tensor1 (values : list nat)
  | Tensor2 (d0 d1 : nat) (rows : list (list nat)).

(** [torch.LongTensor(values)] on a flat sequence of integers *)
Definition LongTensor1 (values : list nat) : tensor := Tensor1 values.

(** [torch.LongTensor(rows)] on a sequence of sequences: the rows must
    have one length; no row at all gives the empty tensor of dimension 1 *)
Definition LongTensor2 (rows : list (list nat)) : result tensor :=
  match rows with
  | [] => Ok (Tensor1 [])
  | r :: rows' =>
      if forallb (fun r' => Nat.eqb (length r') (length r)) rows'
      then Ok (Tensor2 (length rows) (length r) rows)
      else Raise (ValueError ragged_sequence)
  end.

(** [t.transpose(0, 1)]: needs two dimensions *)
Definition transpose (t : tensor) : result tensor :=
  match t with
  | Tensor1 _ => Raise IndexError
  | Tensor2 d0 d1 rows =>
      Ok (Tensor2 d1 d0
            (map (fun j => map (fun r => nth j r 0) rows) (seq 0 d1)))
  end.

(** Entries of a tensor along its second axis: [t[:, k]] *)
Definition column (t : tensor) (k : nat) : list nat :=
  match t with
  | Tensor1 _ => []
  | Tensor2 _ _ rows => map (fun r => nth k r 0) rows
  end.

(** All the columns [t[:, 0], t[:, 1], ...] of a tensor *)
Definition columns (t : tensor) : list (list nat) :=
  match t with
  | Tensor1 _ => []
  | Tensor2 _ d1 _ => map (column t) (seq 0 d1)
  end.

(* ================================================================= *)
(** ** The configuration object *)

(** The options of [cfg] that the module reads ([share_vocab],
    [src_vocab_file]) and writes ([input_size], [output_size], absent
    until [update_config] runs). *)
Record Config : Type := {
  share_vocab : bool;
  src_vocab_file : string;
  input_size : option nat;
  output_size : option nat
}.

(** A raw sample: the source tokens and the target tokens of a line. *)
Definition raw_sample : Type := (list string * list string)%type.

(** An encoded sample: the padded source ids and target ids. *)
Definition sample : Type := (list nat * list nat)%type.

(** A batch: source ids, target ids, source lengths, target lengths. *)
Definition batch : Type := (tensor * tensor * list nat * tensor)%type.

(* ================================================================= *)
(** ** class Dataset *)

Module Dataset.

Definition PAD : nat := 0.
Definition SOS : nat := 1.
Definition EOS : nat := 2.
Definition UNK : nat := 3.

Definition CONSTANTS : dict string nat :=
  [("PAD", PAD); ("SOS", SOS); ("EOS", EOS); ("UNK", UNK)].

(** The attributes of a dataset object.  [src_vocab] and [tgt_vocab] are
    references into the store; [tgt_inv_vocab] is [None] as long as the
    attribute does not exist.  The configuration is kept by value: its
    two written fields are read by nothing in this module.  The
    attributes that [load_data_from_stream] sets are empty before it
    runs. *)
Record t : Type := {
  cfg : Config;
  src_vocab : loc;
  tgt_vocab : loc;
  samples : list sample;
  raw_samples : list raw_sample;
  src_maxlen : nat;
  tgt_maxlen : nat;
  src_seqlen : list nat;
  tgt_seqlen : list nat;
  tgt_inv_vocab : option (dict nat string)
}.

Definition update_config (self : t) : M t :=
  (n_src <- vocab_len (src_vocab self) ;;
   n_tgt <- vocab_len (tgt_vocab self) ;;
   ret {| cfg := {| share_vocab := share_vocab (cfg self);
                    src_vocab_file := src_vocab_file (cfg self);
                    input_size := Some n_src;
                    output_size := Some n_tgt |};
          src_vocab := src_vocab self;
          tgt_vocab := tgt_vocab self;
          samples := samples self;
          raw_samples := raw_samples self;
          src_maxlen := src_maxlen self;
          tgt_maxlen := tgt_maxlen self;
          src_seqlen := src_seqlen self;
          tgt_seqlen := tgt_seqlen self;
          tgt_inv_vocab := tgt_inv_vocab self |})%M.

Definition src_lookup (self : t) (ch : string) (frozen : bool) : M nat :=
  if negb frozen then vocab_getitem (src_vocab self) ch
  else vocab_get (src_vocab self) ch UNK.

(** The lookup of the target role, as the loader writes it:
    [self.tgt_vocab[ch]] or [self.tgt_vocab.get(ch, UNK)]. *)
Definition tgt_lookup (self : t) (ch : string) (frozen : bool) : M nat :=
  if negb frozen then vocab_getitem (tgt_vocab self) ch
  else vocab_get (tgt_vocab self) ch UNK.

(** [tgt_reverse_lookup]: the first call creates the attribute
    [tgt_inv_vocab] from the target vocabulary as it is then; the
    object is returned with the answer since the call may mutate it. *)
Definition tgt_reverse_lookup (self : t) (idx : nat) : M (t * string) :=
  fun st =>
    let inv :=
      match tgt_inv_vocab self with
      | Some inv => inv
      | None => inverse (deref st (tgt_vocab self))
      end in
    (Ok ({| cfg := cfg self;
            src_vocab := src_vocab self;
            tgt_vocab := tgt_vocab self;
            samples := samples self;
            raw_samples := raw_samples self;
            src_maxlen := src_maxlen self;
            tgt_maxlen := tgt_maxlen self;
            src_seqlen := src_seqlen self;
            tgt_seqlen := tgt_seqlen self;
            tgt_inv_vocab := Some inv |},
         dict_get_or inv idx "<UNK>"), st).

(** One line of the stream: [line.rstrip('\n').split('\t')] unpacked
    into two texts, each split on single spaces. *)
Definition parse_line (line : string) : result raw_sample :=
  ('(src, tgt) <- unpack2 (split tab (rstrip newline line)) ;;
   Ok (split space src, split space tgt))%result.

(** The first loop of [load_data_from_stream]: the lines are parsed in
    order and appended to [raw_samples]; the first line that cannot be
    parsed raises, and the lines after it are never read. *)
Fixpoint read_stream (raw_samples : list raw_sample) (stream : list string)
  : result (list raw_sample) :=
  match stream with
  | [] => Ok raw_samples
  | line :: stream' =>
      match parse_line line with
      | Raise e => Raise e
      | Ok s => read_stream (raw_samples ++ [s]) stream'
      end
  end.

(** The pair appended to [samples] for one raw sample.  The source ids
    are computed before the target ids. *)
Definition encode (self : t) (frozen_vocab : bool) (src_maxlen tgt_maxlen : nat)
  (s : raw_sample) : M sample :=
  let (src, tgt) := s in
  if frozen_vocab then
    (src_ids <- get_each (src_vocab self) src UNK ;;
     tgt_ids <- get_each (tgt_vocab self) tgt UNK ;;
     ret (src_ids ++ repeat PAD (src_maxlen - length src),
          (tgt_ids ++ [EOS]) ++ repeat PAD (tgt_maxlen - length tgt)))%M
  else
    (src_ids <- getitem_each (src_vocab self) src ;;
     tgt_ids <- getitem_each (tgt_vocab self) tgt ;;
     ret (src_ids ++ repeat PAD (src_maxlen - length src),
          (tgt_ids ++ [EOS]) ++ repeat PAD (tgt_maxlen - length tgt)))%M.

(** The second loop of [load_data_from_stream] *)
Fixpoint encode_loop (self : t) (frozen_vocab : bool) (src_maxlen tgt_maxlen : nat)
  (samples : list sample) (raw_samples : list raw_sample) : M (list sample) :=
  match raw_samples with
  | [] => ret samples
  | s :: raw_samples' =>
      (e <- encode self frozen_vocab src_maxlen tgt_maxlen s ;;
       encode_loop self frozen_vocab src_maxlen tgt_maxlen
         (samples ++ [e]) raw_samples')%M
  end.

(** [load_data_from_stream]: the object with the attributes that the
    load has set.  When the load raises, the attributes written so far
    are lost with the object: the callers are the constructors, which
    then return no object. *)
Definition load_data_from_stream (self : t) (stream : list string)
  (frozen_vocab : bool) : M t :=
  (raw_samples <- lift (read_stream [] stream) ;;
   src_maxlen <- lift (py_max (map (fun s => length (fst s)) raw_samples)) ;;
   tgt_maxlen <- lift (py_max (map (fun s => length (snd s)) raw_samples)) ;;
   let src_seqlen := map (fun s => length (fst s)) raw_samples in
   let tgt_seqlen := map (fun s => length (snd s) + 1) raw_samples in
   samples <- encode_loop self frozen_vocab src_maxlen tgt_maxlen [] raw_samples ;;
   ret {| cfg := cfg self;
          src_vocab := src_vocab self;
          tgt_vocab := tgt_vocab self;
          samples := samples;
          raw_samples := raw_samples;
          src_maxlen := src_maxlen;
          tgt_maxlen := tgt_maxlen + 1;
          src_seqlen := src_seqlen;
          tgt_seqlen := tgt_seqlen;
          tgt_inv_vocab := tgt_inv_vocab self |})%M.

(** [for k, v in CONSTANTS.items(): src_vocab[k] = v; tgt_vocab[k] = v] *)
Fixpoint set_constants (src tgt : loc) (items : dict string nat) : M unit :=
  match items with
  | [] => ret tt
  | (k, v) :: items' =>
      (vocab_setitem src k v ;;;
       vocab_setitem tgt k v ;;;
       set_constants src tgt items')%M
  end.

Definition __init__ (cfg : Config) (stream : list string) : M t :=
  (src <- new_defaultdict ;;
   tgt <- (if share_vocab cfg then ret src else new_defaultdict) ;;
   set_constants src tgt CONSTANTS ;;;
   self <- load_data_from_stream
             {| cfg := cfg; src_vocab := src; tgt_vocab := tgt;
                samples := []; raw_samples := [];
                src_maxlen := 0; tgt_maxlen := 0;
                src_seqlen := []; tgt_seqlen := [];
                tgt_inv_vocab := None |} stream false ;;
   update_config self)%M.

(** [get_random_batch]: [rnd] is the outcome of the random draws.
    Moving a tensor to the GPU ([.cuda()]) does not change its entries. *)
Definition get_random_batch (self : t) (batch_size : nat) (rnd : nat -> nat)
  : result batch :=
  (idx <- random_choice rnd (length (samples self)) batch_size ;;
   idx <- sorted_with
            (fun i => n <- getitem (src_seqlen self) i ;; Ok (- Z.of_nat n)%Z)
            idx ;;
   src <- mapR (fun i => s <- getitem (samples self) i ;; Ok (fst s)) idx ;;
   tgt <- mapR (fun i => s <- getitem (samples self) i ;; Ok (snd s)) idx ;;
   src <- LongTensor2 src ;;
   src <- transpose src ;;
   tgt <- LongTensor2 tgt ;;
   tgt <- transpose tgt ;;
   src_len <- mapR (getitem (src_seqlen self)) idx ;;
   tgt_len <- mapR (getitem (tgt_seqlen self)) idx ;;
   Ok (src, tgt, src_len, LongTensor1 tgt_len))%result.

(** The body of the loop of [batched_iter]: the batch yielded for [i] *)
Definition batched_iter_body (self : t) (batch_size i : nat) : result batch :=
  let start := i * batch_size in
  let stop := Nat.min ((i + 1) * batch_size) (length (samples self)) in
  let batch := slice (samples self) start stop in
  let src := map fst batch in
  let tgt := map snd batch in
  (src_len <- mapR (getitem (src_seqlen self)) (range start stop) ;;
   tgt_len <- mapR (getitem (tgt_seqlen self)) (range start stop) ;;
   let batch := zip4 src tgt src_len tgt_len in
   let batch := sorted (fun x => (- Z.of_nat (snd (fst x)))%Z) batch in
   '(src, tgt, src_len, tgt_len) <- unzip4 batch ;;
   src <- LongTensor2 src ;;
   src <- transpose src ;;
   tgt <- LongTensor2 tgt ;;
   tgt <- transpose tgt ;;
   Ok (src, tgt, src_len, LongTensor1 tgt_len))%result.

(** [batched_iter]: the batches that the generator yields when it is run
    to its end, or the first exception that stops it. *)
Definition batched_iter (self : t) (batch_size : nat) : result (list batch) :=
  if Nat.eqb batch_size 0 then Raise ZeroDivisionError
  else
    let batch_count := length (samples self) / batch_size in
    let batch_count :=
      if Nat.ltb (batch_count * batch_size) (length (samples self))
      then batch_count + 1 else batch_count in
    mapR (batched_iter_body self batch_size) (range 0 batch_count).

End Dataset.

(* ================================================================= *)
(** ** class ValidationDataset *)

Module ValidationDataset.

(** The new object takes [cfg] and both vocabularies of [train_data] by
    reference and loads its stream with the vocabularies frozen. *)
Definition __init__ (train_data : Dataset.t) (stream : list string)
  : M Dataset.t :=
  Dataset.load_data_from_stream
    {| Dataset.cfg := Dataset.cfg train_data;
       Dataset.src_vocab := Dataset.src_vocab train_data;
       Dataset.tgt_vocab := Dataset.tgt_vocab train_data;
       Dataset.samples := []; Dataset.raw_samples := [];
       Dataset.src_maxlen := 0; Dataset.tgt_maxlen := 0;
       Dataset.src_seqlen := []; Dataset.tgt_seqlen := [];
       Dataset.tgt_inv_vocab := None |} stream true.

End ValidationDataset.

(* ================================================================= *)
(** ** class InferenceDataset *)

Module InferenceDataset.

(** The files that [open] can read: the lines of the file at a path, or
    [None] when there is no such file. *)
Definition files : Type := string -> option (list string).

Record t : Type := {
  cfg : Config;
  src_vocab : dict string string;
  raw_samples : list string;
  len_mapping : list nat;
  samples : list string
}.

(** One line of the vocabulary file *)
Definition parse_entry (l : string) : result (string * string) :=
  unpack2 (split tab (rstrip newline l)).

(** The loop of [load_src_vocab] over the lines of the file *)
Fixpoint read_entries (src_vocab : dict string string) (f : list string)
  : result (dict string string) :=
  match f with
  | [] => Ok src_vocab
  | l :: f' =>
      match parse_entry l with
      | Raise e => Raise e
      | Ok (src, tgt) => read_entries (dict_set src_vocab src tgt) f'
      end
  end.

Definition load_src_vocab (fs : files) (cfg : Config)
  : result (dict string string) :=
  match fs (src_vocab_file cfg) with
  | None => Raise FileNotFoundError
  | Some f => read_entries [] f
  end.

(** [load_data_from_stream]: the values of [raw_samples], [len_mapping]
    and [samples] *)
Definition load_data_from_stream (stream : list string)
  : result (list string * list nat * list string) :=
  let raw_samples := map (rstrip newline) stream in
  ('(len_mapping, samples) <-
      unzip2 (sorted (fun x => (- Z.of_nat (String.length (snd x)))%Z)
                (enumerate raw_samples)) ;;
   Ok (raw_samples, len_mapping, samples))%result.

Definition __init__ (fs : files) (cfg : Config) (stream : list string)
  : result t :=
  (src_vocab <- load_src_vocab fs cfg ;;
   '(raw_samples, len_mapping, samples) <- load_data_from_stream stream ;;
   Ok {| cfg := cfg; src_vocab := src_vocab; raw_samples := raw_samples;
         len_mapping := len_mapping; samples := samples |})%result.

End InferenceDataset.

(* ================================================================= *)
(** ** Predicates of the statements *)

(** The lines that the loader accepts. *)
Definition one_tab (line : string) : Prop := count_char tab line = 1.

(** The ids of a vocabulary, oldest entry first, are [0, 1, 2, ...]:
    the id of a token is its rank of insertion. *)
Definition ranked (d : vocab) : Prop := map snd d = seq 0 (length d).

(** A reference that points into the store, at a ranked vocabulary. *)
Definition ranked_at (st : store) (l : loc) : Prop :=
  l < length st /\ ranked (deref st l).

(** The store [st'] comes after [st]: it has the same objects, and each
    vocabulary has kept its entries and may have new ones after them. *)
Definition grows (st st' : store) : Prop :=
  length st' = length st /\
  forall l, exists more, deref st' l = deref st l ++ more.

(** The ids that a vocabulary gives to a list of tokens it knows. *)
Definition ids_of (d : vocab) (tokens : list string) (ids : list nat) : Prop :=
  Forall2 (fun tok i => dict_get d tok = Some i) tokens ids.

(** The shape of an encoded sample: as many ids as tokens, the end
    marker after the target ids, and padding up to the two lengths. *)
Definition padded (src_maxlen tgt_maxlen : nat) (raw : raw_sample) (e : sample)
  (src_ids tgt_ids : list nat) : Prop :=
  length src_ids = length (fst raw) /\
  length tgt_ids = length (snd raw) /\
  e = (src_ids ++ repeat Dataset.PAD (src_maxlen - length (fst raw)),
       (tgt_ids ++ [Dataset.EOS]) ++
       repeat Dataset.PAD (tgt_maxlen - length (snd raw))).

(** [e] encodes [raw] with the ids of the vocabularies [src_d], [tgt_d]. *)
Definition encoded_as (src_d tgt_d : vocab) (src_maxlen tgt_maxlen : nat)
  (raw : raw_sample) (e : sample) : Prop :=
  exists src_ids tgt_ids,
    padded src_maxlen tgt_maxlen raw e src_ids tgt_ids /\
    ids_of src_d (fst raw) src_ids /\
    ids_of tgt_d (snd raw) tgt_ids.

(** [e] encodes [raw] with the vocabularies [src_d], [tgt_d] frozen: a
    token that the vocabulary lacks has the id UNK. *)
Definition encoded_frozen (src_d tgt_d : vocab) (src_maxlen tgt_maxlen : nat)
  (raw : raw_sample) (e : sample) : Prop :=
  padded src_maxlen tgt_maxlen raw e
    (map (fun c => dict_get_or src_d c Dataset.UNK) (fst raw))
    (map (fun c => dict_get_or tgt_d c Dataset.UNK) (snd raw)).

Definition well_padded (src_maxlen tgt_maxlen : nat) (raw : raw_sample)
  (e : sample) : Prop :=
  exists src_ids tgt_ids, padded src_maxlen tgt_maxlen raw e src_ids tgt_ids.

(** What [load_data_from_stream] leaves in the attributes of a dataset
    whose stream was parsed into [raw]. *)
Definition loaded (raw : list raw_sample) (ds : Dataset.t) : Prop :=
  raw <> [] /\
  Dataset.raw_samples ds = raw /\
  Dataset.src_maxlen ds = list_max (map (fun s => length (fst s)) raw) /\
  Dataset.tgt_maxlen ds = list_max (map (fun s => length (snd s)) raw) + 1 /\
  Dataset.src_seqlen ds = map (fun s => length (fst s)) raw /\
  Dataset.tgt_seqlen ds = map (fun s => length (snd s) + 1) raw /\
  Forall2 (well_padded (Dataset.src_maxlen ds) (Dataset.tgt_maxlen ds - 1))
    raw (Dataset.samples ds).

(** The store and the object on which [Dataset.__init__] calls
    [load_data_from_stream]: one or two new vocabularies that hold the
    four constants, after the objects of the store [st]. *)
Definition init_store (cfg : Config) (st : store) : store :=
  if share_vocab cfg then st ++ [Dataset.CONSTANTS]
  else st ++ [Dataset.CONSTANTS; Dataset.CONSTANTS].

Definition init_self (cfg : Config) (st : store) : Dataset.t :=
  {| Dataset.cfg := cfg;
     Dataset.src_vocab := length st;
     Dataset.tgt_vocab := if share_vocab cfg then length st else S (length st);
     Dataset.samples := []; Dataset.raw_samples := [];
     Dataset.src_maxlen := 0; Dataset.tgt_maxlen := 0;
     Dataset.src_seqlen := []; Dataset.tgt_seqlen := [];
     Dataset.tgt_inv_vocab := None |}.

(** What [Dataset.__init__ cfg stream] has built when it returns [ds]
    in the store [st'], from a stream parsed into [raw] and a store [st]:
    the attributes of the load, the two references, ranked vocabularies
    that begin with the constants, and rows made of the ids that the
    final vocabularies give to the tokens. *)
Definition built (cfg : Config) (st : store) (raw : list raw_sample)
  (ds : Dataset.t) (st' : store) : Prop :=
  loaded raw ds /\
  Dataset.src_vocab ds = length st /\
  Dataset.tgt_vocab ds = (if share_vocab cfg then length st else S (length st)) /\
  Dataset.tgt_inv_vocab ds = None /\
  share_vocab (Dataset.cfg ds) = share_vocab cfg /\
  grows (init_store cfg st) st' /\
  ranked_at st' (Dataset.src_vocab ds) /\
  ranked_at st' (Dataset.tgt_vocab ds) /\
  Forall2 (encoded_as (deref st' (Dataset.src_vocab ds))
             (deref st' (Dataset.tgt_vocab ds))
             (Dataset.src_maxlen ds) (Dataset.tgt_maxlen ds - 1))
    raw (Dataset.samples ds).

(** The sample of a dataset at an index, and its two recorded lengths. *)
Definition sample_at (ds : Dataset.t) (i : nat) : sample :=
  nth i (Dataset.samples ds) ([], []).

Definition src_len_at (ds : Dataset.t) (i : nat) : nat :=
  nth i (Dataset.src_seqlen ds) 0.

Definition tgt_len_at (ds : Dataset.t) (i : nat) : nat :=
  nth i (Dataset.tgt_seqlen ds) 0.

(** The batch [b] holds, at its successive positions along the sample
    axis, the samples of [ds] whose indices are listed in [idx]: the
    source column, the target column, the source length and the target
    length at a position all come from the sample of that index. *)
Definition drawn_from (ds : Dataset.t) (idx : list nat) (b : batch) : Prop :=
  let '(src, tgt, src_len, tgt_len) := b in
  Forall (fun i => i < length (Dataset.samples ds)) idx /\
  columns src = map (fun i => fst (sample_at ds i)) idx /\
  columns tgt = map (fun i => snd (sample_at ds i)) idx /\
  src_len = map (src_len_at ds) idx /\
  tgt_len = Tensor1 (map (tgt_len_at ds) idx).

(** The encoded samples that a batch holds, position by position. *)
Definition batch_samples (b : batch) : list sample :=
  let '(src, tgt, _, _) := b in combine (columns src) (columns tgt).

(** The source lengths that a batch returns. *)
Definition batch_src_len (b : batch) : list nat :=
  let '(_, _, src_len, _) := b in src_len.

(** The order in which a batch puts the indices [idx]. *)
Definition by_length (ds : Dataset.t) (idx : list nat) : list nat :=
  sorted (fun i => (- Z.of_nat (src_len_at ds i))%Z) idx.

(** The indices of the [i]-th chunk of [batched_iter]. *)
Definition chunk (ds : Dataset.t) (batch_size i : nat) : list nat :=
  range (i * batch_size)
    (Nat.min ((i + 1) * batch_size) (length (Dataset.samples ds))).

(** The number of batches: the quotient rounded up. *)
Definition ceil_div (n m : nat) : nat := (n + m - 1) / m.

(** The dataset [ds] with the attribute [tgt_inv_vocab] in the state
    [cache]: absent, or holding an inverse mapping. *)
Definition with_tgt_inv_vocab (ds : Dataset.t) (cache : option (dict nat string))
  : Dataset.t :=
  {| Dataset.cfg := Dataset.cfg ds;
     Dataset.src_vocab := Dataset.src_vocab ds;
     Dataset.tgt_vocab := Dataset.tgt_vocab ds;
     Dataset.samples := Dataset.samples ds;
     Dataset.raw_samples := Dataset.raw_samples ds;
     Dataset.src_maxlen := Dataset.src_maxlen ds;
     Dataset.tgt_maxlen := Dataset.tgt_maxlen ds;
     Dataset.src_seqlen := Dataset.src_seqlen ds;
     Dataset.tgt_seqlen := Dataset.tgt_seqlen ds;
     Dataset.tgt_inv_vocab := cache |}.

(** The inverse mapping that [tgt_reverse_lookup] reads: the cached one,
    or the one it builds from the target vocabulary of the store. *)
Definition inverse_in_use (self : Dataset.t) (st : store) : dict nat string :=
  match Dataset.tgt_inv_vocab self with
  | Some inv => inv
  | None => inverse (deref st (Dataset.tgt_vocab self))
  end.

(** The target vocabulary has not grown since the inverse mapping was
    cached: the cache, if there is one, is the inverse of the vocabulary
    as the store has it. *)
Definition cache_current (self : Dataset.t) (st : store) : Prop :=
  Dataset.tgt_inv_vocab self = None \/
  Dataset.tgt_inv_vocab self = Some (inverse (deref st (Dataset.tgt_vocab self))).

(* ================================================================= *)
(** ** The order of first encounter *)

(** The tokens seen so far, after one more token is met: a token that is
    new goes last. *)
Definition see_token (seen : list string) (tok : string) : list string :=
  if in_dec string_dec tok seen then seen else seen ++ [tok].

(** The distinct tokens of [seen] and then of [tokens], each at the place
    of its first encounter. *)
Definition first_seen (seen tokens : list string) : list string :=
  fold_left see_token tokens seen.

(** The vocabulary that numbers its keys from 0 in their order. *)
Definition numbered (keys : list string) : vocab :=
  combine keys (seq 0 (length keys)).

(** The keys of the vocabulary at a reference, oldest first. *)
Definition keys_at (st : store) (l : loc) : list string :=
  map fst (deref st l).

(** The four reserved tokens. *)
Definition reserved : list string := map fst Dataset.CONSTANTS.

(** The tokens in the order in which the loader looks them up: through
    the source role, through the target role, and through both roles
    when they share one vocabulary (for each sample the source tokens,
    then the target tokens). *)
Definition src_encounters (raw : list raw_sample) : list string :=
  concat (map fst raw).

Definition tgt_encounters (raw : list raw_sample) : list string :=
  concat (map snd raw).

Definition all_encounters (raw : list raw_sample) : list string :=
  concat (map (fun r => fst r ++ snd r) raw).

(* ================================================================= *)
(** ** Inputs of the examples *)

Definition cfg_separate : Config :=
  {| share_vocab := false; src_vocab_file := "src_vocab.tsv";
     input_size := None; output_size := None |}.

Definition cfg_shared : Config :=
  {| share_vocab := true; src_vocab_file := "src_vocab.tsv";
     input_size := None; output_size := None |}.

(** The two lines ["a b c\tx y\n"] and ["a b\tx\n"]. *)
Definition two_lines : list string :=
  [("a b c" ++ TAB ++ "x y" ++ NL)%string; ("a b" ++ TAB ++ "x" ++ NL)%string].

(** A line without a tab after a line that is well formed. *)
Definition no_tab_lines : list string :=
  [("a b" ++ TAB ++ "x" ++ NL)%string; ("a b c" ++ NL)%string;
   ("c" ++ TAB ++ "y" ++ NL)%string].

(** A line with two tabs. *)
Definition two_tab_lines : list string :=
  [("a" ++ TAB ++ "x" ++ TAB ++ "y" ++ NL)%string].

(** The line ["a\tb a\n"]: its target has a token that its source has. *)
Definition echo_line : list string := [("a" ++ TAB ++ "b a" ++ NL)%string].

(** Three lines of 5, 2 and 8 characters. *)
Definition three_lines : list string :=
  [("abcde" ++ NL)%string; ("ab" ++ NL)%string; ("abcdefgh" ++ NL)%string].

(** A file system with one vocabulary file of two entries. *)
Definition one_vocab_file : InferenceDataset.files :=
  fun path =>
    if String.eqb path "src_vocab.tsv"
    then Some [("a" ++ TAB ++ "4" ++ NL)%string; ("b" ++ TAB ++ "5" ++ NL)%string]
    else None.

(** The training dataset built from [two_lines] in the empty store, and
    the store it leaves. *)
Definition two_lines_ds : Dataset.t :=
  Eval vm_compute in
    match Dataset.__init__ cfg_separate two_lines [] with
    | (Ok ds, _) => ds
    | (Raise _, _) => init_self cfg_separate []
    end.

Definition two_lines_store : store :=
  Eval vm_compute in snd (Dataset.__init__ cfg_separate two_lines []).

(** The dataset built from [echo_line] with a shared vocabulary. *)
Definition echo_ds : Dataset.t :=
  Eval vm_compute in
    match Dataset.__init__ cfg_shared echo_line [] with
    | (Ok ds, _) => ds
    | (Raise _, _) => init_self cfg_shared []
    end.

Definition echo_store : store :=
  Eval vm_compute in snd (Dataset.__init__ cfg_shared echo_line []).

(** A dataset that one of the two constructors has returned. *)
Definition constructed (ds : Dataset.t) : Prop :=
  (exists cfg stream st st',
      Dataset.__init__ cfg stream st = (Ok ds, st')) \/
  (exists train_data stream st st',
      ValidationDataset.__init__ train_data stream st = (Ok ds, st')).

(* ================================================================= *)
(** ** Further notions and inputs *)

(** [sep.join(pieces)] for a one-character [sep]. *)
Fixpoint join (sep : ascii) (pieces : list string) : string :=
  match pieces with
  | [] => EmptyString
  | [p] => p
  | p :: pieces' => (p ++ String sep (join sep pieces'))%string
  end.

(** The tensor of the rows [rows], all of length [n], transposed: [n]
    rows of [length rows] entries. *)
Definition time_major_of (n : nat) (rows : list (list nat)) : tensor :=
  Tensor2 n (length rows)
    (map (fun j => map (fun r => nth j r 0) rows) (seq 0 n)).

(** The batch that holds the samples of the indices [idx], in that
    order. *)
Definition batch_of (ds : Dataset.t) (idx : list nat) : batch :=
  (time_major_of (Dataset.src_maxlen ds)
     (map (fun i => fst (sample_at ds i)) idx),
   time_major_of (Dataset.tgt_maxlen ds)
     (map (fun i => snd (sample_at ds i)) idx),
   map (src_len_at ds) idx,
   Tensor1 (map (tgt_len_at ds) idx)).

(** The tensor [t] has shape [(n, width)] and its entry [(j, k)] is the
    [j]-th entry of the [k]-th of the sequences [cols]. *)
Definition lays_out (t : tensor) (n width : nat) (cols : list (list nat))
  : Prop :=
  exists rows,
    t = Tensor2 n width rows /\
    length rows = n /\
    Forall (fun r => length r = width) rows /\
    forall j k, j < n -> k < width ->
                nth k (nth j rows []) 0 = nth j (nth k cols []) 0.

(** Two validation lines: [d] and [z] are tokens that [two_lines] does
    not have. *)
Definition valid_lines : list string :=
  [("a d" ++ TAB ++ "x z" ++ NL)%string; ("c" ++ TAB ++ "y" ++ NL)%string].

(** The validation dataset built on [two_lines_ds] from [valid_lines]. *)
Definition valid_ds : Dataset.t :=
  Eval vm_compute in
    match ValidationDataset.__init__ two_lines_ds valid_lines two_lines_store with
    | (Ok ds, _) => ds
    | (Raise _, _) => two_lines_ds
    end.

(** The batch [b] is laid out time-major for the samples of [ds] at the
    indices [idx]: its two matrices have the shapes
    [(src_maxlen, length idx)] and [(tgt_maxlen, length idx)], their
    entries [(j, k)] are the [j]-th source and target ids of the sample
    at the [k]-th index, and its lengths are those recorded for the
    indices, in the same order. *)
Definition batch_shape (ds : Dataset.t) (b : batch) (idx : list nat) : Prop :=
  let '(src, tgt, src_len, tgt_len) := b in
  Forall (fun i => i < length (Dataset.samples ds)) idx /\
  lays_out src (Dataset.src_maxlen ds) (length idx)
    (map (fun i => fst (sample_at ds i)) idx) /\
  lays_out tgt (Dataset.tgt_maxlen ds) (length idx)
    (map (fun i => snd (sample_at ds i)) idx) /\
  src_len = map (src_len_at ds) idx /\
  tgt_len = Tensor1 (map (tgt_len_at ds) idx).

(* ################################################################# *)
(** * Properties *)

(* ================================================================= *)
(** ** Fallible computations *)

Lemma mapR_app {A B : Type} (f : A -> result B) (l1 l2 : list A) :
  mapR f (l1 ++ l2) =
  (ys1 <- mapR f l1 ;; ys2 <- mapR f l2 ;; Ok (ys1 ++ ys2))%result.
Proof.
  induction l1 as [|x l1 IH]; simpl.
  - destruct (mapR f l2); reflexivity.
  - destruct (f x) as [y|e]; [|reflexivity].
    rewrite IH. destruct (mapR f l1) as [ys1|e]; simpl; [|reflexivity].
    destruct (mapR f l2); reflexivity.
Qed.

Lemma mapR_Ok_Forall2 {A B : Type} (f : A -> result B) (l : list A) (ys : list B) :
  mapR f l = Ok ys <-> Forall2 (fun x y => f x = Ok y) l ys.
Proof.
  revert ys. induction l as [|x l IH]; intros ys; simpl.
  - split.
    + intros E. injection E as <-. constructor.
    + intros F. inversion F. reflexivity.
  - split.
    + destruct (f x) as [y|e] eqn:Ex; [|discriminate].
      destruct (mapR f l) as [ys'|e] eqn:El; [|discriminate].
      intros E. injection E as <-. constructor; [exact Ex|].
      apply IH. reflexivity.
    + intros F. inversion F as [|x' y l' ys' Ex Fl]; subst.
      rewrite Ex. apply IH in Fl. rewrite Fl. reflexivity.
Qed.

Lemma mapR_total {A B : Type} (f : A -> result B) (g : A -> B) (l : list A) :
  Forall (fun x => f x = Ok (g x)) l -> mapR f l = Ok (map g l).
Proof.
  induction 1 as [|x l Hx _ IH]; simpl; [reflexivity|].
  rewrite Hx, IH. reflexivity.
Qed.

(** The first element that raises decides the exception of [mapR]. *)
Lemma mapR_first_Raise {A B : Type} (f : A -> result B) (pre post : list A)
  (x : A) (e : exception) :
  Forall (fun a => exists b, f a = Ok b) pre ->
  f x = Raise e ->
  mapR f (pre ++ x :: post) = Raise e.
Proof.
  induction 1 as [|a pre [b Hb] _ IH]; intros Hx; simpl.
  - rewrite Hx. reflexivity.
  - rewrite Hb, (IH Hx). reflexivity.
Qed.

Lemma mapR_Raise_inv {A B : Type} (f : A -> result B) (l : list A) (e : exception) :
  mapR f l = Raise e ->
  exists pre x post,
    l = pre ++ x :: post /\
    Forall (fun a => exists b, f a = Ok b) pre /\ f x = Raise e.
Proof.
  induction l as [|a l IH]; simpl; [discriminate|].
  destruct (f a) as [b|e'] eqn:Ea.
  - destruct (mapR f l) as [ys|e'] eqn:El; [discriminate|].
    intros E. injection E as ->.
    destruct (IH eq_refl) as (pre & x & post & -> & Hpre & Hx).
    exists (a :: pre), x, post. repeat split; auto.
    constructor; eauto.
  - intros E. injection E as ->.
    exists [], a, l. repeat split; auto.
Qed.

(* ================================================================= *)
(** ** Texts: [rstrip], [split] and the count of separators *)

Section Texts.

Variable c : ascii.

Lemma rstrip_cons (a : ascii) (s : string) :
  rstrip c (String a s) =
  match rstrip c s with
  | EmptyString => if Ascii.eqb a c then EmptyString else String a EmptyString
  | r => String a r
  end.
Proof. reflexivity. Qed.

(** Stripping [c] removes no other character. *)
Lemma count_char_rstrip (a : ascii) (s : string) :
  a <> c -> count_char a (rstrip c s) = count_char a s.
Proof.
  intros Hac. induction s as [|b s IH]; [reflexivity|].
  rewrite rstrip_cons.
  destruct (rstrip c s) as [|b' r] eqn:Er.
  - simpl in IH. simpl count_char at 2. rewrite <- IH.
    destruct (Ascii.eqb b c) eqn:Ebc.
    + apply Ascii.eqb_eq in Ebc. subst b.
      destruct (Ascii.eqb c a) eqn:Eca; [|reflexivity].
      apply Ascii.eqb_eq in Eca. congruence.
    + simpl. lia.
  - simpl count_char. rewrite <- IH. reflexivity.
Qed.

(** A text is cut into one piece more than it has separators. *)
Lemma length_split (s : string) :
  length (split c s) = S (count_char c s).
Proof.
  induction s as [|a s IH]; [reflexivity|].
  simpl. destruct (Ascii.eqb a c); simpl.
  - rewrite IH. reflexivity.
  - destruct (split c s) as [|p ps] eqn:Es; simpl in *; [discriminate|].
    exact IH.
Qed.

Lemma split_nonempty (s : string) : split c s <> [].
Proof.
  intros E. pose proof (length_split s) as L. rewrite E in L. discriminate.
Qed.

End Texts.

Lemma tab_neq_newline : tab <> newline.
Proof. discriminate. Qed.

(** The pieces of a stripped line, by the number of tabs of the line. *)
Lemma length_split_tab_line (line : string) :
  length (split tab (rstrip newline line)) = S (count_char tab line).
Proof.
  rewrite length_split, count_char_rstrip; [reflexivity|exact tab_neq_newline].
Qed.

Lemma unpack2_Ok_iff {A : Type} (values : list A) :
  (exists p, unpack2 values = Ok p) <-> length values = 2.
Proof.
  destruct values as [|a [|b [|c values]]]; simpl; split;
    try discriminate; try reflexivity; eauto;
    intros [p E]; discriminate.
Qed.

Lemma unpack2_short {A : Type} (values : list A) :
  length values = 1 -> unpack2 values = Raise (ValueError (not_enough_values 2 1)).
Proof.
  destruct values as [|a [|b values]]; simpl; try discriminate; reflexivity.
Qed.

Lemma unpack2_long {A : Type} (values : list A) :
  2 < length values -> unpack2 values = Raise (ValueError (too_many_values 2)).
Proof.
  destruct values as [|a [|b [|c values]]]; simpl; try lia; reflexivity.
Qed.

(* ================================================================= *)
(** ** Parsing the lines of a stream *)

Lemma parse_line_Ok_iff (line : string) :
  (exists s, Dataset.parse_line line = Ok s) <-> one_tab line.
Proof.
  unfold Dataset.parse_line, one_tab.
  pose proof (length_split_tab_line line) as L.
  split.
  - intros [s E].
    destruct (unpack2 (split tab (rstrip newline line))) as [p|e] eqn:Eu;
      [|discriminate].
    assert (Hl : length (split tab (rstrip newline line)) = 2)
      by (apply unpack2_Ok_iff; eauto).
    lia.
  - intros H.
    assert (Hl : length (split tab (rstrip newline line)) = 2) by lia.
    apply unpack2_Ok_iff in Hl. destruct Hl as [[src tgt] ->].
    simpl. eauto.
Qed.

Lemma parse_line_no_tab (line : string) :
  count_char tab line = 0 ->
  Dataset.parse_line line = Raise (ValueError (not_enough_values 2 1)).
Proof.
  intros H. unfold Dataset.parse_line.
  rewrite unpack2_short; [reflexivity|].
  rewrite length_split_tab_line. lia.
Qed.

Lemma parse_line_many_tabs (line : string) :
  2 <= count_char tab line ->
  Dataset.parse_line line = Raise (ValueError (too_many_values 2)).
Proof.
  intros H. unfold Dataset.parse_line.
  rewrite unpack2_long; [reflexivity|].
  rewrite length_split_tab_line. lia.
Qed.

(** Whatever the line, a failure of [parse_line] is one of the two
    [ValueError]s of the unpacking. *)
Lemma parse_line_Raise_inv (line : string) (e : exception) :
  Dataset.parse_line line = Raise e ->
  (count_char tab line = 0 /\ e = ValueError (not_enough_values 2 1)) \/
  (2 <= count_char tab line /\ e = ValueError (too_many_values 2)).
Proof.
  intros E.
  destruct (count_char tab line) as [|[|n]] eqn:Ec.
  - left. rewrite parse_line_no_tab in E by exact Ec.
    injection E as <-. auto.
  - assert (H : exists s, Dataset.parse_line line = Ok s)
      by (apply parse_line_Ok_iff; exact Ec).
    destruct H as [s Hs]. congruence.
  - right. rewrite parse_line_many_tabs in E by lia.
    injection E as <-. split; [lia|reflexivity].
Qed.

(** Every token list of a parsed line has a token: a text without a
    space is one token, the empty text included. *)
Lemma parse_line_tokens (line : string) (s : raw_sample) :
  Dataset.parse_line line = Ok s -> 1 <= length (fst s) /\ 1 <= length (snd s).
Proof.
  unfold Dataset.parse_line.
  destruct (unpack2 (split tab (rstrip newline line))) as [[src tgt]|e];
    simpl; [|discriminate].
  intros E. injection E as <-. simpl.
  rewrite !length_split. lia.
Qed.

(** The accumulating loop computes [mapR parse_line]. *)
Lemma read_stream_mapR (stream : list string) (raw_samples : list raw_sample) :
  Dataset.read_stream raw_samples stream =
  (parsed <- mapR Dataset.parse_line stream ;; Ok (raw_samples ++ parsed))%result.
Proof.
  revert raw_samples. induction stream as [|line stream IH]; intros acc; simpl.
  - rewrite app_nil_r. reflexivity.
  - destruct (Dataset.parse_line line) as [s|e]; [|reflexivity].
    rewrite IH. destruct (mapR Dataset.parse_line stream) as [parsed|e]; simpl.
    + rewrite <- app_assoc. reflexivity.
    + reflexivity.
Qed.

Lemma mapR_parse_line_Ok (stream : list string) :
  Forall one_tab stream ->
  exists raw, mapR Dataset.parse_line stream = Ok raw /\
              length raw = length stream.
Proof.
  induction 1 as [|line stream Hl _ (raw & E & L)]; simpl.
  - exists []. auto.
  - apply parse_line_Ok_iff in Hl. destruct Hl as [s ->].
    rewrite E. exists (s :: raw). simpl. auto.
Qed.

Lemma mapR_parse_line_Ok_inv (stream : list string) (raw : list raw_sample) :
  mapR Dataset.parse_line stream = Ok raw ->
  Forall one_tab stream /\ length raw = length stream.
Proof.
  intros E. apply mapR_Ok_Forall2 in E.
  induction E as [|line s stream raw Hs _ [IH1 IH2]]; simpl.
  - auto.
  - split; [|lia]. constructor; [|exact IH1].
    apply parse_line_Ok_iff. eauto.
Qed.

(* ================================================================= *)
(** ** Maximum lengths *)

Lemma fold_left_max_list_max (l : list nat) (x : nat) :
  fold_left Nat.max l x = Nat.max x (list_max l).
Proof.
  revert x. induction l as [|y l IH]; intros x; simpl.
  - lia.
  - rewrite IH. lia.
Qed.

Lemma py_max_Ok (l : list nat) :
  l <> [] -> py_max l = Ok (list_max l).
Proof.
  destruct l as [|x l]; [congruence|]. intros _. simpl.
  rewrite fold_left_max_list_max. reflexivity.
Qed.

Lemma py_max_Ok_inv (l : list nat) (m : nat) :
  py_max l = Ok m -> l <> [] /\ m = list_max l.
Proof.
  destruct l as [|x l]; simpl; [discriminate|].
  intros E. injection E as <-. rewrite fold_left_max_list_max.
  split; [discriminate|reflexivity].
Qed.

Lemma list_max_bound (l : list nat) (x : nat) :
  In x l -> x <= list_max l.
Proof.
  intros Hx. pose proof (proj1 (list_max_le l (list_max l)) (le_n _)) as F.
  rewrite Forall_forall in F. auto.
Qed.

(* ================================================================= *)
(** ** Dictionaries *)

Section DictFacts.

Context {K V : Type} `{KeyEq K}.

Lemma dict_get_app_Some (d more : dict K V) (k : K) (v : V) :
  dict_get d k = Some v -> dict_get (d ++ more) k = Some v.
Proof.
  induction d as [|[k' v'] d IH]; simpl; [discriminate|].
  destruct (key_eq_dec k k'); auto.
Qed.

Lemma dict_get_app_None (d more : dict K V) (k : K) :
  dict_get d k = None -> dict_get (d ++ more) k = dict_get more k.
Proof.
  induction d as [|[k' v'] d IH]; simpl; [reflexivity|].
  destruct (key_eq_dec k k'); [discriminate|auto].
Qed.

Lemma dict_get_In (d : dict K V) (k : K) (v : V) :
  dict_get d k = Some v -> In (k, v) d.
Proof.
  induction d as [|[k' v'] d IH]; simpl; [discriminate|].
  destruct (key_eq_dec k k') as [->|].
  - intros E. injection E as ->. auto.
  - auto.
Qed.

(** Setting a key that is absent appends the entry. *)
Lemma dict_set_absent (d : dict K V) (k : K) (v : V) :
  dict_get d k = None -> dict_set d k v = d ++ [(k, v)].
Proof.
  induction d as [|[k' v'] d IH]; simpl; [reflexivity|].
  destruct (key_eq_dec k k'); [discriminate|].
  intros E. rewrite IH by exact E. reflexivity.
Qed.

Lemma dict_get_set_same (d : dict K V) (k : K) (v : V) :
  dict_get (dict_set d k v) k = Some v.
Proof.
  induction d as [|[k' v'] d IH]; simpl.
  - destruct (key_eq_dec k k); congruence.
  - destruct (key_eq_dec k k') as [->|Hne]; simpl.
    + destruct (key_eq_dec k' k'); congruence.
    + destruct (key_eq_dec k k'); congruence.
Qed.

Lemma dict_get_set_other (d : dict K V) (k k' : K) (v : V) :
  k' <> k -> dict_get (dict_set d k v) k' = dict_get d k'.
Proof.
  intros Hne. induction d as [|[k0 v0] d IH]; simpl.
  - destruct (key_eq_dec k' k); congruence.
  - destruct (key_eq_dec k k0) as [->|]; simpl.
    + destruct (key_eq_dec k' k0); congruence.
    + destruct (key_eq_dec k' k0); congruence.
Qed.

End DictFacts.

(** The inverse of a dictionary, built entry after entry. *)
Lemma inverse_snoc {K V : Type} `{KeyEq V} (d : dict K V) (k : K) (v : V) :
  inverse (d ++ [(k, v)]) = dict_set (inverse d) v k.
Proof. unfold inverse. rewrite fold_left_app. reflexivity. Qed.

(** When no two keys share a value, the inverse sends the value of every
    entry back to its key. *)
Lemma inverse_get {K V : Type} `{KeyEq V} (d : dict K V) (k : K) (v : V) :
  NoDup (map snd d) -> In (k, v) d -> dict_get (inverse d) v = Some k.
Proof.
  induction d as [|[k' v'] d IH] using rev_ind; intros Hnd Hin; [contradiction|].
  rewrite inverse_snoc.
  rewrite map_app in Hnd. simpl in Hnd.
  apply in_app_or in Hin. destruct Hin as [Hin|[E|[]]].
  - assert (Hv : v <> v').
    { intros ->. apply NoDup_remove_2 in Hnd. rewrite app_nil_r in Hnd.
      apply Hnd. apply (in_map snd) in Hin. exact Hin. }
    rewrite dict_get_set_other by exact Hv.
    apply IH; [|exact Hin].
    apply NoDup_remove_1 in Hnd. rewrite app_nil_r in Hnd. exact Hnd.
  - injection E as -> ->. apply dict_get_set_same.
Qed.

(** A value that no entry has is absent from the inverse. *)
Lemma inverse_get_None {K V : Type} `{KeyEq V} (d : dict K V) (v : V) :
  ~ In v (map snd d) -> dict_get (inverse d) v = None.
Proof.
  induction d as [|[k' v'] d IH] using rev_ind; intros Hv; [reflexivity|].
  rewrite inverse_snoc. rewrite map_app, in_app_iff in Hv. simpl in Hv.
  rewrite dict_get_set_other by (intros ->; tauto).
  apply IH. tauto.
Qed.

(* ================================================================= *)
(** ** The store *)

Lemma length_assign (st : store) (l : loc) (d : vocab) :
  length (assign st l d) = length st.
Proof.
  revert l. induction st as [|d' st IH]; intros [|l]; simpl; auto.
Qed.

Lemma deref_assign_same (st : store) (l : loc) (d : vocab) :
  l < length st -> deref (assign st l d) l = d.
Proof.
  unfold deref. revert l.
  induction st as [|d' st IH]; intros [|l]; simpl; try lia; auto.
  intros Hl. apply IH. lia.
Qed.

Lemma deref_assign_other (st : store) (l l' : loc) (d : vocab) :
  l' <> l -> deref (assign st l d) l' = deref st l'.
Proof.
  unfold deref. revert l l'.
  induction st as [|d' st IH]; intros [|l] [|l']; simpl; try congruence; auto.
Qed.

Lemma assign_app (st rest : store) (d0 d : vocab) :
  assign (st ++ d0 :: rest) (length st) d = st ++ d :: rest.
Proof. induction st as [|d' st IH]; simpl; congruence. Qed.

Lemma deref_app (st rest : store) (d : vocab) :
  deref (st ++ d :: rest) (length st) = d.
Proof. unfold deref. induction st as [|d' st IH]; simpl; auto. Qed.

Lemma grows_refl (st : store) : grows st st.
Proof. split; [reflexivity|]. intros l. exists []. rewrite app_nil_r. reflexivity. Qed.

Lemma grows_trans (st1 st2 st3 : store) :
  grows st1 st2 -> grows st2 st3 -> grows st1 st3.
Proof.
  intros [L12 G12] [L23 G23]. split; [congruence|].
  intros l. destruct (G12 l) as [m1 E1]. destruct (G23 l) as [m2 E2].
  exists (m1 ++ m2). rewrite E2, E1, app_assoc. reflexivity.
Qed.

Lemma grows_get (st st' : store) (l : loc) (k : string) (v : nat) :
  grows st st' ->
  dict_get (deref st l) k = Some v -> dict_get (deref st' l) k = Some v.
Proof.
  intros [_ G] E. destruct (G l) as [more ->].
  apply dict_get_app_Some. exact E.
Qed.

Lemma grows_assign_snoc (st : store) (l : loc) (k : string) (v : nat) :
  grows st (assign st l (deref st l ++ [(k, v)])).
Proof.
  split; [apply length_assign|].
  intros l'. destruct (Nat.eq_dec l' l) as [->|Hne].
  - destruct (Nat.lt_ge_cases l (length st)) as [Hl|Hl].
    + rewrite deref_assign_same by exact Hl. eauto.
    + exists []. rewrite app_nil_r.
      unfold deref. rewrite !nth_overflow; auto.
      rewrite length_assign. exact Hl.
  - rewrite deref_assign_other by exact Hne. exists []. rewrite app_nil_r. reflexivity.
Qed.

Lemma ranked_snoc (d : vocab) (k : string) :
  ranked d -> ranked (d ++ [(k, length d)]).
Proof.
  unfold ranked. intros R.
  rewrite map_app, length_app, R. simpl.
  rewrite Nat.add_1_r, seq_S. reflexivity.
Qed.

Lemma ranked_NoDup (d : vocab) : ranked d -> NoDup (map snd d).
Proof. unfold ranked. intros ->. apply seq_NoDup. Qed.

Lemma ranked_at_grows_lt (st st' : store) (l : loc) :
  grows st st' -> l < length st -> l < length st'.
Proof. intros [L _] Hl. lia. Qed.

(* ================================================================= *)
(** ** Lookups in the vocabularies *)

Lemma bind_Ok {A B : Type} (m : M A) (k : A -> M B) (st st' : store) (a : A) :
  m st = (Ok a, st') -> bind m k st = k a st'.
Proof. unfold bind. intros ->. reflexivity. Qed.

Lemma bind_Raise {A B : Type} (m : M A) (k : A -> M B) (st st' : store)
  (e : exception) :
  m st = (Raise e, st') -> bind m k st = (Raise e, st').
Proof. unfold bind. intros ->. reflexivity. Qed.

(** A token that the vocabulary has is answered with its id and nothing
    changes. *)
Lemma vocab_getitem_seen (l : loc) (k : string) (st : store) (v : nat) :
  dict_get (deref st l) k = Some v -> vocab_getitem l k st = (Ok v, st).
Proof. unfold vocab_getitem. intros ->. reflexivity. Qed.

(** A token that the vocabulary lacks is given the size of the
    vocabulary as id and is appended with it. *)
Lemma vocab_getitem_unseen (l : loc) (k : string) (st : store) :
  dict_get (deref st l) k = None ->
  vocab_getitem l k st =
  (Ok (length (deref st l)),
   assign st l (deref st l ++ [(k, length (deref st l))])).
Proof.
  unfold vocab_getitem. intros E. rewrite E.
  rewrite dict_set_absent by exact E. reflexivity.
Qed.

Lemma ranked_at_assign_snoc (st : store) (l l' : loc) (k : string) :
  ranked_at st l' ->
  ranked_at (assign st l (deref st l ++ [(k, length (deref st l))])) l'.
Proof.
  intros [Hl R]. split; [rewrite length_assign; exact Hl|].
  destruct (Nat.eq_dec l' l) as [->|Hne].
  - rewrite deref_assign_same by exact Hl. apply ranked_snoc. exact R.
  - rewrite deref_assign_other by exact Hne. exact R.
Qed.

Lemma vocab_getitem_spec (l : loc) (k : string) (st : store) :
  exists i st',
    vocab_getitem l k st = (Ok i, st') /\
    grows st st' /\
    (forall l', ranked_at st l' -> ranked_at st' l') /\
    (l < length st -> dict_get (deref st' l) k = Some i).
Proof.
  destruct (dict_get (deref st l) k) as [v|] eqn:E.
  - exists v, st. rewrite (vocab_getitem_seen _ _ _ E).
    split; [reflexivity|]. split; [apply grows_refl|].
    split; [auto|]. intros _. exact E.
  - eexists _, _. rewrite (vocab_getitem_unseen _ _ _ E).
    split; [reflexivity|]. split; [apply grows_assign_snoc|].
    split; [intros l'; apply ranked_at_assign_snoc|].
    intros Hl. rewrite deref_assign_same by exact Hl.
    rewrite dict_get_app_None by exact E. simpl.
    destruct (key_eq_dec k k); congruence.
Qed.

Lemma ids_of_grows (st st' : store) (l : loc) (tokens : list string)
  (ids : list nat) :
  grows st st' ->
  ids_of (deref st l) tokens ids -> ids_of (deref st' l) tokens ids.
Proof.
  intros G F. induction F as [|tok i tokens ids E _ IH]; constructor; auto.
  exact (grows_get _ _ G E).
Qed.

Lemma ids_of_length (d : vocab) (tokens : list string) (ids : list nat) :
  ids_of d tokens ids -> length ids = length tokens.
Proof. intros F. symmetry. exact (Forall2_length F). Qed.

Lemma getitem_each_spec (l : loc) (tokens : list string) (st : store) :
  exists ids st',
    getitem_each l tokens st = (Ok ids, st') /\
    grows st st' /\
    (forall l', ranked_at st l' -> ranked_at st' l') /\
    length ids = length tokens /\
    (l < length st -> ids_of (deref st' l) tokens ids).
Proof.
  revert st. induction tokens as [|c tokens IH]; intros st.
  - exists [], st. simpl. unfold ret.
    split; [reflexivity|]. split; [apply grows_refl|].
    split; [auto|]. split; [reflexivity|]. intros _. constructor.
  - destruct (vocab_getitem_spec l c st) as (i & st1 & E1 & G1 & R1 & D1).
    destruct (IH st1) as (ids & st' & E2 & G2 & R2 & L2 & D2).
    exists (i :: ids), st'. simpl getitem_each.
    rewrite (bind_Ok _ _ _ E1), (bind_Ok _ _ _ E2). unfold ret.
    split; [reflexivity|]. split; [exact (grows_trans G1 G2)|].
    split; [auto|]. split; [simpl; congruence|].
    intros Hl. constructor.
    + exact (grows_get _ _ G2 (D1 Hl)).
    + apply D2. exact (ranked_at_grows_lt G1 Hl).
Qed.

Lemma get_each_spec (l : loc) (tokens : list string) (default : nat)
  (st : store) :
  get_each l tokens default st =
  (Ok (map (fun c => dict_get_or (deref st l) c default) tokens), st).
Proof.
  induction tokens as [|c tokens IH]; [reflexivity|].
  simpl get_each. unfold bind at 1. unfold vocab_get at 1.
  unfold bind. rewrite IH. reflexivity.
Qed.

(* ================================================================= *)
(** ** Encoding the samples *)

Lemma encoded_as_grows (st st' : store) (ls lt : loc) (smax tmax : nat)
  (raw : raw_sample) (e : sample) :
  grows st st' ->
  encoded_as (deref st ls) (deref st lt) smax tmax raw e ->
  encoded_as (deref st' ls) (deref st' lt) smax tmax raw e.
Proof.
  intros G (sids & tids & P & Fs & Ft).
  exists sids, tids. eauto using ids_of_grows.
Qed.

Lemma encoded_as_well_padded (ds dt : vocab) (smax tmax : nat)
  (raw : raw_sample) (e : sample) :
  encoded_as ds dt smax tmax raw e -> well_padded smax tmax raw e.
Proof. intros (sids & tids & P & _). exists sids, tids. exact P. Qed.

(** The lengths of a padded sample, when the two bounds are bounds. *)
Lemma well_padded_lengths (smax tmax : nat) (raw : raw_sample) (e : sample) :
  well_padded smax tmax raw e ->
  length (fst raw) <= smax -> length (snd raw) <= tmax ->
  length (fst e) = smax /\ length (snd e) = tmax + 1.
Proof.
  intros (sids & tids & Ls & Lt & ->) Hs Ht. simpl.
  rewrite !length_app, !repeat_length, Ls, Lt. simpl. lia.
Qed.

Lemma encode_growing_spec (self : Dataset.t) (smax tmax : nat)
  (raw : raw_sample) (st : store) :
  exists e st' sids tids,
    Dataset.encode self false smax tmax raw st = (Ok e, st') /\
    grows st st' /\
    (forall l', ranked_at st l' -> ranked_at st' l') /\
    padded smax tmax raw e sids tids /\
    (Dataset.src_vocab self < length st ->
     ids_of (deref st' (Dataset.src_vocab self)) (fst raw) sids) /\
    (Dataset.tgt_vocab self < length st ->
     ids_of (deref st' (Dataset.tgt_vocab self)) (snd raw) tids).
Proof.
  destruct raw as [src tgt].
  destruct (getitem_each_spec (Dataset.src_vocab self) src st)
    as (sids & st1 & E1 & G1 & R1 & L1 & D1).
  destruct (getitem_each_spec (Dataset.tgt_vocab self) tgt st1)
    as (tids & st' & E2 & G2 & R2 & L2 & D2).
  eexists _, st', sids, tids. unfold Dataset.encode.
  rewrite (bind_Ok _ _ _ E1), (bind_Ok _ _ _ E2). unfold ret.
  split; [reflexivity|]. split; [exact (grows_trans G1 G2)|].
  split; [auto|]. split; [repeat split; assumption|].
  simpl. split.
  - intros Hl. exact (ids_of_grows _ G2 (D1 Hl)).
  - intros Hl. apply D2. exact (ranked_at_grows_lt G1 Hl).
Qed.

Lemma encode_frozen_spec (self : Dataset.t) (smax tmax : nat)
  (raw : raw_sample) (st : store) :
  exists e,
    Dataset.encode self true smax tmax raw st = (Ok e, st) /\
    padded smax tmax raw e
      (map (fun c => dict_get_or (deref st (Dataset.src_vocab self)) c Dataset.UNK)
         (fst raw))
      (map (fun c => dict_get_or (deref st (Dataset.tgt_vocab self)) c Dataset.UNK)
         (snd raw)).
Proof.
  destruct raw as [src tgt]. eexists. unfold Dataset.encode.
  rewrite (bind_Ok _ _ _ (get_each_spec _ _ _ _)).
  rewrite (bind_Ok _ _ _ (get_each_spec _ _ _ _)). unfold ret.
  split; [reflexivity|]. simpl. unfold padded. simpl.
  rewrite !length_map. auto.
Qed.

Lemma encode_loop_growing_spec (self : Dataset.t) (smax tmax : nat)
  (raws : list raw_sample) :
  forall (acc : list sample) (st : store),
  exists es st',
    Dataset.encode_loop self false smax tmax acc raws st = (Ok (acc ++ es), st') /\
    grows st st' /\
    (forall l', ranked_at st l' -> ranked_at st' l') /\
    Forall2 (well_padded smax tmax) raws es /\
    (Dataset.src_vocab self < length st ->
     Dataset.tgt_vocab self < length st ->
     Forall2 (encoded_as (deref st' (Dataset.src_vocab self))
                (deref st' (Dataset.tgt_vocab self)) smax tmax) raws es).
Proof.
  induction raws as [|raw raws IH]; intros acc st.
  - exists [], st. simpl. unfold ret. rewrite app_nil_r.
    split; [reflexivity|]. split; [apply grows_refl|].
    split; [auto|]. split; constructor.
  - destruct (encode_growing_spec self smax tmax raw st)
      as (e & st1 & sids & tids & E1 & G1 & R1 & P1 & Ds & Dt).
    destruct (IH (acc ++ [e]) st1) as (es & st' & E2 & G2 & R2 & W2 & F2).
    exists (e :: es), st'. simpl Dataset.encode_loop.
    rewrite (bind_Ok _ _ _ E1), E2, <- app_assoc.
    split; [reflexivity|]. split; [exact (grows_trans G1 G2)|].
    split; [auto|]. split.
    + constructor; [exists sids, tids; exact P1|exact W2].
    + intros Hs Ht. constructor.
      * apply (encoded_as_grows _ _ G2). exists sids, tids. auto.
      * apply F2; [exact (ranked_at_grows_lt G1 Hs)|exact (ranked_at_grows_lt G1 Ht)].
Qed.

Lemma encode_loop_frozen_spec (self : Dataset.t) (smax tmax : nat)
  (raws : list raw_sample) :
  forall (acc : list sample) (st : store),
  exists es,
    Dataset.encode_loop self true smax tmax acc raws st = (Ok (acc ++ es), st) /\
    Forall2 (well_padded smax tmax) raws es.
Proof.
  induction raws as [|raw raws IH]; intros acc st.
  - exists []. simpl. unfold ret. rewrite app_nil_r. split; constructor.
  - destruct (encode_frozen_spec self smax tmax raw st) as (e & E1 & P1).
    destruct (IH (acc ++ [e]) st) as (es & E2 & W2).
    exists (e :: es). simpl Dataset.encode_loop.
    rewrite (bind_Ok _ _ _ E1), E2, <- app_assoc.
    split; [reflexivity|]. constructor; [eexists _, _; exact P1|exact W2].
Qed.

(* ================================================================= *)
(** ** [load_data_from_stream] *)

(** A stream whose lines are parsed into [raw] is loaded by the
    encoding loop run with the two maxima of [raw]. *)
Lemma load_parsed (self : Dataset.t) (stream : list string) (frozen : bool)
  (st : store) (raw : list raw_sample) :
  mapR Dataset.parse_line stream = Ok raw ->
  raw <> [] ->
  Dataset.load_data_from_stream self stream frozen st =
  (samples <- Dataset.encode_loop self frozen
                (list_max (map (fun s => length (fst s)) raw))
                (list_max (map (fun s => length (snd s)) raw)) [] raw ;;
   ret {| Dataset.cfg := Dataset.cfg self;
          Dataset.src_vocab := Dataset.src_vocab self;
          Dataset.tgt_vocab := Dataset.tgt_vocab self;
          Dataset.samples := samples;
          Dataset.raw_samples := raw;
          Dataset.src_maxlen := list_max (map (fun s => length (fst s)) raw);
          Dataset.tgt_maxlen := list_max (map (fun s => length (snd s)) raw) + 1;
          Dataset.src_seqlen := map (fun s => length (fst s)) raw;
          Dataset.tgt_seqlen := map (fun s => length (snd s) + 1) raw;
          Dataset.tgt_inv_vocab := Dataset.tgt_inv_vocab self |})%M st.
Proof.
  intros E Hne. unfold Dataset.load_data_from_stream.
  rewrite read_stream_mapR, E. simpl rbind.
  unfold bind at 1, lift at 1.
  rewrite py_max_Ok by (destruct raw; [congruence|discriminate]).
  unfold bind at 1, lift at 1.
  rewrite py_max_Ok by (destruct raw; [congruence|discriminate]).
  reflexivity.
Qed.

(** The load of a stream with a line that cannot be parsed raises the
    exception of the first such line and leaves the store as it was. *)
Lemma load_unparsed (self : Dataset.t) (stream : list string) (frozen : bool)
  (st : store) (e : exception) :
  mapR Dataset.parse_line stream = Raise e ->
  Dataset.load_data_from_stream self stream frozen st = (Raise e, st).
Proof.
  intros E. unfold Dataset.load_data_from_stream.
  rewrite read_stream_mapR, E. reflexivity.
Qed.

(** The load of the stream without lines stops at the first [max]. *)
Lemma load_empty (self : Dataset.t) (frozen : bool) (st : store) :
  Dataset.load_data_from_stream self [] frozen st =
  (Raise (ValueError max_empty_sequence), st).
Proof. reflexivity. Qed.

Lemma list_max_map_bound {A : Type} (f : A -> nat) (l : list A) (x : A) :
  In x l -> f x <= list_max (map f l).
Proof. intros Hx. apply list_max_bound. apply in_map. exact Hx. Qed.

Lemma load_Ok (self : Dataset.t) (stream : list string) (frozen : bool)
  (st : store) :
  stream <> [] -> Forall one_tab stream ->
  exists raw ds st',
    mapR Dataset.parse_line stream = Ok raw /\
    Dataset.load_data_from_stream self stream frozen st = (Ok ds, st') /\
    loaded raw ds /\
    (Dataset.cfg ds = Dataset.cfg self /\
     Dataset.src_vocab ds = Dataset.src_vocab self /\
     Dataset.tgt_vocab ds = Dataset.tgt_vocab self /\
     Dataset.tgt_inv_vocab ds = Dataset.tgt_inv_vocab self) /\
    grows st st' /\
    (forall l', ranked_at st l' -> ranked_at st' l') /\
    (frozen = true -> st' = st) /\
    (frozen = false ->
     Dataset.src_vocab self < length st ->
     Dataset.tgt_vocab self < length st ->
     Forall2 (encoded_as (deref st' (Dataset.src_vocab self))
                (deref st' (Dataset.tgt_vocab self))
                (Dataset.src_maxlen ds) (Dataset.tgt_maxlen ds - 1))
       raw (Dataset.samples ds)).
Proof.
  intros Hne Hall.
  destruct (mapR_parse_line_Ok Hall) as (raw & E & L).
  assert (Hraw : raw <> []).
  { destruct raw; [|discriminate]. destruct stream; [congruence|discriminate]. }
  exists raw. rewrite (@load_parsed self stream frozen st raw E Hraw).
  set (smax := list_max (map (fun s => length (fst s)) raw)).
  set (tmax := list_max (map (fun s => length (snd s)) raw)).
  destruct frozen.
  - destruct (encode_loop_frozen_spec self smax tmax raw [] st) as (es & E2 & W).
    eexists _, st. rewrite (bind_Ok _ _ _ E2). unfold ret.
    split; [exact E|]. split; [reflexivity|]. simpl.
    split.
    { unfold loaded. simpl. rewrite Nat.add_sub. repeat split; auto. }
    split; [auto|]. split; [apply grows_refl|]. split; [auto|].
    split; [reflexivity|discriminate].
  - destruct (encode_loop_growing_spec self smax tmax raw [] st)
      as (es & st' & E2 & G & R & W & F).
    eexists _, st'. rewrite (bind_Ok _ _ _ E2). unfold ret.
    split; [exact E|]. split; [reflexivity|]. simpl.
    split.
    { unfold loaded. simpl. rewrite Nat.add_sub. repeat split; auto. }
    split; [auto|]. split; [exact G|]. split; [exact R|].
    split; [discriminate|]. intros _. rewrite Nat.add_sub. exact F.
Qed.

(** A load that returns has read a stream of well-formed lines, and at
    least one. *)
Lemma load_Ok_inv (self : Dataset.t) (stream : list string) (frozen : bool)
  (st st' : store) (ds : Dataset.t) :
  Dataset.load_data_from_stream self stream frozen st = (Ok ds, st') ->
  stream <> [] /\ Forall one_tab stream.
Proof.
  intros E. destruct (mapR Dataset.parse_line stream) as [raw|e] eqn:Ep.
  - apply mapR_parse_line_Ok_inv in Ep. destruct Ep as [Hall L].
    split; [|exact Hall]. intros ->. rewrite load_empty in E. discriminate.
  - rewrite (@load_unparsed self stream frozen st e Ep) in E. discriminate.
Qed.

Lemma encode_loop_frozen_encoded (self : Dataset.t) (smax tmax : nat)
  (raws : list raw_sample) :
  forall (acc : list sample) (st : store),
  exists es,
    Dataset.encode_loop self true smax tmax acc raws st = (Ok (acc ++ es), st) /\
    Forall2 (encoded_frozen (deref st (Dataset.src_vocab self))
               (deref st (Dataset.tgt_vocab self)) smax tmax) raws es.
Proof.
  induction raws as [|raw raws IH]; intros acc st.
  - exists []. simpl. unfold ret. rewrite app_nil_r. split; constructor.
  - destruct (encode_frozen_spec self smax tmax raw st) as (e & E1 & P1).
    destruct (IH (acc ++ [e]) st) as (es & E2 & W2).
    exists (e :: es). simpl Dataset.encode_loop.
    rewrite (bind_Ok _ _ _ E1), E2, <- app_assoc.
    split; [reflexivity|]. constructor; [exact P1|exact W2].
Qed.

(** A load with the vocabularies frozen leaves the store as it is and
    encodes with the ids that the vocabularies have. *)
Lemma load_frozen_Ok (self : Dataset.t) (stream : list string) (st : store) :
  stream <> [] -> Forall one_tab stream ->
  exists raw ds,
    mapR Dataset.parse_line stream = Ok raw /\
    Dataset.load_data_from_stream self stream true st = (Ok ds, st) /\
    Dataset.raw_samples ds = raw /\
    Dataset.tgt_vocab ds = Dataset.tgt_vocab self /\
    Dataset.src_vocab ds = Dataset.src_vocab self /\
    Forall2 (encoded_frozen (deref st (Dataset.src_vocab self))
               (deref st (Dataset.tgt_vocab self))
               (Dataset.src_maxlen ds) (Dataset.tgt_maxlen ds - 1))
      raw (Dataset.samples ds).
Proof.
  intros Hne Hall.
  destruct (mapR_parse_line_Ok Hall) as (raw & E & L).
  assert (Hraw : raw <> []).
  { destruct raw; [|discriminate]. destruct stream; [congruence|discriminate]. }
  exists raw. rewrite (@load_parsed self stream true st raw E Hraw).
  destruct (encode_loop_frozen_encoded self
              (list_max (map (fun s => length (fst s)) raw))
              (list_max (map (fun s => length (snd s)) raw)) raw [] st)
    as (es & E2 & F).
  eexists. rewrite (bind_Ok _ _ _ E2). unfold ret.
  split; [exact E|]. split; [reflexivity|]. simpl.
  rewrite Nat.add_sub. auto.
Qed.

(** The rows of a loaded dataset have the two maximal lengths. *)
Lemma loaded_rows (raw : list raw_sample) (ds : Dataset.t) :
  loaded raw ds ->
  Forall (fun e => length (fst e) = Dataset.src_maxlen ds /\
                   length (snd e) = Dataset.tgt_maxlen ds) (Dataset.samples ds).
Proof.
  intros (_ & _ & Es & Et & _ & _ & W).
  assert (B : Forall (fun r => length (fst r) <= Dataset.src_maxlen ds /\
                               length (snd r) <= Dataset.tgt_maxlen ds - 1) raw).
  { apply Forall_forall. intros r Hr. rewrite Es, Et, Nat.add_sub.
    split; [exact (list_max_map_bound (fun s => length (fst s)) _ _ Hr)
           |exact (list_max_map_bound (fun s => length (snd s)) _ _ Hr)]. }
  assert (Ht : 1 <= Dataset.tgt_maxlen ds) by lia.
  clear Es Et.
  induction W as [|r e raw' es Wr _ IH]; constructor.
  - inversion B as [|? ? [Bs Bt] _]; subst.
    destruct (well_padded_lengths Wr Bs Bt) as [-> ->]. split; lia.
  - apply IH. inversion B; assumption.
Qed.

Lemma loaded_lengths (raw : list raw_sample) (ds : Dataset.t) :
  loaded raw ds ->
  length (Dataset.samples ds) = length raw /\
  length (Dataset.src_seqlen ds) = length raw /\
  length (Dataset.tgt_seqlen ds) = length raw /\
  0 < length raw.
Proof.
  intros (Hne & _ & _ & _ & -> & -> & W).
  rewrite !length_map, <- (Forall2_length W).
  repeat split; auto. destruct raw; [congruence|simpl; lia].
Qed.

(* ================================================================= *)
(** ** [Dataset.__init__] *)

Lemma vocab_setitem_app (st rest : store) (d : vocab) (k : string) (v : nat) :
  vocab_setitem (length st) k v (st ++ d :: rest) =
  (Ok tt, st ++ dict_set d k v :: rest).
Proof. unfold vocab_setitem. rewrite deref_app, assign_app. reflexivity. Qed.

Lemma vocab_setitem_app_next (st rest : store) (d1 d2 : vocab) (k : string)
  (v : nat) :
  vocab_setitem (S (length st)) k v (st ++ d1 :: d2 :: rest) =
  (Ok tt, st ++ d1 :: dict_set d2 k v :: rest).
Proof.
  replace (S (length st)) with (length (st ++ [d1]))
    by (rewrite length_app; simpl; lia).
  replace (st ++ d1 :: d2 :: rest) with ((st ++ [d1]) ++ d2 :: rest)
    by (rewrite <- app_assoc; reflexivity).
  rewrite vocab_setitem_app, <- app_assoc. reflexivity.
Qed.

(** The constants, written through one object. *)
Lemma set_constants_shared (items : dict string nat) :
  forall (st : store) (d : vocab),
    Dataset.set_constants (length st) (length st) items (st ++ [d]) =
    (Ok tt,
     st ++ [fold_left
              (fun d item => dict_set (dict_set d (fst item) (snd item))
                               (fst item) (snd item)) items d]).
Proof.
  induction items as [|[k v] items IH]; intros st d; [reflexivity|].
  simpl Dataset.set_constants.
  rewrite (bind_Ok _ _ _ (vocab_setitem_app st [] d k v)).
  rewrite (bind_Ok _ _ _ (vocab_setitem_app st [] _ k v)).
  rewrite IH. reflexivity.
Qed.

(** The constants, written through two objects. *)
Lemma set_constants_separate (items : dict string nat) :
  forall (st : store) (d1 d2 : vocab),
    Dataset.set_constants (length st) (S (length st)) items (st ++ [d1; d2]) =
    (Ok tt,
     st ++ [fold_left (fun d item => dict_set d (fst item) (snd item)) items d1;
            fold_left (fun d item => dict_set d (fst item) (snd item)) items d2]).
Proof.
  induction items as [|[k v] items IH]; intros st d1 d2; [reflexivity|].
  simpl Dataset.set_constants.
  rewrite (bind_Ok _ _ _ (vocab_setitem_app st [d2] d1 k v)).
  rewrite (bind_Ok _ _ _ (vocab_setitem_app_next st [] _ d2 k v)).
  rewrite IH. reflexivity.
Qed.

(** [__init__] allocates the vocabularies, writes the constants, loads
    the stream in growing mode and updates the configuration. *)
Lemma init_unfold (cfg : Config) (stream : list string) (st : store) :
  Dataset.__init__ cfg stream st =
  (self <- Dataset.load_data_from_stream (init_self cfg st) stream false ;;
   Dataset.update_config self)%M (init_store cfg st).
Proof.
  unfold Dataset.__init__, init_self, init_store.
  unfold bind at 1. unfold new_defaultdict at 1.
  destruct (share_vocab cfg) eqn:Es.
  - unfold bind at 1. unfold ret at 1.
    rewrite (bind_Ok _ _ _ (set_constants_shared Dataset.CONSTANTS st [])).
    reflexivity.
  - unfold bind at 1. unfold new_defaultdict at 1.
    rewrite <- app_assoc, length_app. simpl length. simpl app.
    rewrite Nat.add_1_r.
    rewrite (bind_Ok _ _ _ (set_constants_separate Dataset.CONSTANTS st [] [])).
    reflexivity.
Qed.

Lemma ranked_CONSTANTS : ranked Dataset.CONSTANTS.
Proof. reflexivity. Qed.

Lemma init_store_length (cfg : Config) (st : store) :
  Dataset.src_vocab (init_self cfg st) < length (init_store cfg st) /\
  Dataset.tgt_vocab (init_self cfg st) < length (init_store cfg st).
Proof.
  unfold init_self, init_store. simpl.
  destruct (share_vocab cfg); rewrite length_app; simpl; lia.
Qed.

Lemma init_store_deref (cfg : Config) (st : store) :
  deref (init_store cfg st) (Dataset.src_vocab (init_self cfg st)) =
    Dataset.CONSTANTS /\
  deref (init_store cfg st) (Dataset.tgt_vocab (init_self cfg st)) =
    Dataset.CONSTANTS.
Proof.
  unfold init_self, init_store. simpl.
  destruct (share_vocab cfg).
  - rewrite deref_app. auto.
  - rewrite deref_app. split; [reflexivity|].
    replace (S (length st)) with (length (st ++ [Dataset.CONSTANTS]))
      by (rewrite length_app; simpl; lia).
    replace (st ++ [Dataset.CONSTANTS; Dataset.CONSTANTS])
      with ((st ++ [Dataset.CONSTANTS]) ++ [Dataset.CONSTANTS])
      by (rewrite <- app_assoc; reflexivity).
    apply deref_app.
Qed.

Lemma init_store_ranked (cfg : Config) (st : store) :
  ranked_at (init_store cfg st) (Dataset.src_vocab (init_self cfg st)) /\
  ranked_at (init_store cfg st) (Dataset.tgt_vocab (init_self cfg st)).
Proof.
  destruct (init_store_length cfg st) as [Ls Lt].
  destruct (init_store_deref cfg st) as [Ds Dt].
  unfold ranked_at. rewrite Ds, Dt. auto using ranked_CONSTANTS.
Qed.

Lemma update_config_spec (self : Dataset.t) (st : store) :
  exists ds,
    Dataset.update_config self st = (Ok ds, st) /\
    share_vocab (Dataset.cfg ds) = share_vocab (Dataset.cfg self) /\
    input_size (Dataset.cfg ds) =
      Some (length (deref st (Dataset.src_vocab self))) /\
    output_size (Dataset.cfg ds) =
      Some (length (deref st (Dataset.tgt_vocab self))) /\
    Dataset.src_vocab ds = Dataset.src_vocab self /\
    Dataset.tgt_vocab ds = Dataset.tgt_vocab self /\
    Dataset.samples ds = Dataset.samples self /\
    Dataset.raw_samples ds = Dataset.raw_samples self /\
    Dataset.src_maxlen ds = Dataset.src_maxlen self /\
    Dataset.tgt_maxlen ds = Dataset.tgt_maxlen self /\
    Dataset.src_seqlen ds = Dataset.src_seqlen self /\
    Dataset.tgt_seqlen ds = Dataset.tgt_seqlen self /\
    Dataset.tgt_inv_vocab ds = Dataset.tgt_inv_vocab self.
Proof. eexists. split; [reflexivity|]. simpl. repeat split. Qed.

Lemma loaded_update (raw : list raw_sample) (self ds : Dataset.t) :
  loaded raw self ->
  Dataset.samples ds = Dataset.samples self ->
  Dataset.raw_samples ds = Dataset.raw_samples self ->
  Dataset.src_maxlen ds = Dataset.src_maxlen self ->
  Dataset.tgt_maxlen ds = Dataset.tgt_maxlen self ->
  Dataset.src_seqlen ds = Dataset.src_seqlen self ->
  Dataset.tgt_seqlen ds = Dataset.tgt_seqlen self ->
  loaded raw ds.
Proof. unfold loaded. intros H -> -> -> -> -> ->. exact H. Qed.

(** The constructor returns on every stream of well-formed lines that
    has a line. *)
Lemma init_Ok (cfg : Config) (stream : list string) (st : store) :
  stream <> [] -> Forall one_tab stream ->
  exists raw ds st',
    mapR Dataset.parse_line stream = Ok raw /\
    Dataset.__init__ cfg stream st = (Ok ds, st') /\
    built cfg st raw ds st'.
Proof.
  intros Hne Hall.
  destruct (load_Ok (init_self cfg st) false (init_store cfg st) Hne Hall)
    as (raw & self & st' & Ep & El & Hl & (Hc & Hs & Ht & Hi) & G & R & _ & F).
  destruct (init_store_length cfg st) as [Ls Lt].
  destruct (init_store_ranked cfg st) as [Rs Rt].
  destruct (update_config_spec self st')
    as (ds & Eu & U1 & _ & _ & U4 & U5 & U6 & U7 & U8 & U9 & U10 & U11 & U12).
  exists raw, ds, st'. split; [exact Ep|].
  rewrite init_unfold, (bind_Ok _ _ _ El). split; [exact Eu|].
  unfold built. rewrite U4, U5, U6, U8, U9, U12, U1, Hs, Ht, Hi, Hc.
  split; [exact (@loaded_update raw self ds Hl U6 U7 U8 U9 U10 U11)|].
  split; [reflexivity|]. split; [reflexivity|]. split; [reflexivity|].
  split; [reflexivity|]. split; [exact G|].
  split; [exact (R _ Rs)|]. split; [exact (R _ Rt)|].
  exact (F eq_refl Ls Lt).
Qed.

(** The constructor returns on no other stream. *)
Lemma init_Ok_inv (cfg : Config) (stream : list string) (st st' : store)
  (ds : Dataset.t) :
  Dataset.__init__ cfg stream st = (Ok ds, st') ->
  stream <> [] /\ Forall one_tab stream.
Proof.
  rewrite init_unfold. unfold bind at 1.
  destruct (Dataset.load_data_from_stream (init_self cfg st) stream false
              (init_store cfg st)) as [[self|e] st1] eqn:El; [|discriminate].
  intros _. exact (load_Ok_inv _ _ _ _ El).
Qed.

Lemma init_built (cfg : Config) (stream : list string) (st st' : store)
  (ds : Dataset.t) :
  Dataset.__init__ cfg stream st = (Ok ds, st') ->
  exists raw,
    mapR Dataset.parse_line stream = Ok raw /\ built cfg st raw ds st'.
Proof.
  intros E. destruct (init_Ok_inv _ _ _ E) as [Hne Hall].
  destruct (init_Ok cfg st Hne Hall) as (raw & ds2 & st2 & Ep & E2 & B).
  rewrite E in E2. injection E2 as <- <-. eauto.
Qed.

(** A stream that is empty or has an ill-formed line stops the
    constructor; the store then holds the new vocabularies with the
    constants and nothing else. *)
Lemma init_unparsed (cfg : Config) (stream : list string) (st : store)
  (e : exception) :
  mapR Dataset.parse_line stream = Raise e ->
  Dataset.__init__ cfg stream st = (Raise e, init_store cfg st).
Proof.
  intros E. rewrite init_unfold.
  apply bind_Raise. apply load_unparsed. exact E.
Qed.

Lemma init_empty (cfg : Config) (st : store) :
  Dataset.__init__ cfg [] st =
  (Raise (ValueError max_empty_sequence), init_store cfg st).
Proof. rewrite init_unfold. reflexivity. Qed.

(* ================================================================= *)
(** ** Sorting by a key *)

Section Sorting.

Context {A : Type} (key : A -> Z).

(** The order of the keys. *)
Let key_le (a b : A) : Prop := (key a <= key b)%Z.

Lemma insert_by_perm (x : A) (l : list A) :
  Permutation (insert_by key x l) (x :: l).
Proof.
  induction l as [|y l IH]; simpl; [reflexivity|].
  destruct (key x <=? key y)%Z; [reflexivity|].
  rewrite IH. apply perm_swap.
Qed.

Lemma sorted_perm (l : list A) : Permutation (sorted key l) l.
Proof.
  induction l as [|x l IH]; simpl; [reflexivity|].
  rewrite insert_by_perm, IH. reflexivity.
Qed.

Lemma sorted_length (l : list A) : length (sorted key l) = length l.
Proof. apply Permutation_length, sorted_perm. Qed.

Lemma sorted_In (l : list A) (x : A) : In x (sorted key l) <-> In x l.
Proof.
  split; apply Permutation_in; [|symmetry]; apply sorted_perm.
Qed.

Lemma insert_by_sorted (x : A) (l : list A) :
  StronglySorted key_le l -> StronglySorted key_le (insert_by key x l).
Proof.
  induction 1 as [|y l S IH F]; simpl.
  - constructor; constructor.
  - destruct (key x <=? key y)%Z eqn:E.
    + apply Z.leb_le in E. constructor.
      * constructor; assumption.
      * constructor; [exact E|].
        eapply Forall_impl; [|exact F]. unfold key_le. intros; lia.
    + apply Z.leb_gt in E. constructor; [exact IH|].
      apply Forall_forall. intros z Hz.
      apply (Permutation_in _ (insert_by_perm x l)) in Hz.
      destruct Hz as [<-|Hz].
      * unfold key_le. lia.
      * rewrite Forall_forall in F. auto.
Qed.

(** The result of [sorted] is in the order of the keys. *)
Lemma sorted_sorted (l : list A) : StronglySorted key_le (sorted key l).
Proof.
  induction l as [|x l IH]; simpl; [constructor|].
  apply insert_by_sorted. exact IH.
Qed.

(** [sorted] is stable: the elements that have the key [k] come out in
    the order in which they went in. *)
Lemma insert_by_stable (k : Z) (x : A) (l : list A) :
  filter (fun y => (key y =? k)%Z) (insert_by key x l) =
  filter (fun y => (key y =? k)%Z) (x :: l).
Proof.
  induction l as [|y l IH]; [reflexivity|].
  simpl insert_by. destruct (key x <=? key y)%Z eqn:E; [reflexivity|].
  apply Z.leb_gt in E. simpl in *. rewrite IH.
  destruct (key x =? k)%Z eqn:Ex; [|reflexivity].
  apply Z.eqb_eq in Ex.
  destruct (key y =? k)%Z eqn:Ey; [|reflexivity].
  apply Z.eqb_eq in Ey. lia.
Qed.

Lemma sorted_stable (k : Z) (l : list A) :
  filter (fun y => (key y =? k)%Z) (sorted key l) =
  filter (fun y => (key y =? k)%Z) l.
Proof.
  induction l as [|x l IH]; [reflexivity|].
  simpl sorted. rewrite insert_by_stable. simpl. rewrite IH. reflexivity.
Qed.

End Sorting.

(** Sorting a list decorated with its keys sorts the list. *)
Lemma sorted_decorated_eq {A : Type} (key : A -> Z) (l : list A) :
  sorted fst (map (fun y => (key y, y)) l) =
  map (fun y => (key y, y)) (sorted key l).
Proof.
  induction l as [|x l IH]; [reflexivity|].
  simpl. rewrite IH. clear IH.
  induction (sorted key l) as [|y s IHs]; [reflexivity|].
  simpl. destruct (key x <=? key y)%Z; simpl; [reflexivity|].
  rewrite IHs. reflexivity.
Qed.

Lemma sorted_with_total {A : Type} (key : A -> result Z) (k : A -> Z)
  (l : list A) :
  Forall (fun x => key x = Ok (k x)) l ->
  sorted_with key l = Ok (sorted k l).
Proof.
  intros F. unfold sorted_with. rewrite (mapR_total _ k F). simpl.
  replace (combine (map k l) l) with (map (fun y => (k y, y)) l).
  - rewrite sorted_decorated_eq, map_map. simpl. rewrite map_id. reflexivity.
  - clear F. induction l as [|x l IH]; simpl; congruence.
Qed.

(** Descending lengths: the keys are the negated lengths. *)
Lemma sorted_neg_descending {A : Type} (len : A -> nat) (l : list A) :
  StronglySorted ge (map len (sorted (fun x => (- Z.of_nat (len x))%Z) l)).
Proof.
  pose proof (sorted_sorted (fun x => (- Z.of_nat (len x))%Z) l) as S.
  induction S as [|y s S IH F]; simpl; constructor.
  - exact IH.
  - apply Forall_forall. intros n Hn. apply in_map_iff in Hn.
    destruct Hn as (z & <- & Hz). rewrite Forall_forall in F.
    specialize (F z Hz). simpl in F. lia.
Qed.

(* ================================================================= *)
(** ** Indexing and slicing *)

Lemma skipn_nth_error {A : Type} (l : list A) (i : nat) (x : A) :
  nth_error l i = Some x -> skipn i l = x :: skipn (S i) l.
Proof.
  revert i. induction l as [|y l IH]; intros [|i]; simpl; try discriminate.
  - intros E. injection E as ->. reflexivity.
  - intros E. rewrite (IH i E). reflexivity.
Qed.

Lemma slice_firstn_skipn {A : Type} (l : list A) (start stop : nat) :
  slice l start stop = firstn (stop - start) (skipn start l).
Proof.
  unfold slice. destruct (Nat.le_gt_cases start stop) as [H|H].
  - rewrite firstn_skipn_comm. f_equal. f_equal. lia.
  - replace (stop - start) with 0 by lia. simpl.
    apply skipn_all2. rewrite length_firstn. lia.
Qed.

(** Reading the items of a range one by one gives the slice. *)
Lemma mapR_getitem_seq {A : Type} (l : list A) (n start : nat) :
  start + n <= length l ->
  mapR (getitem l) (seq start n) = Ok (firstn n (skipn start l)).
Proof.
  revert start. induction n as [|n IH]; intros start Hl; [reflexivity|].
  simpl seq. simpl mapR. unfold getitem at 1.
  destruct (nth_error l start) as [x|] eqn:E.
  - rewrite IH by lia. rewrite (skipn_nth_error _ _ E). reflexivity.
  - apply nth_error_None in E. lia.
Qed.

Lemma mapR_getitem_range {A : Type} (l : list A) (start stop : nat) :
  stop <= length l ->
  mapR (getitem l) (range start stop) = Ok (slice l start stop).
Proof.
  intros Hl. unfold range. rewrite slice_firstn_skipn.
  destruct (Nat.le_gt_cases start stop) as [H|H].
  - apply mapR_getitem_seq. lia.
  - replace (stop - start) with 0 by lia. reflexivity.
Qed.

Lemma slice_map {A B : Type} (f : A -> B) (l : list A) (start stop : nat) :
  slice (map f l) start stop = map f (slice l start stop).
Proof. unfold slice. rewrite firstn_map, skipn_map. reflexivity. Qed.

Lemma skipn_combine {A B : Type} (n : nat) (l : list A) (l' : list B) :
  skipn n (combine l l') = combine (skipn n l) (skipn n l').
Proof.
  revert l l'. induction n as [|n IH]; intros [|x l] [|y l']; simpl; auto.
  destruct (skipn n l); reflexivity.
Qed.

Lemma slice_combine {A B : Type} (l : list A) (l' : list B) (start stop : nat) :
  slice (combine l l') start stop = combine (slice l start stop) (slice l' start stop).
Proof. unfold slice. rewrite combine_firstn, skipn_combine. reflexivity. Qed.

(** Consecutive slices of width [w] put end to end give a prefix. *)
Lemma concat_slices {A : Type} (l : list A) (w k : nat) :
  concat (map (fun i => slice l (i * w) (Nat.min ((i + 1) * w) (length l)))
            (seq 0 k)) =
  firstn (k * w) l.
Proof.
  induction k as [|k IH]; [reflexivity|].
  rewrite seq_S, map_app, concat_app, IH. simpl.
  rewrite app_nil_r. unfold slice.
  assert (E : firstn (Nat.min ((k + 1) * w) (length l)) l = firstn ((k + 1) * w) l).
  { destruct (Nat.le_gt_cases ((k + 1) * w) (length l)) as [H|H].
    - rewrite Nat.min_l by exact H. reflexivity.
    - rewrite Nat.min_r by lia. rewrite !firstn_all2 by lia. reflexivity. }
  rewrite E.
  replace (w + k * w) with ((k + 1) * w) by lia.
  rewrite <- (firstn_skipn (k * w) (firstn ((k + 1) * w) l)) at 2.
  rewrite firstn_firstn. replace (Nat.min (k * w) ((k + 1) * w)) with (k * w) by lia.
  reflexivity.
Qed.

Lemma map_nth_seq {A : Type} (l : list A) (d : A) :
  map (fun k => nth k l d) (seq 0 (length l)) = l.
Proof.
  induction l as [|x l IH]; [reflexivity|].
  simpl. f_equal. rewrite <- seq_shift, map_map. exact IH.
Qed.

(* ================================================================= *)
(** ** Tensors *)

Lemma LongTensor2_Ok (rows : list (list nat)) (n : nat) :
  rows <> [] -> Forall (fun r => length r = n) rows ->
  LongTensor2 rows = Ok (Tensor2 (length rows) n rows).
Proof.
  destruct rows as [|r rows]; [congruence|]. intros _ F.
  inversion F as [|? ? Hr Frows]; subst. unfold LongTensor2.
  replace (forallb (fun r' => Nat.eqb (length r') (length r)) rows) with true.
  - reflexivity.
  - symmetry. apply forallb_forall. intros r' Hr'.
    rewrite Forall_forall in Frows. rewrite (Frows r' Hr').
    apply Nat.eqb_refl.
Qed.

(** The columns of the transposed tensor are the rows it was made of. *)
Lemma columns_transposed (rows : list (list nat)) (n : nat) :
  Forall (fun r => length r = n) rows ->
  columns (Tensor2 n (length rows)
             (map (fun j => map (fun r => nth j r 0) rows) (seq 0 n))) = rows.
Proof.
  intros F. unfold columns, column.
  transitivity (map (fun k => nth k rows []) (seq 0 (length rows)));
    [|apply map_nth_seq].
  apply map_ext_in. intros k Hk. apply in_seq in Hk.
  rewrite map_map.
  assert (Hn : length (nth k rows []) = n).
  { rewrite Forall_forall in F. apply F. apply nth_In. lia. }
  transitivity (map (fun j => nth j (nth k rows []) 0) (seq 0 n));
    [|rewrite <- Hn; apply map_nth_seq].
  apply map_ext. intros j.
  pose proof (map_nth (fun r => nth j r 0) rows [] k) as E.
  cbv beta in E.
  replace (nth j [] 0) with 0 in E by (destruct j; reflexivity).
  exact E.
Qed.

(** A tensor of rows and its transposition, in one step. *)
Lemma time_major (rows : list (list nat)) (n : nat) :
  rows <> [] -> Forall (fun r => length r = n) rows ->
  exists t,
    (t0 <- LongTensor2 rows ;; transpose t0)%result = Ok t /\
    columns t = rows.
Proof.
  intros Hne F. rewrite (LongTensor2_Ok Hne F). simpl.
  eexists. split; [reflexivity|]. apply columns_transposed. exact F.
Qed.

(* ================================================================= *)
(** ** Batches *)

Lemma sorted_map {A B : Type} (key : B -> Z) (f : A -> B) (l : list A) :
  sorted key (map f l) = map f (sorted (fun x => key (f x)) l).
Proof.
  induction l as [|x l IH]; [reflexivity|].
  simpl. rewrite IH. clear IH.
  induction (sorted (fun x => key (f x)) l) as [|y s IHs]; [reflexivity|].
  simpl. destruct (key (f x) <=? key (f y))%Z; simpl; [reflexivity|].
  rewrite IHs. reflexivity.
Qed.

Lemma slice_nth_range {A : Type} (l : list A) (d : A) (start stop : nat) :
  stop <= length l ->
  slice l start stop = map (fun i => nth i l d) (range start stop).
Proof.
  intros Hl. pose proof (mapR_getitem_range l start Hl) as E.
  rewrite (mapR_total _ (fun i => nth i l d)) in E.
  - injection E as E. symmetry. exact E.
  - apply Forall_forall. intros i Hi. unfold range in Hi. apply in_seq in Hi.
    unfold getitem. rewrite (nth_error_nth' l d) by lia. reflexivity.
Qed.

Lemma combine_map_same {A B C : Type} (f : A -> B) (g : A -> C) (l : list A) :
  combine (map f l) (map g l) = map (fun x => (f x, g x)) l.
Proof. induction l as [|x l IH]; simpl; congruence. Qed.

Lemma unzip4_Ok {A B C D : Type} (rows : list (A * B * C * D)) :
  rows <> [] ->
  unzip4 rows =
  Ok (map (fun x => fst (fst (fst x))) rows,
      map (fun x => snd (fst (fst x))) rows,
      map (fun x => snd (fst x)) rows,
      map (fun x => snd x) rows).
Proof. destruct rows; [congruence|reflexivity]. Qed.

Section Batches.

Variable raw : list raw_sample.
Variable ds : Dataset.t.
Hypothesis Hloaded : loaded raw ds.

Lemma sample_at_lengths (i : nat) :
  i < length (Dataset.samples ds) ->
  length (fst (sample_at ds i)) = Dataset.src_maxlen ds /\
  length (snd (sample_at ds i)) = Dataset.tgt_maxlen ds.
Proof.
  intros Hi. pose proof (loaded_rows Hloaded) as F.
  rewrite Forall_forall in F. apply F. apply nth_In. exact Hi.
Qed.

(** The tensors of the samples listed in [idx]. *)
Lemma tensors_of_samples (idx : list nat) :
  idx <> [] ->
  Forall (fun i => i < length (Dataset.samples ds)) idx ->
  exists src tgt,
    (t <- LongTensor2 (map (fun i => fst (sample_at ds i)) idx) ;;
     transpose t)%result = Ok src /\
    (t <- LongTensor2 (map (fun i => snd (sample_at ds i)) idx) ;;
     transpose t)%result = Ok tgt /\
    columns src = map (fun i => fst (sample_at ds i)) idx /\
    columns tgt = map (fun i => snd (sample_at ds i)) idx.
Proof.
  intros Hne F.
  destruct (@time_major (map (fun i => fst (sample_at ds i)) idx)
              (Dataset.src_maxlen ds)) as (src & Es & Cs).
  { destruct idx; [congruence|discriminate]. }
  { apply Forall_map. eapply Forall_impl; [|exact F].
    intros i Hi. apply sample_at_lengths. exact Hi. }
  destruct (@time_major (map (fun i => snd (sample_at ds i)) idx)
              (Dataset.tgt_maxlen ds)) as (tgt & Et & Ct).
  { destruct idx; [congruence|discriminate]. }
  { apply Forall_map. eapply Forall_impl; [|exact F].
    intros i Hi. apply sample_at_lengths. exact Hi. }
  exists src, tgt. auto.
Qed.

End Batches.

(** The batch that the loop of [batched_iter] yields for the chunk [i]:
    the samples of the chunk, by descending source length. *)
Lemma batched_iter_body_spec (raw : list raw_sample) (ds : Dataset.t)
  (batch_size i : nat) :
  loaded raw ds ->
  0 < batch_size ->
  i * batch_size < length (Dataset.samples ds) ->
  exists b,
    Dataset.batched_iter_body ds batch_size i = Ok b /\
    drawn_from ds (by_length ds (chunk ds batch_size i)) b.
Proof.
  intros Hl Hb Hi.
  destruct (loaded_lengths Hl) as (Ln & Ls & Lt & Hpos).
  unfold Dataset.batched_iter_body, chunk.
  set (start := i * batch_size).
  set (stop := Nat.min ((i + 1) * batch_size) (length (Dataset.samples ds))).
  assert (Hstop : stop <= length (Dataset.samples ds)) by (unfold stop; lia).
  assert (Hlt : start < stop) by (unfold start, stop; nia).
  rewrite (@mapR_getitem_range _ (Dataset.src_seqlen ds) start stop) by lia.
  simpl rbind.
  rewrite (@mapR_getitem_range _ (Dataset.tgt_seqlen ds) start stop) by lia.
  simpl rbind.
  assert (Hrows :
    zip4 (map fst (slice (Dataset.samples ds) start stop))
         (map snd (slice (Dataset.samples ds) start stop))
         (slice (Dataset.src_seqlen ds) start stop)
         (slice (Dataset.tgt_seqlen ds) start stop) =
    map (fun j => (fst (sample_at ds j), snd (sample_at ds j),
                   src_len_at ds j, tgt_len_at ds j)) (range start stop)).
  { unfold zip4.
    rewrite (slice_nth_range (Dataset.samples ds) ([], []) start Hstop).
    rewrite (slice_nth_range (Dataset.src_seqlen ds) 0 start) by lia.
    rewrite (slice_nth_range (Dataset.tgt_seqlen ds) 0 start) by lia.
    rewrite !map_map. rewrite !combine_map_same. reflexivity. }
  rewrite Hrows, sorted_map. simpl.
  fold (by_length ds (range start stop)).
  set (idx := by_length ds (range start stop)).
  assert (Hidx : idx <> []).
  { intros E. apply (f_equal (@length nat)) in E. unfold idx, by_length in E.
    rewrite sorted_length in E. unfold range in E. rewrite length_seq in E.
    simpl in E. lia. }
  assert (Fidx : Forall (fun j => j < length (Dataset.samples ds)) idx).
  { apply Forall_forall. intros j Hj. unfold idx, by_length in Hj.
    apply sorted_In in Hj. unfold range in Hj. apply in_seq in Hj. lia. }
  rewrite unzip4_Ok by (destruct idx; [congruence|discriminate]).
  simpl rbind. rewrite !map_map. simpl.
  destruct (tensors_of_samples Hl Hidx Fidx) as (src & tgt & Es & Et & Cs & Ct).
  unfold rbind in Es, Et.
  destruct (LongTensor2 (map (fun j => fst (sample_at ds j)) idx)) as [t1|];
    [|discriminate].
  simpl. rewrite Es.
  destruct (LongTensor2 (map (fun j => snd (sample_at ds j)) idx)) as [t2|];
    [|discriminate].
  simpl. rewrite Et.
  eexists. split; [reflexivity|].
  unfold drawn_from. auto.
Qed.

(** Indices drawn below a positive bound. *)
Lemma random_choice_Ok (rnd : nat -> nat) (n size : nat) :
  0 < n ->
  exists idx,
    random_choice rnd n size = Ok idx /\
    length idx = size /\ Forall (fun i => i < n) idx.
Proof.
  intros Hn. unfold random_choice.
  destruct n as [|n]; [lia|]. simpl andb.
  eexists. split; [reflexivity|]. split.
  - rewrite length_map, length_seq. reflexivity.
  - apply Forall_map. apply Forall_forall. intros k _.
    apply Nat.mod_upper_bound. discriminate.
Qed.

(** The batch of [get_random_batch]: the samples drawn, by descending
    source length. *)
Lemma get_random_batch_spec (raw : list raw_sample) (ds : Dataset.t)
  (batch_size : nat) (rnd : nat -> nat) :
  loaded raw ds ->
  0 < batch_size ->
  exists idx b,
    random_choice rnd (length (Dataset.samples ds)) batch_size = Ok idx /\
    Dataset.get_random_batch ds batch_size rnd = Ok b /\
    drawn_from ds (by_length ds idx) b.
Proof.
  intros Hl Hb.
  destruct (loaded_lengths Hl) as (Ln & Ls & Lt & Hpos).
  destruct (@random_choice_Ok rnd (length (Dataset.samples ds)) batch_size)
    as (idx0 & E0 & L0 & F0); [lia|].
  exists idx0. unfold Dataset.get_random_batch. rewrite E0. simpl rbind.
  rewrite (@sorted_with_total _ _ (fun i => (- Z.of_nat (src_len_at ds i))%Z)).
  2:{ eapply Forall_impl; [|exact F0]. intros i Hi. cbv beta in Hi |- *.
      unfold getitem, src_len_at.
      rewrite (nth_error_nth' _ 0) by lia. reflexivity. }
  simpl rbind. fold (by_length ds idx0).
  set (idx := by_length ds idx0).
  assert (Hidx : idx <> []).
  { intros E. apply (f_equal (@length nat)) in E. unfold idx, by_length in E.
    rewrite sorted_length in E. simpl in E. lia. }
  assert (Fidx : Forall (fun j => j < length (Dataset.samples ds)) idx).
  { apply Forall_forall. intros j Hj. unfold idx, by_length in Hj.
    apply sorted_In in Hj. rewrite Forall_forall in F0. auto. }
  rewrite (mapR_total _ (fun i => fst (sample_at ds i))).
  2:{ eapply Forall_impl; [|exact Fidx]. intros i Hi. cbv beta in Hi |- *.
      unfold getitem, sample_at.
      rewrite (nth_error_nth' (Dataset.samples ds) ([], [])) by lia.
      reflexivity. }
  simpl rbind.
  rewrite (mapR_total _ (fun i => snd (sample_at ds i))).
  2:{ eapply Forall_impl; [|exact Fidx]. intros i Hi. cbv beta in Hi |- *.
      unfold getitem, sample_at.
      rewrite (nth_error_nth' (Dataset.samples ds) ([], [])) by lia.
      reflexivity. }
  simpl rbind.
  destruct (tensors_of_samples Hl Hidx Fidx) as (src & tgt & Es & Et & Cs & Ct).
  unfold rbind in Es, Et.
  destruct (LongTensor2 (map (fun j => fst (sample_at ds j)) idx)) as [t1|];
    [|discriminate].
  simpl rbind. rewrite Es.
  destruct (LongTensor2 (map (fun j => snd (sample_at ds j)) idx)) as [t2|];
    [|discriminate].
  simpl rbind. rewrite Et.
  rewrite (mapR_total _ (src_len_at ds)).
  2:{ eapply Forall_impl; [|exact Fidx]. intros i Hi. cbv beta in Hi |- *.
      unfold getitem, src_len_at.
      rewrite (nth_error_nth' _ 0) by lia. reflexivity. }
  simpl rbind.
  rewrite (mapR_total _ (tgt_len_at ds)).
  2:{ eapply Forall_impl; [|exact Fidx]. intros i Hi. cbv beta in Hi |- *.
      unfold getitem, tgt_len_at.
      rewrite (nth_error_nth' _ 0) by lia. reflexivity. }
  simpl rbind.
  eexists. split; [reflexivity|]. split; [reflexivity|].
  unfold drawn_from. auto.
Qed.

Lemma mapR_exists {A B : Type} (f : A -> result B) (P : A -> B -> Prop)
  (l : list A) :
  Forall (fun x => exists y, f x = Ok y /\ P x y) l ->
  exists ys, mapR f l = Ok ys /\ Forall2 P l ys.
Proof.
  induction 1 as [|x l (y & Ey & Py) _ (ys & Es & F)]; simpl.
  - exists []. split; [reflexivity|constructor].
  - exists (y :: ys). rewrite Ey, Es. split; [reflexivity|].
    constructor; assumption.
Qed.

Lemma Forall2_concat_perm {A B C : Type} (f : A -> list C) (g : B -> list C)
  (l : list A) (l' : list B) :
  Forall2 (fun x y => Permutation (f x) (g y)) l l' ->
  Permutation (concat (map f l)) (concat (map g l')).
Proof.
  induction 1 as [|x y l l' P _ IH]; simpl; [reflexivity|].
  apply Permutation_app; assumption.
Qed.

(** The count of batches computed by [batched_iter] is the quotient
    rounded up, the least count whose batches hold all the samples. *)
Lemma batch_count_ceil_div (n m : nat) :
  0 < m ->
  (if Nat.ltb (n / m * m) n then n / m + 1 else n / m) = ceil_div n m.
Proof.
  intros Hm. unfold ceil_div.
  pose proof (Nat.div_mod_eq n m) as D.
  pose proof (Nat.mod_upper_bound n m ltac:(lia)) as U.
  destruct (Nat.ltb (n / m * m) n) eqn:E.
  - apply Nat.ltb_lt in E.
    apply (Nat.div_unique _ _ _ (n mod m - 1)); nia.
  - apply Nat.ltb_ge in E.
    apply (Nat.div_unique _ _ _ (m - 1)); nia.
Qed.

Lemma ceil_div_bounds (n m : nat) :
  0 < m -> n <= ceil_div n m * m /\ ceil_div n m * m < n + m.
Proof.
  intros Hm. unfold ceil_div.
  pose proof (Nat.div_mod_eq (n + m - 1) m) as D.
  pose proof (Nat.mod_upper_bound (n + m - 1) m ltac:(lia)) as U.
  nia.
Qed.

(** The samples that a batch holds are those of its indices. *)
Lemma drawn_from_samples (ds : Dataset.t) (idx : list nat) (b : batch) :
  drawn_from ds idx b -> batch_samples b = map (sample_at ds) idx.
Proof.
  destruct b as [[[src tgt] src_len] tgt_len]. simpl.
  intros (_ & -> & -> & _). rewrite combine_map_same.
  apply map_ext. intros i. destruct (sample_at ds i); reflexivity.
Qed.

(** The source lengths of a batch are in descending order. *)
Lemma drawn_from_descending (ds : Dataset.t) (idx : list nat) (b : batch) :
  drawn_from ds (by_length ds idx) b -> StronglySorted ge (batch_src_len b).
Proof.
  destruct b as [[[src tgt] src_len] tgt_len]. simpl.
  intros (_ & _ & _ & -> & _). apply sorted_neg_descending.
Qed.

Lemma batched_iter_spec (raw : list raw_sample) (ds : Dataset.t)
  (batch_size : nat) :
  loaded raw ds ->
  0 < batch_size ->
  exists batches,
    Dataset.batched_iter ds batch_size = Ok batches /\
    Forall2 (fun i b => drawn_from ds (by_length ds (chunk ds batch_size i)) b)
      (seq 0 (ceil_div (length (Dataset.samples ds)) batch_size)) batches.
Proof.
  intros Hl Hb. unfold Dataset.batched_iter.
  destruct (Nat.eqb batch_size 0) eqn:E0; [apply Nat.eqb_eq in E0; lia|].
  rewrite (batch_count_ceil_div _ Hb). unfold range. rewrite Nat.sub_0_r.
  apply mapR_exists. apply Forall_forall. intros i Hi. apply in_seq in Hi.
  apply (@batched_iter_body_spec raw ds batch_size i Hl Hb).
  pose proof (ceil_div_bounds (length (Dataset.samples ds)) Hb). nia.
Qed.

(** The batches of [batched_iter] hold every sample once. *)
Lemma batched_iter_cover (raw : list raw_sample) (ds : Dataset.t)
  (batch_size : nat) (batches : list batch) :
  loaded raw ds ->
  0 < batch_size ->
  Forall2 (fun i b => drawn_from ds (by_length ds (chunk ds batch_size i)) b)
    (seq 0 (ceil_div (length (Dataset.samples ds)) batch_size)) batches ->
  Permutation (concat (map batch_samples batches)) (Dataset.samples ds).
Proof.
  intros Hl Hb F.
  set (n := length (Dataset.samples ds)) in *.
  transitivity
    (concat (map (fun i => slice (Dataset.samples ds) (i * batch_size)
                              (Nat.min ((i + 1) * batch_size) n))
               (seq 0 (ceil_div n batch_size)))).
  - symmetry. apply Forall2_concat_perm.
    eapply Forall2_impl; [|exact F]. intros i b D. cbv beta in D |- *.
    rewrite (@drawn_from_samples ds _ b D).
    rewrite (slice_nth_range (Dataset.samples ds) ([], []))
      by (unfold n; lia).
    fold (chunk ds batch_size i).
    apply Permutation_map. symmetry. apply sorted_perm.
  - unfold n. rewrite concat_slices.
    rewrite firstn_all2; [reflexivity|].
    pose proof (ceil_div_bounds (length (Dataset.samples ds)) Hb). lia.
Qed.

(* ================================================================= *)
(** ** Reverse lookup *)

Lemma Forall2_nth_error {A B : Type} (R : A -> B -> Prop) (l : list A)
  (l' : list B) (j : nat) (a : A) (b : B) :
  Forall2 R l l' ->
  nth_error l j = Some a -> nth_error l' j = Some b -> R a b.
Proof.
  intros F. revert j. induction F as [|x y l l' Rxy _ IH]; intros [|j]; simpl;
    try discriminate.
  - intros Ea Eb. injection Ea as <-. injection Eb as <-. exact Rxy.
  - apply IH.
Qed.

Lemma tgt_reverse_lookup_spec (self : Dataset.t) (idx : nat) (st : store) :
  Dataset.tgt_reverse_lookup self idx st =
  (Ok (with_tgt_inv_vocab self (Some (inverse_in_use self st)),
       dict_get_or (inverse_in_use self st) idx "<UNK>"), st).
Proof. reflexivity. Qed.

(** In a ranked vocabulary the inverse mapping inverts every lookup. *)
Lemma inverse_lookup (d : vocab) (tok : string) (i : nat) :
  ranked d -> dict_get d tok = Some i -> dict_get (inverse d) i = Some tok.
Proof.
  intros R E. apply inverse_get.
  - apply ranked_NoDup. exact R.
  - apply dict_get_In. exact E.
Qed.

Lemma nth_error_repeat {A : Type} (x y : A) (n p : nat) :
  nth_error (repeat x n) p = Some y -> y = x.
Proof.
  intros E. apply nth_error_In in E. apply repeat_spec in E. exact E.
Qed.

(** The ids of an encoded target row, by position: the id of the token,
    then the end marker, then padding. *)
Lemma encoded_target_position (d_src d_tgt : vocab) (smax tmax : nat)
  (raw : raw_sample) (e : sample) (p id : nat) :
  encoded_as d_src d_tgt smax tmax raw e ->
  nth_error (snd e) p = Some id ->
  (exists tok, nth_error (snd raw) p = Some tok /\ dict_get d_tgt tok = Some id) \/
  (p = length (snd raw) /\ id = Dataset.EOS) \/
  (length (snd raw) < p /\ id = Dataset.PAD).
Proof.
  intros (sids & tids & (Ls & Lt & ->) & Fs & Ft). simpl.
  intros E.
  destruct (Nat.lt_ge_cases p (length tids)) as [Hp|Hp].
  - left. rewrite <- app_assoc, nth_error_app1 in E by exact Hp.
    destruct (nth_error (snd raw) p) as [tok|] eqn:Et.
    + exists tok. split; [reflexivity|].
      exact (Forall2_nth_error _ Ft Et E).
    + apply nth_error_None in Et. lia.
  - right. rewrite <- app_assoc, nth_error_app2 in E by exact Hp.
    destruct (p - length tids) as [|q] eqn:Eq.
    + left. simpl in E. injection E as <-. split; [lia|reflexivity].
    + right. simpl in E. apply nth_error_repeat in E. split; [lia|exact E].
Qed.

(* ================================================================= *)
(** ** The inference dataset *)

Lemma enumerate_fst {A : Type} (l : list A) :
  map fst (enumerate l) = seq 0 (length l).
Proof.
  unfold enumerate. generalize 0.
  induction l as [|x l IH]; intros s; simpl; [reflexivity|].
  rewrite IH. reflexivity.
Qed.

Lemma enumerate_snd {A : Type} (l : list A) :
  map snd (enumerate l) = l.
Proof.
  unfold enumerate. generalize 0.
  induction l as [|x l IH]; intros s; simpl; [reflexivity|].
  rewrite IH. reflexivity.
Qed.

Lemma combine_seq_In {A : Type} (l : list A) (s i : nat) (x : A) :
  In (i, x) (combine (seq s (length l)) l) ->
  s <= i /\ nth_error l (i - s) = Some x.
Proof.
  revert s. induction l as [|y l IH]; intros s; simpl; [contradiction|].
  intros [E|H].
  - injection E as <- <-. rewrite Nat.sub_diag. auto.
  - destruct (IH _ H) as [Hs E]. split; [lia|].
    replace (i - s) with (S (i - S s)) by lia. exact E.
Qed.

Lemma enumerate_In {A : Type} (l : list A) (i : nat) (x : A) :
  In (i, x) (enumerate l) -> nth_error l i = Some x.
Proof.
  intros H. apply combine_seq_In in H. rewrite Nat.sub_0_r in H. apply H.
Qed.

(** What the load of a stream that has a line computes. *)
Lemma inference_load_Ok (stream : list string) :
  stream <> [] ->
  InferenceDataset.load_data_from_stream stream =
  Ok (map (rstrip newline) stream,
      map fst (sorted (fun x => (- Z.of_nat (String.length (snd x)))%Z)
                 (enumerate (map (rstrip newline) stream))),
      map snd (sorted (fun x => (- Z.of_nat (String.length (snd x)))%Z)
                 (enumerate (map (rstrip newline) stream)))).
Proof.
  intros Hne. unfold InferenceDataset.load_data_from_stream.
  set (s := sorted _ _).
  assert (Hs : s <> []).
  { intros E. apply (f_equal (@length _)) in E. unfold s in E.
    rewrite sorted_length in E. unfold enumerate in E.
    rewrite length_combine, length_seq, length_map, Nat.min_id in E.
    destruct stream; [congruence|discriminate]. }
  destruct s; [congruence|reflexivity].
Qed.

Lemma inference_load_empty :
  InferenceDataset.load_data_from_stream [] =
  Raise (ValueError (not_enough_values 2 0)).
Proof. reflexivity. Qed.

Lemma parse_entry_Ok_iff (l : string) :
  (exists p, InferenceDataset.parse_entry l = Ok p) <-> one_tab l.
Proof.
  unfold InferenceDataset.parse_entry, one_tab.
  rewrite unpack2_Ok_iff, length_split_tab_line. lia.
Qed.

Lemma read_entries_Ok_iff (f : list string) :
  forall src_vocab,
    (exists d, InferenceDataset.read_entries src_vocab f = Ok d) <->
    Forall one_tab f.
Proof.
  induction f as [|l f IH]; intros acc; simpl.
  - split; [constructor|eauto].
  - destruct (InferenceDataset.parse_entry l) as [[src tgt]|e] eqn:E.
    + rewrite IH. split.
      * intros F. constructor; [|exact F]. apply parse_entry_Ok_iff. eauto.
      * intros F. inversion F; assumption.
    + split.
      * intros [d Hd]. discriminate.
      * intros F. inversion F as [|? ? Hl _]; subst.
        apply parse_entry_Ok_iff in Hl. destruct Hl as [p Hp]. congruence.
Qed.

(* ################################################################# *)
(** * The loader *)

Unset Implicit Arguments.

(** C1: for every non-empty training input loaded in growing-vocabulary
    mode (a stream that has a line, each line with one tab),
    [load_data_from_stream] completes; and whenever it completes, every
    encoded source row has length exactly the maximum of the source token
    counts ([src_maxlen]) and every encoded target row has length exactly
    the maximum of the target token counts plus one (the final
    [tgt_maxlen]). *)
Theorem C1_rows_have_maximal_lengths :
  forall (self : Dataset.t) (stream : list string) (st : store),
    (stream <> [] ->
     Forall one_tab stream ->
     exists ds st',
       Dataset.load_data_from_stream self stream false st = (Ok ds, st')) /\
    (forall ds st',
        Dataset.load_data_from_stream self stream false st = (Ok ds, st') ->
        stream <> [] /\
        mapR Dataset.parse_line stream = Ok (Dataset.raw_samples ds) /\
        length (Dataset.samples ds) = length stream /\
        Dataset.src_maxlen ds =
          list_max (map (fun s => length (fst s)) (Dataset.raw_samples ds)) /\
        Dataset.tgt_maxlen ds =
          list_max (map (fun s => length (snd s)) (Dataset.raw_samples ds)) + 1 /\
        Forall (fun e => length (fst e) = Dataset.src_maxlen ds /\
                         length (snd e) = Dataset.tgt_maxlen ds)
          (Dataset.samples ds)).
Proof.
  intros self stream st.
  assert (Hok : stream <> [] -> Forall one_tab stream ->
                exists raw ds st',
                  mapR Dataset.parse_line stream = Ok raw /\
                  Dataset.load_data_from_stream self stream false st =
                    (Ok ds, st') /\
                  loaded raw ds).
  { intros Hne Hall.
    destruct (load_Ok self false st Hne Hall)
      as (raw & ds & st' & Ep & El & Hl & _).
    eauto 6. }
  split.
  - intros Hne Hall. destruct (Hok Hne Hall) as (raw & ds & st' & _ & El & _).
    eauto.
  - intros ds st' E. destruct (load_Ok_inv _ _ _ _ E) as [Hne Hall].
    destruct (Hok Hne Hall) as (raw & ds2 & st2 & Ep & El & Hl).
    rewrite E in El. injection El as <- <-.
    pose proof (loaded_rows Hl) as Rows.
    destruct (loaded_lengths Hl) as (Ln & _).
    destruct (mapR_parse_line_Ok_inv _ Ep) as [_ Lr].
    destruct Hl as (_ & Er & Es & Et & _).
    rewrite Er. repeat split; try assumption. congruence.
Qed.

Lemma C1_rows_have_maximal_lengths_witness :
  exists ds st',
    Dataset.load_data_from_stream (init_self cfg_separate []) two_lines false
      (init_store cfg_separate []) = (Ok ds, st') /\
    length (Dataset.samples ds) = 2 /\
    Forall (fun e => length (fst e) = Dataset.src_maxlen ds /\
                     length (snd e) = Dataset.tgt_maxlen ds)
      (Dataset.samples ds).
Proof.
  destruct (C1_rows_have_maximal_lengths (init_self cfg_separate []) two_lines
              (init_store cfg_separate [])) as [Hok Hrows].
  destruct Hok as (ds & st' & E).
  - discriminate.
  - repeat constructor.
  - exists ds, st'. split; [exact E|].
    destruct (Hrows ds st' E) as (_ & _ & L & _ & _ & F).
    split; [exact L|exact F].
Defined.

(** C2, as the code has it: for the empty input stream, loading a
    [Dataset] fails with the [ValueError] that [max] raises on an empty
    sequence (the code has no dedicated error for the empty dataset); no
    dataset is produced, in the constructor and in either mode of
    [load_data_from_stream]. *)
Theorem C2_empty_stream_raises_ValueError :
  forall (cfg : Config) (self : Dataset.t) (frozen : bool) (st : store),
    Dataset.__init__ cfg [] st =
      (Raise (ValueError max_empty_sequence), init_store cfg st) /\
    Dataset.load_data_from_stream self [] frozen st =
      (Raise (ValueError max_empty_sequence), st) /\
    class_name (ValueError max_empty_sequence) = "ValueError".
Proof.
  intros cfg self frozen st.
  split; [apply init_empty|]. split; [apply load_empty|reflexivity].
Qed.

(** C2, as stated, fails: on the empty stream the constructor raises,
    but the exception is not an [EmptyDatasetError]. *)
Lemma C2_empty_stream_counterexample :
  ~ (exists e st',
       Dataset.__init__ cfg_separate [] [] = (Raise e, st') /\
       class_name e = "EmptyDatasetError").
Proof.
  intros (e & st' & E & C). rewrite init_empty in E.
  injection E as <- _. discriminate C.
Qed.

(** A stream with a line that is not well formed splits at the first
    such line, whose exception is the one the parsing of the stream
    raises. *)
Lemma first_bad_line (stream : list string) :
  Exists (fun line => ~ one_tab line) stream ->
  exists pre bad post e,
    stream = pre ++ bad :: post /\
    Forall one_tab pre /\ ~ one_tab bad /\
    Dataset.parse_line bad = Raise e /\
    forall rest, mapR Dataset.parse_line (pre ++ bad :: rest) = Raise e.
Proof.
  intros Hex.
  destruct (mapR Dataset.parse_line stream) as [raw|e] eqn:E.
  - apply mapR_parse_line_Ok_inv in E. destruct E as [Hall _].
    apply Exists_exists in Hex. destruct Hex as (line & Hin & Hbad).
    rewrite Forall_forall in Hall. elim Hbad. auto.
  - destruct (mapR_Raise_inv _ _ E) as (pre & bad & post & -> & Hpre & Hbad).
    exists pre, bad, post, e. split; [reflexivity|].
    split.
    { eapply Forall_impl; [|exact Hpre]. intros l. apply parse_line_Ok_iff. }
    split.
    { intros H1. apply parse_line_Ok_iff in H1. destruct H1 as [s Hs]. congruence. }
    split; [exact Hbad|].
    intros rest. apply mapR_first_Raise; assumption.
Qed.

(** C3, as the code has it: for every training or validation stream that
    contains a line with no tab, the load fails with a [ValueError] (the
    code has no [FormatError]): the one raised by the two-name unpacking
    of the first line that does not have exactly one tab, which is the
    no-tab line unless a line before it has several tabs.  The lines
    after it are never read, the store is left as it was when the load
    began, and no dataset is returned, by [load_data_from_stream] and by
    the constructors of [Dataset] and [ValidationDataset]. *)
Theorem C3_no_tab_line_raises_ValueError :
  forall stream : list string,
    Exists (fun line => count_char tab line = 0) stream ->
    exists pre bad post e,
      stream = pre ++ bad :: post /\
      Forall one_tab pre /\
      ~ one_tab bad /\
      Dataset.parse_line bad = Raise e /\
      class_name e = "ValueError" /\
      (count_char tab bad = 0 -> e = ValueError (not_enough_values 2 1)) /\
      (forall rest self frozen st,
          Dataset.load_data_from_stream self (pre ++ bad :: rest) frozen st =
          (Raise e, st)) /\
      (forall rest cfg st,
          Dataset.__init__ cfg (pre ++ bad :: rest) st =
          (Raise e, init_store cfg st)) /\
      (forall rest train_data st,
          ValidationDataset.__init__ train_data (pre ++ bad :: rest) st =
          (Raise e, st)).
Proof.
  intros stream Hex.
  destruct (first_bad_line stream) as (pre & bad & post & e & -> & Hpre & Hbad & Eb & Er).
  { eapply Exists_impl; [|exact Hex]. unfold one_tab. intros l H. cbv beta in H. lia. }
  exists pre, bad, post, e. split; [reflexivity|].
  split; [exact Hpre|]. split; [exact Hbad|]. split; [exact Eb|].
  destruct (parse_line_Raise_inv _ Eb) as [[H0 ->]|[H2 ->]].
  - split; [reflexivity|]. split; [reflexivity|].
    split; [|split].
    + intros. apply load_unparsed. apply Er.
    + intros. apply init_unparsed. apply Er.
    + intros. apply load_unparsed. apply Er.
  - split; [reflexivity|]. split; [lia|].
    split; [|split].
    + intros. apply load_unparsed. apply Er.
    + intros. apply init_unparsed. apply Er.
    + intros. apply load_unparsed. apply Er.
Qed.

Lemma C3_no_tab_line_raises_ValueError_witness :
  exists pre bad post e,
    no_tab_lines = pre ++ bad :: post /\
    Forall one_tab pre /\
    ~ one_tab bad /\
    Dataset.parse_line bad = Raise e /\
    class_name e = "ValueError" /\
    (count_char tab bad = 0 -> e = ValueError (not_enough_values 2 1)) /\
    (forall rest self frozen st,
        Dataset.load_data_from_stream self (pre ++ bad :: rest) frozen st =
        (Raise e, st)) /\
    (forall rest cfg st,
        Dataset.__init__ cfg (pre ++ bad :: rest) st =
        (Raise e, init_store cfg st)) /\
    (forall rest train_data st,
        ValidationDataset.__init__ train_data (pre ++ bad :: rest) st =
        (Raise e, st)).
Proof.
  apply C3_no_tab_line_raises_ValueError.
  unfold no_tab_lines. apply Exists_cons_tl, Exists_cons_hd. reflexivity.
Defined.

(** C3, as stated, fails: the stream whose second line has no tab stops
    the constructor, but the exception is not a [FormatError]. *)
Lemma C3_no_tab_line_counterexample :
  ~ (exists e st',
       Dataset.__init__ cfg_separate no_tab_lines [] = (Raise e, st') /\
       class_name e = "FormatError").
Proof.
  intros (e & st' & E & C).
  rewrite (@init_unparsed cfg_separate no_tab_lines []
             (ValueError (not_enough_values 2 1)) eq_refl) in E.
  injection E as <- _. discriminate C.
Qed.

(** C10: a training or validation line is parsed if and only if it has
    exactly one tab; a line with two tabs or more stops the load as the
    line without a tab does (the two-name unpacking fails); and every
    line of the vocabulary file of [InferenceDataset] is under the same
    requirement. *)
Theorem C10_exactly_one_tab :
  (forall line,
      (exists s, Dataset.parse_line line = Ok s) <-> count_char tab line = 1) /\
  (forall line,
      2 <= count_char tab line ->
      Dataset.parse_line line = Raise (ValueError (too_many_values 2))) /\
  (forall self stream frozen st,
      (exists ds st',
          Dataset.load_data_from_stream self stream frozen st = (Ok ds, st')) <->
      stream <> [] /\ Forall (fun line => count_char tab line = 1) stream) /\
  (forall self stream frozen st,
      Exists (fun line => 2 <= count_char tab line) stream ->
      exists e,
        Dataset.load_data_from_stream self stream frozen st = (Raise e, st) /\
        class_name e = "ValueError") /\
  (forall l,
      (exists p, InferenceDataset.parse_entry l = Ok p) <-> count_char tab l = 1) /\
  (forall fs cfg f,
      fs (src_vocab_file cfg) = Some f ->
      ((exists d, InferenceDataset.load_src_vocab fs cfg = Ok d) <->
       Forall (fun l => count_char tab l = 1) f)).
Proof.
  split; [exact parse_line_Ok_iff|].
  split; [exact parse_line_many_tabs|].
  split.
  { intros self stream frozen st. split.
    - intros (ds & st' & E). exact (load_Ok_inv _ _ _ _ E).
    - intros [Hne Hall].
      destruct (load_Ok self frozen st Hne Hall) as (raw & ds & st' & _ & E & _).
      eauto. }
  split.
  { intros self stream frozen st Hex.
    destruct (first_bad_line stream) as (pre & bad & post & e & -> & _ & _ & Eb & Er).
    { eapply Exists_impl; [|exact Hex]. unfold one_tab. intros l H. cbv beta in H. lia. }
    exists e. split; [apply load_unparsed; apply Er|].
    destruct (parse_line_Raise_inv _ Eb) as [[_ ->]|[_ ->]]; reflexivity. }
  split; [exact parse_entry_Ok_iff|].
  intros fs cfg f Hf. unfold InferenceDataset.load_src_vocab. rewrite Hf.
  apply read_entries_Ok_iff.
Qed.

Lemma C10_exactly_one_tab_witness :
  exists e,
    Dataset.load_data_from_stream (init_self cfg_separate []) two_tab_lines
      false (init_store cfg_separate []) =
    (Raise e, init_store cfg_separate []) /\
    class_name e = "ValueError".
Proof.
  apply (proj1 (proj2 (proj2 (proj2 C10_exactly_one_tab)))).
  unfold two_tab_lines. apply Exists_cons_hd. apply le_n.
Defined.

(* ################################################################# *)
(** * The vocabularies *)

Lemma built_vocabularies (cfg : Config) (st : store) (raw : list raw_sample)
  (ds : Dataset.t) (st' : store) :
  built cfg st raw ds st' ->
  (exists more, deref st' (Dataset.src_vocab ds) = Dataset.CONSTANTS ++ more) /\
  (exists more, deref st' (Dataset.tgt_vocab ds) = Dataset.CONSTANTS ++ more).
Proof.
  intros (_ & Es & Et & _ & _ & [_ G] & _).
  destruct (init_store_deref cfg st) as [Ds Dt]. simpl in Ds, Dt.
  destruct (G (Dataset.src_vocab ds)) as [m1 E1].
  destruct (G (Dataset.tgt_vocab ds)) as [m2 E2].
  rewrite Es in E1 at 2. rewrite Et in E2 at 2. rewrite Ds in E1. rewrite Dt in E2.
  eauto.
Qed.

(** *** Ids follow the order of first encounter *)

Lemma dict_get_None_iff (d : vocab) (k : string) :
  dict_get d k = None <-> ~ In k (map fst d).
Proof.
  induction d as [|[k' v] d IH]; simpl.
  - tauto.
  - destruct (key_eq_dec k k') as [->|Hne].
    + split; [discriminate|]. intros H. elim H. auto.
    + rewrite IH. split.
      * intros H [E|Hin]; [congruence|auto].
      * intros H Hin. apply H. auto.
Qed.

Lemma vocab_getitem_keys (l : loc) (k : string) (st st' : store) (i : nat) :
  l < length st ->
  vocab_getitem l k st = (Ok i, st') ->
  length st' = length st /\
  keys_at st' l = see_token (keys_at st l) k /\
  forall l', l' <> l -> deref st' l' = deref st l'.
Proof.
  intros Hl. unfold vocab_getitem, keys_at, see_token.
  destruct (dict_get (deref st l) k) as [v|] eqn:E; intros R;
    injection R as <- <-.
  - split; [reflexivity|]. split; [|reflexivity].
    destruct (in_dec string_dec k (map fst (deref st l))) as [_|Hn];
      [reflexivity|].
    elim Hn. apply dict_get_In in E. exact (in_map fst _ _ E).
  - rewrite dict_set_absent by exact E.
    split; [apply length_assign|]. split.
    + rewrite deref_assign_same by exact Hl. rewrite map_app. simpl.
      destruct (in_dec string_dec k (map fst (deref st l))) as [Hin|_];
        [|reflexivity].
      apply dict_get_None_iff in E. contradiction.
    + intros l' Hne. apply deref_assign_other. exact Hne.
Qed.

Lemma getitem_each_keys (l : loc) (tokens : list string) :
  forall (st st' : store) (ids : list nat),
    l < length st ->
    getitem_each l tokens st = (Ok ids, st') ->
    length st' = length st /\
    keys_at st' l = first_seen (keys_at st l) tokens /\
    forall l', l' <> l -> deref st' l' = deref st l'.
Proof.
  induction tokens as [|c tokens IH]; intros st st' ids Hl E.
  - injection E as <- <-. auto.
  - simpl in E. unfold bind in E.
    destruct (vocab_getitem l c st) as [[i|e] st1] eqn:E1; [|discriminate].
    destruct (getitem_each l tokens st1) as [[ids'|e] st2] eqn:E2;
      [|discriminate].
    injection E as <- <-.
    destruct (vocab_getitem_keys _ _ _ _ _ Hl E1) as (L1 & K1 & F1).
    assert (Hl1 : l < length st1) by lia.
    destruct (IH _ _ _ Hl1 E2) as (L2 & K2 & F2).
    split; [lia|]. split.
    + rewrite K2, K1. reflexivity.
    + intros l' Hne. rewrite F2, F1 by exact Hne. reflexivity.
Qed.

Lemma first_seen_app (seen tokens tokens' : list string) :
  first_seen seen (tokens ++ tokens') =
  first_seen (first_seen seen tokens) tokens'.
Proof. apply fold_left_app. Qed.

(** The keys after one sample is encoded, by the two roles. *)
Lemma encode_keys (self : Dataset.t) (smax tmax : nat) (raw : raw_sample)
  (st st' : store) (e : sample) :
  Dataset.src_vocab self < length st ->
  Dataset.tgt_vocab self < length st ->
  Dataset.encode self false smax tmax raw st = (Ok e, st') ->
  length st' = length st /\
  if Nat.eq_dec (Dataset.src_vocab self) (Dataset.tgt_vocab self)
  then keys_at st' (Dataset.src_vocab self) =
       first_seen (keys_at st (Dataset.src_vocab self)) (fst raw ++ snd raw)
  else keys_at st' (Dataset.src_vocab self) =
         first_seen (keys_at st (Dataset.src_vocab self)) (fst raw) /\
       keys_at st' (Dataset.tgt_vocab self) =
         first_seen (keys_at st (Dataset.tgt_vocab self)) (snd raw).
Proof.
  intros Hs Ht. destruct raw as [src tgt]. unfold Dataset.encode, bind.
  destruct (getitem_each (Dataset.src_vocab self) src st)
    as [[sids|e1] st1] eqn:E1; [|discriminate].
  destruct (getitem_each (Dataset.tgt_vocab self) tgt st1)
    as [[tids|e2] st2] eqn:E2; [|discriminate].
  intros R. injection R as _ <-.
  destruct (getitem_each_keys _ _ _ _ _ Hs E1) as (L1 & K1 & F1).
  assert (Ht1 : Dataset.tgt_vocab self < length st1) by lia.
  destruct (getitem_each_keys _ _ _ _ _ Ht1 E2) as (L2 & K2 & F2).
  split; [lia|]. simpl.
  destruct (Nat.eq_dec (Dataset.src_vocab self) (Dataset.tgt_vocab self))
    as [Eq|Hne].
  - rewrite first_seen_app, <- K1, Eq. exact K2.
  - split; [|rewrite K2; unfold keys_at; rewrite F1 by auto; reflexivity].
    unfold keys_at. rewrite F2 by exact Hne. exact K1.
Qed.

Lemma encode_loop_keys (self : Dataset.t) (smax tmax : nat)
  (raws : list raw_sample) :
  forall (acc samples : list sample) (st st' : store),
    Dataset.src_vocab self < length st ->
    Dataset.tgt_vocab self < length st ->
    Dataset.encode_loop self false smax tmax acc raws st = (Ok samples, st') ->
    if Nat.eq_dec (Dataset.src_vocab self) (Dataset.tgt_vocab self)
    then keys_at st' (Dataset.src_vocab self) =
         first_seen (keys_at st (Dataset.src_vocab self)) (all_encounters raws)
    else keys_at st' (Dataset.src_vocab self) =
           first_seen (keys_at st (Dataset.src_vocab self))
             (src_encounters raws) /\
         keys_at st' (Dataset.tgt_vocab self) =
           first_seen (keys_at st (Dataset.tgt_vocab self))
             (tgt_encounters raws).
Proof.
  unfold all_encounters, src_encounters, tgt_encounters.
  induction raws as [|raw raws IH]; intros acc samples st st' Hs Ht E.
  - injection E as _ <-.
    destruct (Nat.eq_dec _ _); simpl; auto.
  - simpl in E. unfold bind in E.
    destruct (Dataset.encode self false smax tmax raw st)
      as [[e|ex] st1] eqn:E1; [|discriminate].
    destruct (encode_keys _ _ _ _ _ _ _ Hs Ht E1) as (L1 & K1).
    assert (Hs1 : Dataset.src_vocab self < length st1) by lia.
    assert (Ht1 : Dataset.tgt_vocab self < length st1) by lia.
    specialize (IH _ _ _ _ Hs1 Ht1 E).
    simpl. destruct (Nat.eq_dec _ _) as [Eq|Hne].
    + rewrite first_seen_app, <- K1. exact IH.
    + destruct K1 as [K1s K1t]. destruct IH as [IHs IHt].
      rewrite !first_seen_app, <- K1s, <- K1t. auto.
Qed.

Lemma combine_fst_snd {A B : Type} (l : list (A * B)) :
  combine (map fst l) (map snd l) = l.
Proof. induction l as [|[a b] l IH]; simpl; congruence. Qed.

(** A ranked vocabulary is its list of keys, numbered. *)
Lemma ranked_numbered (d : vocab) : ranked d -> d = numbered (map fst d).
Proof.
  unfold ranked, numbered. intros R.
  rewrite length_map, <- R. symmetry. apply combine_fst_snd.
Qed.

(** The vocabularies that the constructor leaves: the reserved tokens
    and then the tokens of the stream in the order of their first
    encounter through the role, or through both roles when they share
    the vocabulary, numbered from 0. *)
Lemma init_first_seen (cfg : Config) (stream : list string) (st st' : store)
  (ds : Dataset.t) (raw : list raw_sample) :
  Dataset.__init__ cfg stream st = (Ok ds, st') ->
  mapR Dataset.parse_line stream = Ok raw ->
  deref st' (Dataset.src_vocab ds) =
    numbered (first_seen reserved
                (if share_vocab cfg then all_encounters raw
                 else src_encounters raw)) /\
  deref st' (Dataset.tgt_vocab ds) =
    numbered (first_seen reserved
                (if share_vocab cfg then all_encounters raw
                 else tgt_encounters raw)).
Proof.
  intros E Ep.
  destruct (init_built _ _ _ E) as (raw2 & Ep2 & B).
  rewrite Ep in Ep2. injection Ep2 as <-.
  destruct B as ((Hne & _) & Es & Et & _ & _ & _ & [_ Rs] & [_ Rt] & _).
  rewrite (ranked_numbered _ Rs), (ranked_numbered _ Rt).
  fold (keys_at st' (Dataset.src_vocab ds)).
  fold (keys_at st' (Dataset.tgt_vocab ds)).
  rewrite init_unfold in E. unfold bind at 1 in E.
  rewrite (@load_parsed (init_self cfg st) stream false (init_store cfg st)
             raw Ep Hne) in E.
  unfold bind at 1 in E.
  match type of E with
  | context [Dataset.encode_loop ?self false ?a ?b [] raw ?s] =>
      destruct (Dataset.encode_loop self false a b [] raw s)
        as [[samples|ex] st1] eqn:El; [|discriminate]
  end.
  unfold ret, Dataset.update_config, bind, vocab_len, ret in E.
  injection E as _ <-.
  destruct (init_store_length cfg st) as [Ls Lt].
  destruct (init_store_deref cfg st) as [Ds Dt].
  pose proof (encode_loop_keys _ _ _ _ _ _ _ _ Ls Lt El) as K.
  unfold keys_at in K at 2 4 6. rewrite Ds in K. rewrite ?Dt in K.
  fold reserved in K. rewrite Es, Et.
  unfold init_self in K. simpl in K.
  destruct (share_vocab cfg).
  - destruct (Nat.eq_dec (length st) (length st)) as [_|Hn]; [|congruence].
    rewrite K. auto.
  - destruct (Nat.eq_dec (length st) (S (length st))) as [Hn|_]; [lia|].
    destruct K as [-> ->]. auto.
Qed.

(** C7: in growing mode a lookup of an unseen token returns the current
    size of the mapping and inserts the token with that id, and a lookup
    of a seen token returns its id and changes nothing; hence the
    vocabularies that the constructor leaves begin with the four
    reserved ids 0..3 and number the tokens of the stream in the order
    of their first encounter.  On the lines ["a b c\tx y"] and ["a b\tx"] the
    source vocabulary gives 4, 5, 6 to a, b, c and the separate target
    vocabulary gives 4, 5 to x, y. *)
Theorem C7_growing_lookup_assigns_next_id :
  (forall self ch st,
      Dataset.src_vocab self < length st ->
      dict_get (deref st (Dataset.src_vocab self)) ch = None ->
      exists st',
        Dataset.src_lookup self ch false st =
          (Ok (length (deref st (Dataset.src_vocab self))), st') /\
        deref st' (Dataset.src_vocab self) =
          deref st (Dataset.src_vocab self) ++
          [(ch, length (deref st (Dataset.src_vocab self)))] /\
        forall l, l <> Dataset.src_vocab self -> deref st' l = deref st l) /\
  (forall self ch st i,
      dict_get (deref st (Dataset.src_vocab self)) ch = Some i ->
      Dataset.src_lookup self ch false st = (Ok i, st)) /\
  (forall cfg stream st ds st',
      Dataset.__init__ cfg stream st = (Ok ds, st') ->
      (exists more,
          deref st' (Dataset.src_vocab ds) = Dataset.CONSTANTS ++ more) /\
      (exists more,
          deref st' (Dataset.tgt_vocab ds) = Dataset.CONSTANTS ++ more) /\
      map snd (deref st' (Dataset.src_vocab ds)) =
        seq 0 (length (deref st' (Dataset.src_vocab ds))) /\
      map snd (deref st' (Dataset.tgt_vocab ds)) =
        seq 0 (length (deref st' (Dataset.tgt_vocab ds)))) /\
  (forall cfg stream st ds st' raw,
      Dataset.__init__ cfg stream st = (Ok ds, st') ->
      mapR Dataset.parse_line stream = Ok raw ->
      deref st' (Dataset.src_vocab ds) =
        numbered (first_seen reserved
                    (if share_vocab cfg then all_encounters raw
                     else src_encounters raw)) /\
      deref st' (Dataset.tgt_vocab ds) =
        numbered (first_seen reserved
                    (if share_vocab cfg then all_encounters raw
                     else tgt_encounters raw))) /\
  (exists ds st',
      Dataset.__init__ cfg_separate two_lines [] = (Ok ds, st') /\
      deref st' (Dataset.src_vocab ds) =
        [("PAD", 0); ("SOS", 1); ("EOS", 2); ("UNK", 3);
         ("a", 4); ("b", 5); ("c", 6)] /\
      deref st' (Dataset.tgt_vocab ds) =
        [("PAD", 0); ("SOS", 1); ("EOS", 2); ("UNK", 3); ("x", 4); ("y", 5)] /\
      Dataset.samples ds = [([4; 5; 6], [4; 5; 2]); ([4; 5; 0], [4; 2; 0])]).
Proof.
  split.
  { intros self ch st Hl E. unfold Dataset.src_lookup. simpl.
    rewrite (vocab_getitem_unseen _ _ _ E).
    eexists. split; [reflexivity|]. split.
    - apply deref_assign_same. exact Hl.
    - intros l Hne. apply deref_assign_other. exact Hne. }
  split.
  { intros self ch st i E. unfold Dataset.src_lookup. simpl.
    apply vocab_getitem_seen. exact E. }
  split.
  { intros cfg stream st ds st' E.
    destruct (init_built _ _ _ E) as (raw & _ & B).
    destruct (built_vocabularies _ _ _ _ _ B) as [Vs Vt].
    destruct B as (_ & _ & _ & _ & _ & _ & [_ Rs] & [_ Rt] & _).
    auto. }
  split; [intros cfg stream st ds st' raw; apply init_first_seen|].
  exists two_lines_ds, two_lines_store.
  split; [vm_compute; reflexivity|]. repeat split.
Qed.

Lemma C7_growing_lookup_assigns_next_id_witness :
  Dataset.src_lookup two_lines_ds "c" false two_lines_store =
    (Ok 6, two_lines_store) /\
  exists st',
    Dataset.src_lookup two_lines_ds "d" false two_lines_store = (Ok 7, st') /\
    deref st' (Dataset.src_vocab two_lines_ds) =
      deref two_lines_store (Dataset.src_vocab two_lines_ds) ++ [("d", 7)] /\
    forall l, l <> Dataset.src_vocab two_lines_ds ->
              deref st' l = deref two_lines_store l.
Proof.
  split.
  - apply (proj1 (proj2 C7_growing_lookup_assigns_next_id)). reflexivity.
  - apply (proj1 C7_growing_lookup_assigns_next_id two_lines_ds "d"
             two_lines_store).
    + repeat constructor.
    + reflexivity.
Defined.

(** The id at a position of an encoded source row is the id that the
    source vocabulary gives to the token of that position. *)
Lemma encoded_source_position (d_src d_tgt : vocab) (smax tmax : nat)
  (raw : raw_sample) (e : sample) (p : nat) (tok : string) :
  encoded_as d_src d_tgt smax tmax raw e ->
  nth_error (fst raw) p = Some tok ->
  exists id, nth_error (fst e) p = Some id /\ dict_get d_src tok = Some id.
Proof.
  intros (sids & tids & (Ls & Lt & ->) & Fs & Ft) E. simpl.
  assert (Hp : p < length sids).
  { rewrite Ls. apply nth_error_Some. congruence. }
  rewrite nth_error_app1 by exact Hp.
  destruct (nth_error sids p) as [id|] eqn:Ei.
  - exists id. split; [reflexivity|]. exact (Forall2_nth_error _ Fs E Ei).
  - apply nth_error_None in Ei. lia.
Qed.

Lemma vocab_getitem_then_seen (l : loc) (k : string) (st st' : store) (i : nat) :
  l < length st ->
  vocab_getitem l k st = (Ok i, st') ->
  dict_get (deref st' l) k = Some i.
Proof.
  intros Hl E.
  destruct (vocab_getitem_spec l k st) as (i' & st2 & E2 & _ & _ & D).
  rewrite E in E2. injection E2 as <- <-. auto.
Qed.

(** With [share_vocab] both roles hold one reference: lookups through
    the two roles agree, in every store and in the encoded rows. *)
Lemma shared_vocabulary :
  forall cfg stream st ds st',
    share_vocab cfg = true ->
    Dataset.__init__ cfg stream st = (Ok ds, st') ->
    Dataset.src_vocab ds = Dataset.tgt_vocab ds /\
    (forall tok frozen st1,
        Dataset.src_lookup ds tok frozen st1 =
        Dataset.tgt_lookup ds tok frozen st1) /\
    (forall tok st1 i st2,
        Dataset.src_vocab ds < length st1 ->
        Dataset.src_lookup ds tok false st1 = (Ok i, st2) ->
        Dataset.tgt_lookup ds tok false st2 = (Ok i, st2) /\
        Dataset.tgt_lookup ds tok true st2 = (Ok i, st2)) /\
    (forall tok st1 i st2,
        Dataset.tgt_vocab ds < length st1 ->
        Dataset.tgt_lookup ds tok false st1 = (Ok i, st2) ->
        Dataset.src_lookup ds tok false st2 = (Ok i, st2) /\
        Dataset.src_lookup ds tok true st2 = (Ok i, st2)) /\
    (forall j k rs rt es et rs' rt' es' et' p q tok,
        nth_error (Dataset.raw_samples ds) j = Some (rs, rt) ->
        nth_error (Dataset.samples ds) j = Some (es, et) ->
        nth_error (Dataset.raw_samples ds) k = Some (rs', rt') ->
        nth_error (Dataset.samples ds) k = Some (es', et') ->
        nth_error rs p = Some tok ->
        nth_error rt' q = Some tok ->
        exists id,
          nth_error es p = Some id /\ nth_error et' q = Some id /\
          Dataset.src_lookup ds tok true st' = (Ok id, st') /\
          Dataset.tgt_lookup ds tok true st' = (Ok id, st')).
Proof.
  intros cfg stream st ds st' Hshare E.
  destruct (init_built _ _ _ E) as (raw & _ & B).
  destruct B as (Hl & Es & Et & _ & _ & _ & _ & _ & F).
  rewrite Hshare in Et.
  assert (Eq : Dataset.src_vocab ds = Dataset.tgt_vocab ds) by congruence.
  split; [exact Eq|].
  split.
  { intros tok frozen st1. unfold Dataset.src_lookup, Dataset.tgt_lookup.
    rewrite Eq. reflexivity. }
  split.
  { intros tok st1 i st2 Hv L. unfold Dataset.src_lookup, Dataset.tgt_lookup in *.
    simpl in *. rewrite <- Eq.
    pose proof (vocab_getitem_then_seen _ _ _ _ _ Hv L) as D.
    split; [apply vocab_getitem_seen; exact D|].
    unfold vocab_get, dict_get_or. rewrite D. reflexivity. }
  split.
  { intros tok st1 i st2 Hv L. unfold Dataset.src_lookup, Dataset.tgt_lookup in *.
    simpl in *. rewrite Eq.
    pose proof (vocab_getitem_then_seen _ _ _ _ _ Hv L) as D.
    split; [apply vocab_getitem_seen; exact D|].
    unfold vocab_get, dict_get_or. rewrite D. reflexivity. }
  intros j k rs rt es et rs' rt' es' et' p q tok Rj Sj Rk Sk Hp Hq.
  destruct Hl as (_ & Er & _). rewrite Er in Rj, Rk.
  pose proof (Forall2_nth_error _ F Rj Sj) as Ej.
  pose proof (Forall2_nth_error _ F Rk Sk) as Ek.
  destruct (encoded_source_position _ _ _ _ _ _ _ _ Ej Hp) as (id & Hid & Did).
  exists id. split; [exact Hid|].
  assert (Hq' : nth_error et' q = Some id).
  { destruct Ek as (sids & tids & (Ls & Lt & Ee) & Fs & Ft).
    injection Ee as _ ->. simpl in *.
    assert (Hlt : q < length tids).
    { rewrite Lt. apply nth_error_Some. congruence. }
    rewrite <- app_assoc, nth_error_app1 by exact Hlt.
    destruct (nth_error tids q) as [id'|] eqn:Ei.
    - pose proof (Forall2_nth_error _ Ft Hq Ei) as D'. cbv beta in D'.
      rewrite <- Eq in D'. congruence.
    - apply nth_error_None in Ei. lia. }
  split; [exact Hq'|].
  unfold Dataset.src_lookup, Dataset.tgt_lookup. simpl.
  rewrite <- Eq. unfold vocab_get, dict_get_or. rewrite Did. auto.
Qed.

(** C6: with [share_vocab] the source and the target vocabulary are one
    object.  After loading, a token has the same id through the source
    role and through the target role, in the store and in the encoded
    rows; and an insertion made by a lookup through one role is seen at
    once by a lookup through the other role, as on the line ["a\tb a"],
    where the target role finds the id 4 that the source role has just
    given to a. *)
Theorem C6_shared_vocabulary_is_one_mapping :
  (forall cfg stream st ds st',
      share_vocab cfg = true ->
      Dataset.__init__ cfg stream st = (Ok ds, st') ->
      Dataset.src_vocab ds = Dataset.tgt_vocab ds /\
      (forall tok frozen st1,
          Dataset.src_lookup ds tok frozen st1 =
          Dataset.tgt_lookup ds tok frozen st1) /\
      (forall tok st1 i st2,
          Dataset.src_vocab ds < length st1 ->
          Dataset.src_lookup ds tok false st1 = (Ok i, st2) ->
          Dataset.tgt_lookup ds tok false st2 = (Ok i, st2) /\
          Dataset.tgt_lookup ds tok true st2 = (Ok i, st2)) /\
      (forall tok st1 i st2,
          Dataset.tgt_vocab ds < length st1 ->
          Dataset.tgt_lookup ds tok false st1 = (Ok i, st2) ->
          Dataset.src_lookup ds tok false st2 = (Ok i, st2) /\
          Dataset.src_lookup ds tok true st2 = (Ok i, st2)) /\
      (forall j k rs rt es et rs' rt' es' et' p q tok,
          nth_error (Dataset.raw_samples ds) j = Some (rs, rt) ->
          nth_error (Dataset.samples ds) j = Some (es, et) ->
          nth_error (Dataset.raw_samples ds) k = Some (rs', rt') ->
          nth_error (Dataset.samples ds) k = Some (es', et') ->
          nth_error rs p = Some tok ->
          nth_error rt' q = Some tok ->
          exists id,
            nth_error es p = Some id /\ nth_error et' q = Some id /\
            Dataset.src_lookup ds tok true st' = (Ok id, st') /\
            Dataset.tgt_lookup ds tok true st' = (Ok id, st'))) /\
  (exists ds st',
      Dataset.__init__ cfg_shared echo_line [] = (Ok ds, st') /\
      Dataset.samples ds = [([4], [5; 4; 2])] /\
      st' = [[("PAD", 0); ("SOS", 1); ("EOS", 2); ("UNK", 3);
              ("a", 4); ("b", 5)]]) /\
  (exists ds st',
      Dataset.__init__ cfg_separate echo_line [] = (Ok ds, st') /\
      Dataset.samples ds = [([4], [4; 5; 2])]).
Proof.
  split; [exact shared_vocabulary|].
  split.
  - eexists _, _. split; [vm_compute; reflexivity|]. split; reflexivity.
  - eexists _, _. split; [vm_compute; reflexivity|]. reflexivity.
Qed.

Lemma C6_shared_vocabulary_is_one_mapping_witness :
  Dataset.src_vocab echo_ds = Dataset.tgt_vocab echo_ds /\
  Dataset.tgt_lookup echo_ds "a" true echo_store = (Ok 4, echo_store).
Proof.
  destruct (proj1 C6_shared_vocabulary_is_one_mapping
              cfg_shared echo_line [] echo_ds echo_store eq_refl eq_refl)
    as (Eq & _ & Seen & _).
  split; [exact Eq|].
  apply (Seen "a" echo_store 4 echo_store).
  - repeat constructor.
  - reflexivity.
Defined.

(* ################################################################# *)
(** * Reverse lookup *)

(** The ids of a target row encoded with frozen vocabularies, by
    position. *)
Lemma frozen_target_position (d_src d_tgt : vocab) (smax tmax : nat)
  (raw : raw_sample) (e : sample) (p id : nat) :
  encoded_frozen d_src d_tgt smax tmax raw e ->
  nth_error (snd e) p = Some id ->
  (exists tok, nth_error (snd raw) p = Some tok /\
               id = dict_get_or d_tgt tok Dataset.UNK) \/
  (p = length (snd raw) /\ id = Dataset.EOS) \/
  (length (snd raw) < p /\ id = Dataset.PAD).
Proof.
  intros (Ls & Lt & ->). simpl. intros E. rewrite length_map in Lt.
  set (tids := map (fun c => dict_get_or d_tgt c Dataset.UNK) (snd raw)) in *.
  destruct (Nat.lt_ge_cases p (length tids)) as [Hp|Hp].
  - left. rewrite <- app_assoc, nth_error_app1 in E by exact Hp.
    unfold tids in E. rewrite nth_error_map in E.
    destruct (nth_error (snd raw) p) as [tok|]; [|discriminate].
    injection E as <-. eauto.
  - right. rewrite <- app_assoc, nth_error_app2 in E by exact Hp.
    unfold tids in Hp, E. rewrite length_map in Hp, E.
    destruct (p - length (snd raw)) as [|q] eqn:Eq.
    + left. simpl in E. injection E as <-. split; [lia|reflexivity].
    + right. simpl in E. apply nth_error_repeat in E. split; [lia|exact E].
Qed.

(** The reverse lookup of an id that the position of a target row
    holds, in a store whose target vocabulary is ranked and begins with
    the constants, under a cache that is current. *)
Lemma round_trip (self : Dataset.t) (st : store) (rtgt : list string)
  (p id : nat) :
  cache_current self st ->
  ranked (deref st (Dataset.tgt_vocab self)) ->
  (exists more, deref st (Dataset.tgt_vocab self) = Dataset.CONSTANTS ++ more) ->
  id <> Dataset.PAD ->
  ((exists tok, nth_error rtgt p = Some tok /\
                dict_get (deref st (Dataset.tgt_vocab self)) tok = Some id) \/
   (p = length rtgt /\ id = Dataset.EOS) \/
   (length rtgt < p /\ id = Dataset.PAD)) ->
  exists self' tok,
    Dataset.tgt_reverse_lookup self id st = (Ok (self', tok), st) /\
    cache_current self' st /\
    (nth_error rtgt p = Some tok \/
     (p = length rtgt /\ id = Dataset.EOS /\ tok = "EOS")).
Proof.
  intros Hc R [more Vt] Hpad Hpos.
  set (d := deref st (Dataset.tgt_vocab self)) in *.
  assert (Hinv : inverse_in_use self st = inverse d).
  { unfold inverse_in_use. destruct Hc as [Hc|Hc]; rewrite Hc; reflexivity. }
  rewrite tgt_reverse_lookup_spec, Hinv.
  eexists _, _. split; [reflexivity|]. split; [right; reflexivity|].
  destruct Hpos as [(tok & Et & Dt)|[[-> ->]|[_ ->]]].
  - left. rewrite Et. f_equal.
    unfold dict_get_or. rewrite (@inverse_lookup d tok id R Dt). reflexivity.
  - right. split; [reflexivity|]. split; [reflexivity|].
    unfold dict_get_or. rewrite (@inverse_lookup d "EOS" Dataset.EOS R).
    + reflexivity.
    + rewrite Vt. reflexivity.
  - congruence.
Qed.

(** C8: when the target vocabulary has not grown since the inverse
    mapping was cached, [tgt_reverse_lookup] sends every id of an encoded
    target row that is neither PAD nor UNK back to the token of its
    position, the id of the end marker going to the token EOS, in a
    training dataset and in a validation dataset built on it; the call
    leaves a cache that is still current; and an id that the inverse
    mapping in use lacks is answered with the text <UNK>, without
    failure. *)
Theorem C8_reverse_lookup_round_trip :
  (forall cfg stream st ds st' cache,
      Dataset.__init__ cfg stream st = (Ok ds, st') ->
      cache_current (with_tgt_inv_vocab ds cache) st' ->
      forall j rsrc rtgt esrc etgt p id,
        nth_error (Dataset.raw_samples ds) j = Some (rsrc, rtgt) ->
        nth_error (Dataset.samples ds) j = Some (esrc, etgt) ->
        nth_error etgt p = Some id ->
        id <> Dataset.PAD ->
        id <> Dataset.UNK ->
        exists self' tok,
          Dataset.tgt_reverse_lookup (with_tgt_inv_vocab ds cache) id st' =
            (Ok (self', tok), st') /\
          cache_current self' st' /\
          (nth_error rtgt p = Some tok \/
           (p = length rtgt /\ id = Dataset.EOS /\ tok = "EOS"))) /\
  (forall cfg stream st train_data st' valid_stream ds st'' cache,
      Dataset.__init__ cfg stream st = (Ok train_data, st') ->
      ValidationDataset.__init__ train_data valid_stream st' = (Ok ds, st'') ->
      cache_current (with_tgt_inv_vocab ds cache) st'' ->
      forall j rsrc rtgt esrc etgt p id,
        nth_error (Dataset.raw_samples ds) j = Some (rsrc, rtgt) ->
        nth_error (Dataset.samples ds) j = Some (esrc, etgt) ->
        nth_error etgt p = Some id ->
        id <> Dataset.PAD ->
        id <> Dataset.UNK ->
        exists self' tok,
          Dataset.tgt_reverse_lookup (with_tgt_inv_vocab ds cache) id st'' =
            (Ok (self', tok), st'') /\
          cache_current self' st'' /\
          (nth_error rtgt p = Some tok \/
           (p = length rtgt /\ id = Dataset.EOS /\ tok = "EOS"))) /\
  (forall self idx st,
      dict_get (inverse_in_use self st) idx = None ->
      exists self',
        Dataset.tgt_reverse_lookup self idx st = (Ok (self', "<UNK>"), st)).
Proof.
  split; [|split].
  - intros cfg stream st ds st' cache E Hc j rsrc rtgt esrc etgt p id
      Rj Sj Hp Hpad Hunk.
    destruct (init_built _ _ _ E) as (raw & _ & B).
    destruct (built_vocabularies _ _ _ _ _ B) as [_ Vt].
    destruct B as ((_ & Er & _) & _ & _ & _ & _ & _ & _ & [_ Rt] & F).
    rewrite Er in Rj. pose proof (Forall2_nth_error _ F Rj Sj) as Ej.
    apply round_trip; try assumption.
    exact (encoded_target_position p Ej Hp).
  - intros cfg stream st train st' vstream ds st'' cache E Ev Hc
      j rsrc rtgt esrc etgt p id Rj Sj Hp Hpad Hunk.
    destruct (init_built _ _ _ E) as (raw & _ & B).
    destruct (built_vocabularies _ _ _ _ _ B) as [_ Vt].
    destruct B as (_ & _ & _ & _ & _ & _ & _ & [_ Rt] & _).
    unfold ValidationDataset.__init__ in Ev.
    destruct (load_Ok_inv _ _ _ _ Ev) as [Hne Hall].
    match type of Ev with
    | Dataset.load_data_from_stream ?self _ _ _ = _ =>
        destruct (load_frozen_Ok self st' Hne Hall)
          as (vraw & ds2 & _ & E2 & Er & Evt & _ & F)
    end.
    rewrite Ev in E2. injection E2 as <- <-. simpl in Evt, F.
    rewrite Er in Rj. pose proof (Forall2_nth_error _ F Rj Sj) as Ej.
    apply round_trip; simpl; rewrite ?Evt; try assumption.
    destruct (frozen_target_position _ _ _ _ _ _ p id Ej Hp)
      as [(tok & Et & Did)|H];
      [|right; exact H].
    left. exists tok. split; [exact Et|]. simpl in Did.
    unfold dict_get_or in Did.
    destruct (dict_get (deref st'' (Dataset.tgt_vocab train)) tok) as [i|];
      congruence.
  - intros self idx st Hn. rewrite tgt_reverse_lookup_spec.
    unfold dict_get_or. rewrite Hn. eauto.
Qed.

Lemma C8_reverse_lookup_round_trip_witness :
  (exists self' tok,
      Dataset.tgt_reverse_lookup (with_tgt_inv_vocab two_lines_ds None) 5
        two_lines_store = (Ok (self', tok), two_lines_store) /\
      cache_current self' two_lines_store /\
      (nth_error ["x"; "y"] 1 = Some tok \/
       (1 = length ["x"; "y"] /\ 5 = Dataset.EOS /\ tok = "EOS"))) /\
  (exists self',
      Dataset.tgt_reverse_lookup two_lines_ds 9 two_lines_store =
      (Ok (self', "<UNK>"), two_lines_store)).
Proof.
  split.
  - apply (proj1 C8_reverse_lookup_round_trip cfg_separate two_lines []
             two_lines_ds two_lines_store None eq_refl (or_introl eq_refl)
             0 ["a"; "b"; "c"] ["x"; "y"] [4; 5; 6] [4; 5; 2] 1 5);
      try reflexivity; discriminate.
  - apply (proj2 (proj2 C8_reverse_lookup_round_trip)). reflexivity.
Defined.

(* ################################################################# *)
(** * Batches *)

Lemma constructed_loaded (ds : Dataset.t) :
  constructed ds -> exists raw, loaded raw ds.
Proof.
  intros [(cfg & stream & st & st' & E)|(train & stream & st & st' & E)].
  - destruct (init_built _ _ _ E) as (raw & _ & B).
    exists raw. apply B.
  - unfold ValidationDataset.__init__ in E.
    destruct (load_Ok_inv _ _ _ _ E) as [Hne Hall].
    match type of E with
    | Dataset.load_data_from_stream ?self _ _ _ = _ =>
        destruct (load_Ok self true st Hne Hall)
          as (raw & ds2 & st2 & _ & E2 & Hl & _)
    end.
    rewrite E in E2. injection E2 as <- <-. eauto.
Qed.

Lemma drawn_from_length (ds : Dataset.t) (idx : list nat) (b : batch) :
  drawn_from ds idx b -> length (batch_samples b) = length idx.
Proof.
  intros D. rewrite (@drawn_from_samples ds idx b D). apply length_map.
Qed.

Lemma chunk_length (ds : Dataset.t) (batch_size i : nat) :
  0 < batch_size ->
  i * batch_size < length (Dataset.samples ds) ->
  1 <= length (chunk ds batch_size i) <= batch_size.
Proof.
  intros Hb Hi. unfold chunk, range. rewrite length_seq. nia.
Qed.

(** C4: for every loaded dataset of N samples and every batch size of at
    least 1, [batched_iter] yields exactly ceil(N / batch_size) batches,
    each of 1 to batch_size samples, and the samples of all the batches
    put together are the samples of the dataset, each one once. *)
Theorem C4_batched_iter_covers_samples :
  forall (ds : Dataset.t) (batch_size : nat),
    constructed ds ->
    1 <= batch_size ->
    exists batches,
      Dataset.batched_iter ds batch_size = Ok batches /\
      length batches = ceil_div (length (Dataset.samples ds)) batch_size /\
      length (Dataset.samples ds) <= length batches * batch_size /\
      length batches * batch_size < length (Dataset.samples ds) + batch_size /\
      Forall (fun b => 1 <= length (batch_samples b) <= batch_size) batches /\
      Permutation (concat (map batch_samples batches)) (Dataset.samples ds).
Proof.
  intros ds batch_size Hc Hb.
  destruct (constructed_loaded _ Hc) as [raw Hl].
  destruct (@batched_iter_spec raw ds batch_size Hl Hb) as (batches & E & F).
  exists batches. split; [exact E|].
  assert (L : length batches =
              ceil_div (length (Dataset.samples ds)) batch_size).
  { rewrite <- (Forall2_length F). apply length_seq. }
  pose proof (ceil_div_bounds (length (Dataset.samples ds)) Hb) as [B1 B2].
  split; [exact L|]. rewrite L. split; [exact B1|]. split; [exact B2|].
  split.
  - clear E L.
    assert (Hs : Forall (fun i => i * batch_size < length (Dataset.samples ds))
                   (seq 0 (ceil_div (length (Dataset.samples ds)) batch_size))).
    { apply Forall_forall. intros i Hi. apply in_seq in Hi. nia. }
    induction F as [|i b seqs bats D _ IH]; constructor.
    + rewrite (drawn_from_length ds _ b D).
      unfold by_length. rewrite sorted_length.
      apply chunk_length; [exact Hb|]. inversion Hs; assumption.
    + apply IH. inversion Hs; assumption.
  - exact (@batched_iter_cover raw ds batch_size batches Hl Hb F).
Qed.

Lemma C4_batched_iter_covers_samples_witness :
  exists batches,
    Dataset.batched_iter two_lines_ds 1 = Ok batches /\
    length batches = ceil_div (length (Dataset.samples two_lines_ds)) 1 /\
    length (Dataset.samples two_lines_ds) <= length batches * 1 /\
    length batches * 1 < length (Dataset.samples two_lines_ds) + 1 /\
    Forall (fun b => 1 <= length (batch_samples b) <= 1) batches /\
    Permutation (concat (map batch_samples batches))
      (Dataset.samples two_lines_ds).
Proof.
  apply C4_batched_iter_covers_samples.
  - left. exists cfg_separate, two_lines, [], two_lines_store. reflexivity.
  - apply le_n.
Defined.

(** The dataset records, for every sample, the count of its source
    tokens and the count of its target tokens plus one. *)
Lemma loaded_true_lengths (raw : list raw_sample) (ds : Dataset.t) :
  loaded raw ds ->
  Dataset.src_seqlen ds =
    map (fun s => length (fst s)) (Dataset.raw_samples ds) /\
  Dataset.tgt_seqlen ds =
    map (fun s => length (snd s) + 1) (Dataset.raw_samples ds).
Proof. intros (_ & -> & _ & _ & -> & -> & _). auto. Qed.

Lemma get_random_batch_zero (ds : Dataset.t) (rnd : nat -> nat) :
  Dataset.get_random_batch ds 0 rnd = Raise IndexError.
Proof.
  unfold Dataset.get_random_batch, random_choice.
  rewrite andb_false_r. reflexivity.
Qed.

(** C5: in every batch that [batched_iter] or [get_random_batch]
    produces, the source lengths returned are in descending order along
    the sample axis, and the source column, the target column, the source
    length and the target length of a position all belong to one sample
    of the dataset; the lengths are the true lengths recorded at load
    time.  Both producers do produce batches when the batch size is at
    least 1. *)
Theorem C5_batches_sorted_and_aligned :
  forall (ds : Dataset.t),
    constructed ds ->
    (Dataset.src_seqlen ds =
       map (fun s => length (fst s)) (Dataset.raw_samples ds) /\
     Dataset.tgt_seqlen ds =
       map (fun s => length (snd s) + 1) (Dataset.raw_samples ds)) /\
    (forall batch_size batches,
        Dataset.batched_iter ds batch_size = Ok batches ->
        Forall (fun b => StronglySorted ge (batch_src_len b) /\
                         exists idx, drawn_from ds idx b) batches) /\
    (forall batch_size rnd b,
        Dataset.get_random_batch ds batch_size rnd = Ok b ->
        StronglySorted ge (batch_src_len b) /\
        exists idx, length idx = batch_size /\ drawn_from ds idx b) /\
    (forall batch_size,
        1 <= batch_size ->
        (exists batches, Dataset.batched_iter ds batch_size = Ok batches) /\
        (forall rnd, exists b,
            Dataset.get_random_batch ds batch_size rnd = Ok b)).
Proof.
  intros ds Hc. destruct (constructed_loaded _ Hc) as [raw Hl].
  split; [exact (loaded_true_lengths _ _ Hl)|].
  split.
  { intros batch_size batches E.
    destruct batch_size as [|n]; [discriminate E|].
    destruct (@batched_iter_spec raw ds (S n) Hl) as (batches2 & E2 & F); [lia|].
    rewrite E in E2. injection E2 as <-. clear E.
    induction F as [|i b seqs bats D _ IH]; constructor.
    - split; [exact (@drawn_from_descending ds _ b D)|eauto].
    - apply IH. }
  split.
  { intros batch_size rnd b E.
    destruct batch_size as [|n];
      [rewrite get_random_batch_zero in E; discriminate|].
    destruct (@get_random_batch_spec raw ds (S n) rnd Hl)
      as (idx & b2 & E0 & E2 & D); [lia|].
    rewrite E in E2. injection E2 as <-.
    split; [exact (@drawn_from_descending ds _ b D)|].
    exists (by_length ds idx). split; [|exact D].
    unfold by_length. rewrite sorted_length.
    destruct (@random_choice_Ok rnd (length (Dataset.samples ds)) (S n))
      as (idx2 & E3 & L & _).
    { destruct (loaded_lengths Hl) as (-> & _ & _ & Hpos). exact Hpos. }
    congruence. }
  intros batch_size Hb. split.
  - destruct (@batched_iter_spec raw ds batch_size Hl Hb) as (batches & E & _).
    eauto.
  - intros rnd.
    destruct (@get_random_batch_spec raw ds batch_size rnd Hl Hb)
      as (idx & b & _ & E & _).
    eauto.
Qed.

Lemma C5_batches_sorted_and_aligned_witness :
  (exists batches, Dataset.batched_iter two_lines_ds 2 = Ok batches) /\
  (forall rnd, exists b, Dataset.get_random_batch two_lines_ds 2 rnd = Ok b).
Proof.
  refine (proj2 (proj2 (proj2 (C5_batches_sorted_and_aligned two_lines_ds _)))
            2 _).
  - left. exists cfg_separate, two_lines, [], two_lines_store. reflexivity.
  - apply le_S, le_n.
Defined.

(* ################################################################# *)
(** * The inference dataset *)

(** C9, as the code has it: for every inference input that has a line,
    [InferenceDataset] keeps each full line (its trailing newline
    stripped, no split at tabs or spaces) as one sample, puts the samples
    in descending order of character length, and records for every
    sample of the sorted order the index of its line; three lines of 5,
    2 and 8 characters come out as (line 3, line 1, line 2) with the
    indices (2, 0, 1). *)
Theorem C9_inference_samples_sorted_by_length :
  (forall stream : list string,
      stream <> [] ->
      exists len_mapping samples,
        InferenceDataset.load_data_from_stream stream =
          Ok (map (rstrip newline) stream, len_mapping, samples) /\
        Permutation samples (map (rstrip newline) stream) /\
        Permutation len_mapping (seq 0 (length stream)) /\
        Forall2 (fun i s => nth_error (map (rstrip newline) stream) i = Some s)
          len_mapping samples /\
        StronglySorted ge (map String.length samples) /\
        forall fs cfg src_vocab,
          InferenceDataset.load_src_vocab fs cfg = Ok src_vocab ->
          InferenceDataset.__init__ fs cfg stream =
          Ok {| InferenceDataset.cfg := cfg;
                InferenceDataset.src_vocab := src_vocab;
                InferenceDataset.raw_samples := map (rstrip newline) stream;
                InferenceDataset.len_mapping := len_mapping;
                InferenceDataset.samples := samples |}) /\
  InferenceDataset.load_data_from_stream three_lines =
    Ok (["abcde"; "ab"; "abcdefgh"], [2; 0; 1], ["abcdefgh"; "abcde"; "ab"]).
Proof.
  split; [|reflexivity].
  intros stream Hne.
  set (raw := map (rstrip newline) stream).
  set (s := sorted (fun x => (- Z.of_nat (String.length (snd x)))%Z)
              (enumerate raw)).
  exists (map fst s), (map snd s).
  pose proof (sorted_perm (fun x => (- Z.of_nat (String.length (snd x)))%Z)
                (enumerate raw)) as P.
  fold s in P.
  split; [exact (inference_load_Ok Hne)|].
  split.
  { apply (Permutation_trans (l' := map snd (enumerate raw))).
    - apply Permutation_map. exact P.
    - rewrite enumerate_snd. reflexivity. }
  split.
  { apply (Permutation_trans (l' := map fst (enumerate raw))).
    - apply Permutation_map. exact P.
    - rewrite enumerate_fst. unfold raw. rewrite length_map. reflexivity. }
  split.
  { assert (F : Forall (fun x => nth_error raw (fst x) = Some (snd x)) s).
    { apply Forall_forall. intros [i x] Hx. simpl.
      apply enumerate_In. exact (Permutation_in _ P Hx). }
    clear P. induction F as [|x s' Hx _ IH]; simpl; constructor; assumption. }
  split.
  { rewrite map_map.
    exact (sorted_neg_descending (fun x => String.length (snd x))
             (enumerate raw)). }
  intros fs cfg src_vocab Ev. unfold InferenceDataset.__init__.
  rewrite Ev. simpl rbind. rewrite (inference_load_Ok Hne). reflexivity.
Qed.

Lemma C9_inference_samples_sorted_by_length_witness :
  exists len_mapping samples,
    InferenceDataset.load_data_from_stream three_lines =
      Ok (map (rstrip newline) three_lines, len_mapping, samples) /\
    Permutation samples (map (rstrip newline) three_lines) /\
    Permutation len_mapping (seq 0 (length three_lines)) /\
    Forall2 (fun i s => nth_error (map (rstrip newline) three_lines) i = Some s)
      len_mapping samples /\
    StronglySorted ge (map String.length samples) /\
    forall fs cfg src_vocab,
      InferenceDataset.load_src_vocab fs cfg = Ok src_vocab ->
      InferenceDataset.__init__ fs cfg three_lines =
      Ok {| InferenceDataset.cfg := cfg;
            InferenceDataset.src_vocab := src_vocab;
            InferenceDataset.raw_samples := map (rstrip newline) three_lines;
            InferenceDataset.len_mapping := len_mapping;
            InferenceDataset.samples := samples |}.
Proof.
  apply (proj1 C9_inference_samples_sorted_by_length). discriminate.
Defined.

(** C9, as stated for every input, fails on the input without lines: the
    constructor raises and stores nothing, although the vocabulary file
    is read without error. *)
Lemma C9_inference_empty_counterexample :
  (exists src_vocab,
      InferenceDataset.load_src_vocab one_vocab_file cfg_separate = Ok src_vocab) /\
  InferenceDataset.__init__ one_vocab_file cfg_separate [] =
    Raise (ValueError (not_enough_values 2 0)) /\
  ~ (exists ds, InferenceDataset.__init__ one_vocab_file cfg_separate [] = Ok ds).
Proof.
  split; [eexists; reflexivity|]. split; [reflexivity|].
  intros [ds E]. discriminate E.
Qed.

(* ################################################################# *)
(** * Further properties of the loader *)

(** A dataset that a constructor has returned was loaded from a stream
    of parsed lines. *)
Lemma constructed_parsed (ds : Dataset.t) :
  constructed ds ->
  exists stream raw,
    mapR Dataset.parse_line stream = Ok raw /\ loaded raw ds.
Proof.
  intros [(cfg & stream & st & st' & E)|(train & stream & st & st' & E)].
  - destruct (init_built _ _ _ E) as (raw & Ep & B).
    exists stream, raw. split; [exact Ep|apply B].
  - unfold ValidationDataset.__init__ in E.
    destruct (load_Ok_inv _ _ _ _ E) as [Hne Hall].
    match type of E with
    | Dataset.load_data_from_stream ?self _ _ _ = _ =>
        destruct (load_Ok self true st Hne Hall)
          as (raw & ds2 & st2 & Ep & E2 & Hl & _)
    end.
    rewrite E in E2. injection E2 as <- <-. eauto.
Qed.

(** What the constructor leaves in the configuration. *)
Lemma init_sizes (cfg : Config) (stream : list string) (st st' : store)
  (ds : Dataset.t) :
  Dataset.__init__ cfg stream st = (Ok ds, st') ->
  input_size (Dataset.cfg ds) =
    Some (length (deref st' (Dataset.src_vocab ds))) /\
  output_size (Dataset.cfg ds) =
    Some (length (deref st' (Dataset.tgt_vocab ds))) /\
  src_vocab_file (Dataset.cfg ds) = src_vocab_file cfg.
Proof.
  intros E. rewrite init_unfold in E. unfold bind at 1 in E.
  destruct (Dataset.load_data_from_stream (init_self cfg st) stream false
              (init_store cfg st)) as [[self|e] st1] eqn:El; [|discriminate].
  destruct (load_Ok_inv _ _ _ _ El) as [Hne Hall].
  destruct (load_Ok (init_self cfg st) false (init_store cfg st) Hne Hall)
    as (raw & self2 & st2 & _ & El2 & _ & (Hc & _) & _).
  rewrite El in El2. injection El2 as <- <-.
  unfold Dataset.update_config, bind, vocab_len, ret in E.
  injection E as <- <-. simpl. rewrite Hc. auto.
Qed.


(** X1: the constructor of [Dataset] writes the final sizes of the two
    vocabularies into the configuration: [input_size] is the size of the
    source vocabulary and [output_size] that of the target vocabulary,
    each the count of the reserved tokens and of the distinct tokens met
    through the role, hence at least 4; with a shared vocabulary the two
    sizes are equal. *)
Theorem X1_sizes_written_back :
  forall cfg stream st ds st' raw,
    Dataset.__init__ cfg stream st = (Ok ds, st') ->
    mapR Dataset.parse_line stream = Ok raw ->
    input_size (Dataset.cfg ds) =
      Some (length (first_seen reserved
                      (if share_vocab cfg then all_encounters raw
                       else src_encounters raw))) /\
    output_size (Dataset.cfg ds) =
      Some (length (first_seen reserved
                      (if share_vocab cfg then all_encounters raw
                       else tgt_encounters raw))) /\
    input_size (Dataset.cfg ds) =
      Some (length (deref st' (Dataset.src_vocab ds))) /\
    output_size (Dataset.cfg ds) =
      Some (length (deref st' (Dataset.tgt_vocab ds))) /\
    4 <= length (deref st' (Dataset.src_vocab ds)) /\
    4 <= length (deref st' (Dataset.tgt_vocab ds)) /\
    (share_vocab cfg = true ->
     input_size (Dataset.cfg ds) = output_size (Dataset.cfg ds)).
Proof.
  intros cfg stream st ds st' raw E Ep.
  destruct (init_sizes _ _ _ _ _ E) as (Ei & Eo & _).
  destruct (init_first_seen _ _ _ _ _ _ E Ep) as [Vs Vt].
  destruct (init_built _ _ _ E) as (raw2 & _ & B).
  destruct (built_vocabularies _ _ _ _ _ B) as [[ms Cs] [mt Ct]].
  assert (Ln : forall keys, length (numbered keys) = length keys).
  { intros keys. unfold numbered.
    rewrite length_combine, length_seq. apply Nat.min_id. }
  split; [rewrite Ei, Vs, Ln; reflexivity|].
  split; [rewrite Eo, Vt, Ln; reflexivity|].
  split; [exact Ei|]. split; [exact Eo|].
  split; [rewrite Cs, length_app; simpl; lia|].
  split; [rewrite Ct, length_app; simpl; lia|].
  intros Hs. rewrite Ei, Eo, Vs, Vt, Hs. reflexivity.
Qed.

Lemma X1_sizes_written_back_witness :
  input_size (Dataset.cfg two_lines_ds) = Some 7 /\
  output_size (Dataset.cfg two_lines_ds) = Some 6.
Proof.
  destruct (X1_sizes_written_back cfg_separate two_lines [] two_lines_ds
              two_lines_store
              [(["a"; "b"; "c"], ["x"; "y"]); (["a"; "b"], ["x"])]
              eq_refl eq_refl) as (Ei & Eo & _).
  split; [exact Ei|exact Eo].
Defined.







Lemma parsed_tokens (stream : list string) (raw : list raw_sample) :
  mapR Dataset.parse_line stream = Ok raw ->
  Forall (fun s => 1 <= length (fst s) /\ 1 <= length (snd s)) raw.
Proof.
  intros E. apply mapR_Ok_Forall2 in E.
  induction E as [|line s stream raw Hs _ IH]; constructor.
  - exact (parse_line_tokens line Hs).
  - exact IH.
Qed.

Lemma nth_error_repeat_Some {A : Type} (x : A) (n p : nat) :
  p < n -> nth_error (repeat x n) p = Some x.
Proof.
  revert p. induction n as [|n IH]; intros [|p] Hp; simpl; try lia; auto.
  apply IH. lia.
Qed.

Lemma list_max_attained (l : list nat) : l <> [] -> In (list_max l) l.
Proof.
  induction l as [|x l IH]; [congruence|]. intros _.
  destruct l as [|y l].
  - left. simpl. lia.
  - change (list_max (x :: y :: l)) with (Nat.max x (list_max (y :: l))).
    destruct (Nat.max_spec x (list_max (y :: l))) as [[_ ->]|[_ ->]].
    + right. apply IH. discriminate.
    + left. reflexivity.
Qed.

(** X3: the recorded lengths mark where the padding begins.  In a
    dataset that a constructor has returned, the sample [j] has a source
    length equal to its count of source tokens, at least 1 and at most
    [src_maxlen], and a target length equal to its count of target
    tokens plus one, at most [tgt_maxlen]; its source row holds PAD at
    every position from the source length on, its target row holds EOS
    at the last position below the target length and PAD from the target
    length on; and some sample reaches each of the two maxima. *)
Theorem X3_lengths_mark_the_padding :
  forall ds : Dataset.t,
    constructed ds ->
    (forall j rs rt es et,
        nth_error (Dataset.raw_samples ds) j = Some (rs, rt) ->
        nth_error (Dataset.samples ds) j = Some (es, et) ->
        nth_error (Dataset.src_seqlen ds) j = Some (length rs) /\
        nth_error (Dataset.tgt_seqlen ds) j = Some (length rt + 1) /\
        1 <= length rs <= Dataset.src_maxlen ds /\
        2 <= length rt + 1 <= Dataset.tgt_maxlen ds /\
        (forall p, length rs <= p < Dataset.src_maxlen ds ->
                   nth_error es p = Some Dataset.PAD) /\
        nth_error et (length rt) = Some Dataset.EOS /\
        (forall p, length rt + 1 <= p < Dataset.tgt_maxlen ds ->
                   nth_error et p = Some Dataset.PAD)) /\
    (exists s, In s (Dataset.raw_samples ds) /\
               length (fst s) = Dataset.src_maxlen ds) /\
    (exists s, In s (Dataset.raw_samples ds) /\
               length (snd s) + 1 = Dataset.tgt_maxlen ds).
Proof.
  intros ds Hc.
  destruct (constructed_parsed ds Hc) as (stream & raw & Ep & Hl).
  pose proof (parsed_tokens _ _ Ep) as Tok.
  destruct Hl as (Hne & Er & Es & Et & Ess & Ets & W).
  rewrite Er, Ess, Ets.
  split; [|split].
  - intros j rs rt es et Rj Sj.
    pose proof (Forall2_nth_error _ W Rj Sj) as (sids & tids & Ls & Lt & Ee).
    simpl in Ls, Lt. injection Ee as -> ->.
    pose proof (nth_error_In _ _ Rj) as Hin.
    rewrite Forall_forall in Tok. destruct (Tok _ Hin) as [T1 T2].
    simpl in T1, T2.
    pose proof (list_max_map_bound (fun s => length (fst s)) raw _ Hin) as Bs.
    pose proof (list_max_map_bound (fun s => length (snd s)) raw _ Hin) as Bt.
    simpl in Bs, Bt. rewrite <- Es in Bs.
    assert (Bt' : length rt <= Dataset.tgt_maxlen ds - 1)
      by (rewrite Et; lia).
    split; [exact (map_nth_error (fun s => length (fst s)) _ _ Rj)|].
    split; [exact (map_nth_error (fun s => length (snd s) + 1) _ _ Rj)|].
    split; [lia|]. split; [lia|]. split; [|split].
    + intros p Hp. rewrite nth_error_app2 by lia.
      apply nth_error_repeat_Some. lia.
    + rewrite nth_error_app1 by (rewrite length_app; simpl; lia).
      rewrite nth_error_app2 by lia.
      rewrite Lt, Nat.sub_diag. reflexivity.
    + intros p Hp. rewrite nth_error_app2 by (rewrite length_app; simpl; lia).
      apply nth_error_repeat_Some. rewrite length_app. simpl. lia.
  - rewrite Es.
    assert (Hm : map (fun s : raw_sample => length (fst s)) raw <> [])
      by (destruct raw; [congruence|discriminate]).
    apply list_max_attained in Hm. apply in_map_iff in Hm.
    destruct Hm as (s & E & Hin). eauto.
  - rewrite Et.
    assert (Hm : map (fun s : raw_sample => length (snd s)) raw <> [])
      by (destruct raw; [congruence|discriminate]).
    apply list_max_attained in Hm. apply in_map_iff in Hm.
    destruct Hm as (s & E & Hin). cbv beta in E.
    exists s. split; [exact Hin|exact (f_equal (fun n => n + 1) E)].
Qed.

Lemma X3_lengths_mark_the_padding_witness :
  nth_error [4; 5; 0] 2 = Some Dataset.PAD /\
  nth_error [4; 2; 0] 1 = Some Dataset.EOS.
Proof.
  destruct (X3_lengths_mark_the_padding two_lines_ds) as (H & _).
  - left. exists cfg_separate, two_lines, [], two_lines_store. reflexivity.
  - destruct (H 1 ["a"; "b"] ["x"] [4; 5; 0] [4; 2; 0] eq_refl eq_refl)
      as (_ & _ & _ & _ & Hp & He & _).
    split; [apply Hp; simpl; split; apply le_n|exact He].
Defined.

(* ################################################################# *)
(** * The validation dataset *)

(** A load with the vocabularies frozen returns or raises in the store
    it began with. *)
Lemma load_frozen_store (self : Dataset.t) (stream : list string)
  (st st' : store) (r : result Dataset.t) :
  Dataset.load_data_from_stream self stream true st = (r, st') -> st' = st.
Proof.
  intros E. destruct (mapR Dataset.parse_line stream) as [raw|e] eqn:Ep.
  - destruct stream as [|line stream].
    + rewrite load_empty in E. injection E as _ <-. reflexivity.
    + destruct (mapR_parse_line_Ok_inv _ Ep) as [Hall _].
      destruct (@load_frozen_Ok self (line :: stream) st)
        as (raw2 & ds & _ & E2 & _); [discriminate|exact Hall|].
      rewrite E in E2. injection E2 as _ ->. reflexivity.
  - rewrite (@load_unparsed self stream true st e Ep) in E.
    injection E as _ <-. reflexivity.
Qed.

(** X4: building a validation dataset never changes a vocabulary:
    whatever the stream (tokens that the training data lacks, ill-formed
    lines, no line at all) and whether the constructor returns or
    raises, the store is left as it was, so that every later lookup
    through the training dataset answers as before. *)
Theorem X4_validation_never_mutates :
  forall train_data stream st r st',
    ValidationDataset.__init__ train_data stream st = (r, st') ->
    st' = st /\
    forall tok frozen,
      Dataset.src_lookup train_data tok frozen st' =
        Dataset.src_lookup train_data tok frozen st /\
      Dataset.tgt_lookup train_data tok frozen st' =
        Dataset.tgt_lookup train_data tok frozen st.
Proof.
  intros train stream st r st' E. unfold ValidationDataset.__init__ in E.
  apply load_frozen_store in E. subst st'. auto.
Qed.

Lemma X4_validation_never_mutates_witness :
  two_lines_store = two_lines_store /\
  forall tok frozen,
    Dataset.src_lookup two_lines_ds tok frozen two_lines_store =
      Dataset.src_lookup two_lines_ds tok frozen two_lines_store /\
    Dataset.tgt_lookup two_lines_ds tok frozen two_lines_store =
      Dataset.tgt_lookup two_lines_ds tok frozen two_lines_store.
Proof.
  exact (X4_validation_never_mutates two_lines_ds valid_lines two_lines_store
           (Ok valid_ds) two_lines_store eq_refl).
Defined.

(** X5: on a stream that has a line, each line with one tab, the
    constructor of [ValidationDataset] returns a dataset that holds the
    configuration and the two vocabulary references of the training
    dataset and no inverse mapping of its own; its rows are padded to the
    maxima of its own stream, not to those of the training data: every
    source row has the length of the longest validation source, every
    target row that of the longest validation target plus one. *)
Theorem X5_validation_rows :
  forall train_data stream st,
    stream <> [] ->
    Forall one_tab stream ->
    exists ds,
      ValidationDataset.__init__ train_data stream st = (Ok ds, st) /\
      Dataset.cfg ds = Dataset.cfg train_data /\
      Dataset.src_vocab ds = Dataset.src_vocab train_data /\
      Dataset.tgt_vocab ds = Dataset.tgt_vocab train_data /\
      Dataset.tgt_inv_vocab ds = None /\
      mapR Dataset.parse_line stream = Ok (Dataset.raw_samples ds) /\
      Dataset.src_maxlen ds =
        list_max (map (fun s => length (fst s)) (Dataset.raw_samples ds)) /\
      Dataset.tgt_maxlen ds =
        list_max (map (fun s => length (snd s)) (Dataset.raw_samples ds)) + 1 /\
      Forall (fun e => length (fst e) = Dataset.src_maxlen ds /\
                       length (snd e) = Dataset.tgt_maxlen ds)
        (Dataset.samples ds).
Proof.
  intros train stream st Hne Hall. unfold ValidationDataset.__init__.
  match goal with
  | |- context [Dataset.load_data_from_stream ?self _ _ _] =>
      destruct (load_Ok self true st Hne Hall)
        as (raw & ds & st' & Ep & El & Hl & (Hc & Hs & Ht & Hi) & _ & _ & Hst & _)
  end.
  rewrite (Hst eq_refl) in El. exists ds. split; [exact El|].
  simpl in Hc, Hs, Ht, Hi.
  pose proof (loaded_rows Hl) as Rows.
  destruct Hl as (_ & Er & Es & Et & _).
  rewrite Er. repeat split; assumption.
Qed.

Lemma X5_validation_rows_witness :
  exists ds,
    ValidationDataset.__init__ two_lines_ds valid_lines two_lines_store =
      (Ok ds, two_lines_store) /\
    Dataset.cfg ds = Dataset.cfg two_lines_ds /\
    Dataset.src_vocab ds = Dataset.src_vocab two_lines_ds /\
    Dataset.tgt_vocab ds = Dataset.tgt_vocab two_lines_ds /\
    Dataset.tgt_inv_vocab ds = None /\
    mapR Dataset.parse_line valid_lines = Ok (Dataset.raw_samples ds) /\
    Dataset.src_maxlen ds =
      list_max (map (fun s => length (fst s)) (Dataset.raw_samples ds)) /\
    Dataset.tgt_maxlen ds =
      list_max (map (fun s => length (snd s)) (Dataset.raw_samples ds)) + 1 /\
    Forall (fun e => length (fst e) = Dataset.src_maxlen ds /\
                     length (snd e) = Dataset.tgt_maxlen ds)
      (Dataset.samples ds).
Proof.
  apply X5_validation_rows.
  - discriminate.
  - repeat constructor.
Defined.

(** The id at a position of a row encoded with frozen vocabularies. *)
Lemma frozen_positions (d_src d_tgt : vocab) (smax tmax : nat)
  (raw : raw_sample) (e : sample) :
  encoded_frozen d_src d_tgt smax tmax raw e ->
  (forall p tok,
      nth_error (fst raw) p = Some tok ->
      nth_error (fst e) p = Some (dict_get_or d_src tok Dataset.UNK)) /\
  (forall p tok,
      nth_error (snd raw) p = Some tok ->
      nth_error (snd e) p = Some (dict_get_or d_tgt tok Dataset.UNK)).
Proof.
  intros (Ls & Lt & ->). simpl. rewrite length_map in Ls, Lt. split.
  - intros p tok E.
    assert (Hp : p < length (fst raw)) by (apply nth_error_Some; congruence).
    rewrite nth_error_app1 by (rewrite length_map; exact Hp).
    exact (map_nth_error _ _ _ E).
  - intros p tok E.
    assert (Hp : p < length (snd raw)) by (apply nth_error_Some; congruence).
    rewrite <- app_assoc, nth_error_app1 by (rewrite length_map; exact Hp).
    exact (map_nth_error _ _ _ E).
Qed.

(** X6: a validation dataset encodes every token with the id that the
    vocabulary of the training dataset has for it, and with UNK when the
    vocabulary lacks it; a token that a training row holds therefore has
    in the validation rows the id it has in the training row. *)
Theorem X6_validation_ids :
  (forall train_data valid_stream st ds st',
      ValidationDataset.__init__ train_data valid_stream st = (Ok ds, st') ->
      forall j rs rt es et,
        nth_error (Dataset.raw_samples ds) j = Some (rs, rt) ->
        nth_error (Dataset.samples ds) j = Some (es, et) ->
        (forall p tok,
            nth_error rs p = Some tok ->
            nth_error es p =
              Some (dict_get_or (deref st (Dataset.src_vocab train_data)) tok
                      Dataset.UNK)) /\
        (forall p tok,
            nth_error rt p = Some tok ->
            nth_error et p =
              Some (dict_get_or (deref st (Dataset.tgt_vocab train_data)) tok
                      Dataset.UNK))) /\
  (forall cfg stream st0 train_data st valid_stream ds st',
      Dataset.__init__ cfg stream st0 = (Ok train_data, st) ->
      ValidationDataset.__init__ train_data valid_stream st = (Ok ds, st') ->
      forall j rs rt es et k rs' rt' es' et' p q tok,
        nth_error (Dataset.raw_samples train_data) j = Some (rs, rt) ->
        nth_error (Dataset.samples train_data) j = Some (es, et) ->
        nth_error (Dataset.raw_samples ds) k = Some (rs', rt') ->
        nth_error (Dataset.samples ds) k = Some (es', et') ->
        nth_error rs p = Some tok ->
        nth_error rs' q = Some tok ->
        nth_error es' q = nth_error es p).
Proof.
  assert (Hv : forall train vstream st ds st',
             ValidationDataset.__init__ train vstream st = (Ok ds, st') ->
             forall j rs rt es et,
               nth_error (Dataset.raw_samples ds) j = Some (rs, rt) ->
               nth_error (Dataset.samples ds) j = Some (es, et) ->
               encoded_frozen (deref st (Dataset.src_vocab train))
                 (deref st (Dataset.tgt_vocab train))
                 (Dataset.src_maxlen ds) (Dataset.tgt_maxlen ds - 1)
                 (rs, rt) (es, et)).
  { intros train vstream st ds st' Ev j rs rt es et Rj Sj.
    unfold ValidationDataset.__init__ in Ev.
    destruct (load_Ok_inv _ _ _ _ Ev) as [Hne Hall].
    match type of Ev with
    | Dataset.load_data_from_stream ?self _ _ _ = _ =>
        destruct (load_frozen_Ok self st Hne Hall)
          as (vraw & ds2 & _ & E2 & Er & _ & _ & F)
    end.
    rewrite Ev in E2. injection E2 as <- <-. simpl in F.
    rewrite Er in Rj. exact (Forall2_nth_error _ F Rj Sj). }
  split.
  - intros train vstream st ds st' Ev j rs rt es et Rj Sj.
    exact (frozen_positions _ _ _ _ _ _ (Hv _ _ _ _ _ Ev _ _ _ _ _ Rj Sj)).
  - intros cfg stream st0 train st vstream ds st' E Ev
      j rs rt es et k rs' rt' es' et' p q tok Rj Sj Rk Sk Hp Hq.
    destruct (init_built _ _ _ E) as (raw & _ & B).
    destruct B as ((_ & Er & _) & _ & _ & _ & _ & _ & _ & _ & F).
    rewrite Er in Rj. pose proof (Forall2_nth_error _ F Rj Sj) as Ej.
    destruct (encoded_source_position _ _ _ _ _ _ _ _ Ej Hp) as (id & Hid & Did).
    destruct (frozen_positions _ _ _ _ _ _ (Hv _ _ _ _ _ Ev _ _ _ _ _ Rk Sk))
      as [Hs _].
    simpl in Hs, Hid. rewrite (Hs _ _ Hq), Hid.
    unfold dict_get_or. rewrite Did. reflexivity.
Qed.

Lemma X6_validation_ids_witness :
  nth_error [4; 3] 0 = Some 4 /\ nth_error [4; 3] 1 = Some Dataset.UNK.
Proof.
  destruct (proj1 X6_validation_ids two_lines_ds valid_lines two_lines_store
              valid_ds two_lines_store eq_refl
              0 ["a"; "d"] ["x"; "z"] [4; 3] [4; 3; 2] eq_refl eq_refl)
    as [Hs _].
  split; [exact (Hs 0 "a" eq_refl)|exact (Hs 1 "d" eq_refl)].
Defined.

(** X7: a validation dataset holds the vocabularies of the training
    dataset by reference, not as copies: a token that a growing lookup
    inserts through the validation dataset is found at once, with the
    same id, by a lookup through the training dataset, and conversely. *)
Theorem X7_validation_shares_vocabularies :
  forall train_data valid_stream st ds st',
    ValidationDataset.__init__ train_data valid_stream st = (Ok ds, st') ->
    Dataset.src_vocab ds = Dataset.src_vocab train_data /\
    Dataset.tgt_vocab ds = Dataset.tgt_vocab train_data /\
    (forall tok st1 i st2,
        Dataset.src_vocab train_data < length st1 ->
        Dataset.src_lookup ds tok false st1 = (Ok i, st2) ->
        Dataset.src_lookup train_data tok true st2 = (Ok i, st2) /\
        Dataset.src_lookup train_data tok false st2 = (Ok i, st2)) /\
    (forall tok st1 i st2,
        Dataset.src_vocab train_data < length st1 ->
        Dataset.src_lookup train_data tok false st1 = (Ok i, st2) ->
        Dataset.src_lookup ds tok true st2 = (Ok i, st2) /\
        Dataset.src_lookup ds tok false st2 = (Ok i, st2)).
Proof.
  intros train vstream st ds st' Ev. unfold ValidationDataset.__init__ in Ev.
  destruct (load_Ok_inv _ _ _ _ Ev) as [Hne Hall].
  match type of Ev with
  | Dataset.load_data_from_stream ?self _ _ _ = _ =>
      destruct (load_frozen_Ok self st Hne Hall)
        as (vraw & ds2 & _ & E2 & _ & Et & Es & _)
  end.
  rewrite Ev in E2. injection E2 as <- <-. simpl in Es, Et.
  split; [exact Es|]. split; [exact Et|].
  unfold Dataset.src_lookup. simpl. rewrite Es.
  split; intros tok st1 i st2 Hl L;
    pose proof (vocab_getitem_then_seen _ _ _ _ _ Hl L) as D;
    (split; [unfold vocab_get, dict_get_or; rewrite D; reflexivity
            |apply vocab_getitem_seen; exact D]).
Qed.

Lemma X7_validation_shares_vocabularies_witness :
  Dataset.src_vocab valid_ds = Dataset.src_vocab two_lines_ds /\
  Dataset.tgt_vocab valid_ds = Dataset.tgt_vocab two_lines_ds.
Proof.
  destruct (X7_validation_shares_vocabularies two_lines_ds valid_lines
              two_lines_store valid_ds two_lines_store eq_refl)
    as (Es & Et & _).
  split; [exact Es|exact Et].
Defined.

(* ################################################################# *)
(** * Separate vocabularies *)

Lemma vocab_getitem_frame (l l' : loc) (k : string) (st st' : store)
  (r : result nat) :
  l' <> l -> vocab_getitem l k st = (r, st') -> deref st' l' = deref st l'.
Proof.
  intros Hne. unfold vocab_getitem.
  destruct (dict_get (deref st l) k); intros E; injection E as _ <-.
  - reflexivity.
  - apply deref_assign_other. exact Hne.
Qed.

(** X8: without [share_vocab] the two vocabularies are two objects: a
    lookup through the source role, growing or frozen, leaves the target
    vocabulary as it is, and a lookup through the target role leaves the
    source vocabulary as it is. *)
Theorem X8_separate_vocabularies_do_not_interfere :
  forall cfg stream st ds st',
    share_vocab cfg = false ->
    Dataset.__init__ cfg stream st = (Ok ds, st') ->
    Dataset.src_vocab ds <> Dataset.tgt_vocab ds /\
    (forall tok frozen st1 r st2,
        Dataset.src_lookup ds tok frozen st1 = (r, st2) ->
        deref st2 (Dataset.tgt_vocab ds) = deref st1 (Dataset.tgt_vocab ds)) /\
    (forall tok frozen st1 r st2,
        Dataset.tgt_lookup ds tok frozen st1 = (r, st2) ->
        deref st2 (Dataset.src_vocab ds) = deref st1 (Dataset.src_vocab ds)).
Proof.
  intros cfg stream st ds st' Hs E.
  destruct (init_built _ _ _ E) as (raw & _ & B).
  destruct B as (_ & Es & Et & _).
  rewrite Hs in Et.
  assert (Hne : Dataset.src_vocab ds <> Dataset.tgt_vocab ds) by lia.
  split; [exact Hne|].
  split; intros tok [|] st1 r st2;
    unfold Dataset.src_lookup, Dataset.tgt_lookup; simpl; intros L.
  - injection L as _ <-. reflexivity.
  - apply (vocab_getitem_frame _ _ _ _ _ _ (not_eq_sym Hne) L).
  - injection L as _ <-. reflexivity.
  - apply (vocab_getitem_frame _ _ _ _ _ _ Hne L).
Qed.

Lemma X8_separate_vocabularies_do_not_interfere_witness :
  Dataset.src_vocab two_lines_ds <> Dataset.tgt_vocab two_lines_ds /\
  (forall tok frozen st1 r st2,
      Dataset.src_lookup two_lines_ds tok frozen st1 = (r, st2) ->
      deref st2 (Dataset.tgt_vocab two_lines_ds) =
      deref st1 (Dataset.tgt_vocab two_lines_ds)) /\
  (forall tok frozen st1 r st2,
      Dataset.tgt_lookup two_lines_ds tok frozen st1 = (r, st2) ->
      deref st2 (Dataset.src_vocab two_lines_ds) =
      deref st1 (Dataset.src_vocab two_lines_ds)).
Proof.
  exact (X8_separate_vocabularies_do_not_interfere cfg_separate
           two_lines [] two_lines_ds two_lines_store eq_refl eq_refl).
Defined.

(* ################################################################# *)
(** * Reproducible loads *)

Lemma ids_of_functional (d : vocab) (tokens : list string) (ids ids' : list nat) :
  ids_of d tokens ids -> ids_of d tokens ids' -> ids = ids'.
Proof.
  intros F. revert ids'. induction F as [|tok i tokens ids E _ IH];
    intros ids' F'; inversion F' as [|? i' ? ids2 E' F2]; subst.
  - reflexivity.
  - f_equal; [congruence|]. apply IH. exact F2.
Qed.

Lemma encoded_as_functional (d_src d_tgt : vocab) (smax tmax : nat)
  (raw : raw_sample) (e e' : sample) :
  encoded_as d_src d_tgt smax tmax raw e ->
  encoded_as d_src d_tgt smax tmax raw e' -> e = e'.
Proof.
  intros (sids & tids & (_ & _ & ->) & Fs & Ft)
         (sids' & tids' & (_ & _ & ->) & Fs' & Ft').
  rewrite (ids_of_functional _ _ _ _ Fs Fs'), (ids_of_functional _ _ _ _ Ft Ft').
  reflexivity.
Qed.

Lemma Forall2_functional {A B : Type} (R : A -> B -> Prop) (l : list A)
  (l1 l2 : list B) :
  (forall a b b', R a b -> R a b' -> b = b') ->
  Forall2 R l l1 -> Forall2 R l l2 -> l1 = l2.
Proof.
  intros HR F. revert l2. induction F as [|a b l l1 Rab _ IH];
    intros l2 F2; inversion F2 as [|? b' ? l2' Rab' F2']; subst.
  - reflexivity.
  - f_equal; [exact (HR _ _ _ Rab Rab')|]. apply IH. exact F2'.
Qed.

(** X9: what the constructor of [Dataset] builds depends on the stream
    and on the option [share_vocab] only, not on the objects that exist
    already: two datasets built from one stream under the same option, in
    any two stores, have the same raw and encoded samples, the same
    lengths, equal vocabularies and the same sizes in their
    configurations; and the second construction returns whenever the
    first does. *)
Theorem X9_construction_is_reproducible :
  forall cfg1 cfg2 stream st1 st2 ds1 st1',
    share_vocab cfg1 = share_vocab cfg2 ->
    Dataset.__init__ cfg1 stream st1 = (Ok ds1, st1') ->
    exists ds2 st2',
      Dataset.__init__ cfg2 stream st2 = (Ok ds2, st2') /\
      Dataset.raw_samples ds2 = Dataset.raw_samples ds1 /\
      Dataset.samples ds2 = Dataset.samples ds1 /\
      Dataset.src_maxlen ds2 = Dataset.src_maxlen ds1 /\
      Dataset.tgt_maxlen ds2 = Dataset.tgt_maxlen ds1 /\
      Dataset.src_seqlen ds2 = Dataset.src_seqlen ds1 /\
      Dataset.tgt_seqlen ds2 = Dataset.tgt_seqlen ds1 /\
      deref st2' (Dataset.src_vocab ds2) = deref st1' (Dataset.src_vocab ds1) /\
      deref st2' (Dataset.tgt_vocab ds2) = deref st1' (Dataset.tgt_vocab ds1) /\
      input_size (Dataset.cfg ds2) = input_size (Dataset.cfg ds1) /\
      output_size (Dataset.cfg ds2) = output_size (Dataset.cfg ds1).
Proof.
  intros cfg1 cfg2 stream st1 st2 ds1 st1' Hs E1.
  destruct (init_Ok_inv _ _ _ E1) as [Hne Hall].
  destruct (init_built _ _ _ E1) as (raw & Ep & B1).
  destruct (init_Ok cfg2 st2 Hne Hall) as (raw2 & ds2 & st2' & Ep2 & E2 & B2).
  rewrite Ep in Ep2. injection Ep2 as <-.
  exists ds2, st2'. split; [exact E2|].
  destruct (init_first_seen _ _ _ _ _ _ E1 Ep) as [Vs1 Vt1].
  destruct (init_first_seen _ _ _ _ _ _ E2 Ep) as [Vs2 Vt2].
  rewrite <- Hs in Vs2, Vt2.
  assert (Vs : deref st2' (Dataset.src_vocab ds2) =
               deref st1' (Dataset.src_vocab ds1)) by congruence.
  assert (Vt : deref st2' (Dataset.tgt_vocab ds2) =
               deref st1' (Dataset.tgt_vocab ds1)) by congruence.
  destruct (init_sizes _ _ _ _ _ E1) as (Ei1 & Eo1 & _).
  destruct (init_sizes _ _ _ _ _ E2) as (Ei2 & Eo2 & _).
  destruct B1 as ((_ & Er1 & Es1 & Et1 & Ess1 & Ets1 & _) & _ & _ & _ & _ & _ & _ & _ & F1).
  destruct B2 as ((_ & Er2 & Es2 & Et2 & Ess2 & Ets2 & _) & _ & _ & _ & _ & _ & _ & _ & F2).
  assert (Esm : Dataset.src_maxlen ds2 = Dataset.src_maxlen ds1) by congruence.
  assert (Etm : Dataset.tgt_maxlen ds2 = Dataset.tgt_maxlen ds1) by congruence.
  split; [congruence|]. split.
  { rewrite Vs, Vt, Esm, Etm in F2.
    exact (Forall2_functional _ _ _ _
             (encoded_as_functional _ _ _ _) F2 F1). }
  split; [exact Esm|]. split; [exact Etm|].
  split; [congruence|]. split; [congruence|].
  split; [exact Vs|]. split; [exact Vt|].
  split; congruence.
Qed.

Lemma X9_construction_is_reproducible_witness :
  exists ds2 st2',
    Dataset.__init__ cfg_separate two_lines two_lines_store = (Ok ds2, st2') /\
    Dataset.raw_samples ds2 = Dataset.raw_samples two_lines_ds /\
    Dataset.samples ds2 = Dataset.samples two_lines_ds /\
    Dataset.src_maxlen ds2 = Dataset.src_maxlen two_lines_ds /\
    Dataset.tgt_maxlen ds2 = Dataset.tgt_maxlen two_lines_ds /\
    Dataset.src_seqlen ds2 = Dataset.src_seqlen two_lines_ds /\
    Dataset.tgt_seqlen ds2 = Dataset.tgt_seqlen two_lines_ds /\
    deref st2' (Dataset.src_vocab ds2) =
      deref two_lines_store (Dataset.src_vocab two_lines_ds) /\
    deref st2' (Dataset.tgt_vocab ds2) =
      deref two_lines_store (Dataset.tgt_vocab two_lines_ds) /\
    input_size (Dataset.cfg ds2) = input_size (Dataset.cfg two_lines_ds) /\
    output_size (Dataset.cfg ds2) = output_size (Dataset.cfg two_lines_ds).
Proof.
  exact (X9_construction_is_reproducible cfg_separate cfg_separate two_lines
           [] two_lines_store two_lines_ds two_lines_store eq_refl eq_refl).
Defined.

(* ################################################################# *)
(** * Further properties of the reverse lookup *)


Lemma ranked_not_In_length (d : vocab) : ranked d -> ~ In (length d) (map snd d).
Proof. intros R H. rewrite R in H. apply in_seq in H. lia. Qed.








(** X11: the inverse mapping is built once and never refreshed.  After a
    first reverse lookup has cached it, a token that a growing lookup
    adds to the target vocabulary gets the next id, but the reverse
    lookup of this id through the same object still answers <UNK>; an
    object without the cache would answer with the token. *)
Theorem X11_cached_inverse_goes_stale :
  forall cfg stream st ds st' tok idx,
    Dataset.__init__ cfg stream st = (Ok ds, st') ->
    dict_get (deref st' (Dataset.tgt_vocab ds)) tok = None ->
    exists self1 answer n st2,
      Dataset.tgt_reverse_lookup ds idx st' = (Ok (self1, answer), st') /\
      Dataset.tgt_lookup self1 tok false st' = (Ok n, st2) /\
      Dataset.tgt_lookup self1 tok true st2 = (Ok n, st2) /\
      Dataset.tgt_reverse_lookup self1 n st2 = (Ok (self1, "<UNK>"), st2) /\
      exists self2,
        Dataset.tgt_reverse_lookup ds n st2 = (Ok (self2, tok), st2).
Proof.
  intros cfg stream st ds st' tok idx E Hnone.
  destruct (init_built _ _ _ E) as (raw & _ & B).
  destruct B as (_ & _ & _ & Hcache & _ & _ & _ & [Hl Rt] & _).
  set (l := Dataset.tgt_vocab ds) in *.
  set (d := deref st' l) in *.
  rewrite tgt_reverse_lookup_spec.
  unfold inverse_in_use. rewrite Hcache. fold l d.
  set (self1 := with_tgt_inv_vocab ds (Some (inverse d))).
  exists self1, (dict_get_or (inverse d) idx "<UNK>"), (length d),
    (assign st' l (d ++ [(tok, length d)])).
  split; [reflexivity|].
  assert (Hd2 : deref (assign st' l (d ++ [(tok, length d)])) l =
                d ++ [(tok, length d)])
    by (apply deref_assign_same; exact Hl).
  split.
  { unfold Dataset.tgt_lookup. simpl. fold l.
    exact (vocab_getitem_unseen l tok st' Hnone). }
  split.
  { unfold Dataset.tgt_lookup. simpl. fold l.
    unfold vocab_get, dict_get_or. rewrite Hd2.
    rewrite dict_get_app_None by exact Hnone. simpl.
    destruct (key_eq_dec tok tok); [reflexivity|congruence]. }
  split.
  { rewrite tgt_reverse_lookup_spec. unfold inverse_in_use. simpl.
    unfold dict_get_or.
    rewrite inverse_get_None by exact (ranked_not_In_length d Rt).
    reflexivity. }
  eexists. rewrite tgt_reverse_lookup_spec. unfold inverse_in_use.
  rewrite Hcache. fold l. rewrite Hd2, inverse_snoc.
  unfold dict_get_or. rewrite dict_get_set_same. reflexivity.
Qed.

Lemma X11_cached_inverse_goes_stale_witness :
  exists self1 answer n st2,
    Dataset.tgt_reverse_lookup two_lines_ds 4 two_lines_store =
      (Ok (self1, answer), two_lines_store) /\
    Dataset.tgt_lookup self1 "z" false two_lines_store = (Ok n, st2) /\
    Dataset.tgt_lookup self1 "z" true st2 = (Ok n, st2) /\
    Dataset.tgt_reverse_lookup self1 n st2 = (Ok (self1, "<UNK>"), st2) /\
    exists self2,
      Dataset.tgt_reverse_lookup two_lines_ds n st2 = (Ok (self2, "z"), st2).
Proof.
  exact (X11_cached_inverse_goes_stale cfg_separate two_lines []
           two_lines_ds two_lines_store "z" 4 eq_refl eq_refl).
Defined.

(* ################################################################# *)
(** * Further properties of the batches *)

Lemma time_major_Ok (rows : list (list nat)) (n : nat) :
  rows <> [] -> Forall (fun r => length r = n) rows ->
  (t <- LongTensor2 rows ;; transpose t)%result = Ok (time_major_of n rows).
Proof.
  intros Hne F. rewrite (LongTensor2_Ok Hne F). reflexivity.
Qed.

Lemma rbind_assoc_time_major {B : Type} (rows : list (list nat)) (n : nat)
  (k : tensor -> result B) :
  rows <> [] -> Forall (fun r => length r = n) rows ->
  (t0 <- LongTensor2 rows ;; t <- transpose t0 ;; k t)%result =
  k (time_major_of n rows).
Proof.
  intros Hne F. rewrite (LongTensor2_Ok Hne F). reflexivity.
Qed.

Section BatchOf.

Variable raw : list raw_sample.
Variable ds : Dataset.t.
Hypothesis Hloaded : loaded raw ds.

Lemma rows_of_indices (idx : list nat) :
  Forall (fun i => i < length (Dataset.samples ds)) idx ->
  Forall (fun r => length r = Dataset.src_maxlen ds)
    (map (fun i => fst (sample_at ds i)) idx) /\
  Forall (fun r => length r = Dataset.tgt_maxlen ds)
    (map (fun i => snd (sample_at ds i)) idx).
Proof.
  intros F. split; apply Forall_map; (eapply Forall_impl; [|exact F]);
    intros i Hi; apply (sample_at_lengths Hloaded); exact Hi.
Qed.

(** The batch that the loop of [batched_iter] yields for the chunk [i]. *)
Lemma batched_iter_body_eq (batch_size i : nat) :
  0 < batch_size ->
  i * batch_size < length (Dataset.samples ds) ->
  Dataset.batched_iter_body ds batch_size i =
  Ok (batch_of ds (by_length ds (chunk ds batch_size i))).
Proof.
  intros Hb Hi.
  destruct (loaded_lengths Hloaded) as (Ln & Ls & Lt & Hpos).
  unfold Dataset.batched_iter_body, chunk.
  set (start := i * batch_size).
  set (stop := Nat.min ((i + 1) * batch_size) (length (Dataset.samples ds))).
  assert (Hstop : stop <= length (Dataset.samples ds)) by (unfold stop; lia).
  assert (Hlt : start < stop) by (unfold start, stop; nia).
  rewrite (@mapR_getitem_range _ (Dataset.src_seqlen ds) start stop) by lia.
  simpl rbind.
  rewrite (@mapR_getitem_range _ (Dataset.tgt_seqlen ds) start stop) by lia.
  simpl rbind.
  assert (Hrows :
    zip4 (map fst (slice (Dataset.samples ds) start stop))
         (map snd (slice (Dataset.samples ds) start stop))
         (slice (Dataset.src_seqlen ds) start stop)
         (slice (Dataset.tgt_seqlen ds) start stop) =
    map (fun j => (fst (sample_at ds j), snd (sample_at ds j),
                   src_len_at ds j, tgt_len_at ds j)) (range start stop)).
  { unfold zip4.
    rewrite (slice_nth_range (Dataset.samples ds) ([], []) start Hstop).
    rewrite (slice_nth_range (Dataset.src_seqlen ds) 0 start) by lia.
    rewrite (slice_nth_range (Dataset.tgt_seqlen ds) 0 start) by lia.
    rewrite !map_map. rewrite !combine_map_same. reflexivity. }
  rewrite Hrows, sorted_map. simpl.
  fold (by_length ds (range start stop)).
  set (idx := by_length ds (range start stop)).
  assert (Hidx : idx <> []).
  { intros E. apply (f_equal (@length nat)) in E. unfold idx, by_length in E.
    rewrite sorted_length in E. unfold range in E. rewrite length_seq in E.
    simpl in E. lia. }
  assert (Fidx : Forall (fun j => j < length (Dataset.samples ds)) idx).
  { apply Forall_forall. intros j Hj. unfold idx, by_length in Hj.
    apply sorted_In in Hj. unfold range in Hj. apply in_seq in Hj. lia. }
  rewrite unzip4_Ok by (destruct idx; [congruence|discriminate]).
  simpl rbind. rewrite !map_map. simpl.
  destruct (rows_of_indices idx Fidx) as [Fs Ft].
  rewrite (rbind_assoc_time_major _ (Dataset.src_maxlen ds));
    [|destruct idx; [congruence|discriminate]|exact Fs].
  rewrite (rbind_assoc_time_major _ (Dataset.tgt_maxlen ds));
    [|destruct idx; [congruence|discriminate]|exact Ft].
  reflexivity.
Qed.

(** The batch of [get_random_batch] for the draws [idx0]. *)
Lemma get_random_batch_eq (batch_size : nat) (rnd : nat -> nat)
  (idx0 : list nat) :
  0 < batch_size ->
  random_choice rnd (length (Dataset.samples ds)) batch_size = Ok idx0 ->
  Dataset.get_random_batch ds batch_size rnd =
  Ok (batch_of ds (by_length ds idx0)).
Proof.
  intros Hb E0.
  destruct (loaded_lengths Hloaded) as (Ln & Ls & Lt & Hpos).
  destruct (@random_choice_Ok rnd (length (Dataset.samples ds)) batch_size)
    as (idx1 & E1 & L0 & F0); [lia|].
  rewrite E0 in E1. injection E1 as <-.
  unfold Dataset.get_random_batch. rewrite E0. simpl rbind.
  rewrite (@sorted_with_total _ _ (fun i => (- Z.of_nat (src_len_at ds i))%Z)).
  2:{ eapply Forall_impl; [|exact F0]. intros i Hi. cbv beta in Hi |- *.
      unfold getitem, src_len_at.
      rewrite (nth_error_nth' _ 0) by lia. reflexivity. }
  simpl rbind. fold (by_length ds idx0).
  set (idx := by_length ds idx0).
  assert (Hidx : idx <> []).
  { intros E. apply (f_equal (@length nat)) in E. unfold idx, by_length in E.
    rewrite sorted_length in E. simpl in E. lia. }
  assert (Fidx : Forall (fun j => j < length (Dataset.samples ds)) idx).
  { apply Forall_forall. intros j Hj. unfold idx, by_length in Hj.
    apply sorted_In in Hj. rewrite Forall_forall in F0. auto. }
  rewrite (mapR_total _ (fun i => fst (sample_at ds i))).
  2:{ eapply Forall_impl; [|exact Fidx]. intros i Hi. cbv beta in Hi |- *.
      unfold getitem, sample_at.
      rewrite (nth_error_nth' (Dataset.samples ds) ([], [])) by lia.
      reflexivity. }
  simpl rbind.
  rewrite (mapR_total _ (fun i => snd (sample_at ds i))).
  2:{ eapply Forall_impl; [|exact Fidx]. intros i Hi. cbv beta in Hi |- *.
      unfold getitem, sample_at.
      rewrite (nth_error_nth' (Dataset.samples ds) ([], [])) by lia.
      reflexivity. }
  simpl rbind.
  destruct (rows_of_indices idx Fidx) as [Fs Ft].
  rewrite (rbind_assoc_time_major _ (Dataset.src_maxlen ds));
    [|destruct idx; [congruence|discriminate]|exact Fs].
  rewrite (rbind_assoc_time_major _ (Dataset.tgt_maxlen ds));
    [|destruct idx; [congruence|discriminate]|exact Ft].
  rewrite (mapR_total _ (src_len_at ds)).
  2:{ eapply Forall_impl; [|exact Fidx]. intros i Hi. cbv beta in Hi |- *.
      unfold getitem, src_len_at.
      rewrite (nth_error_nth' _ 0) by lia. reflexivity. }
  simpl rbind.
  rewrite (mapR_total _ (tgt_len_at ds)).
  2:{ eapply Forall_impl; [|exact Fidx]. intros i Hi. cbv beta in Hi |- *.
      unfold getitem, tgt_len_at.
      rewrite (nth_error_nth' _ 0) by lia. reflexivity. }
  reflexivity.
Qed.

(** All the batches of [batched_iter]. *)
Lemma batched_iter_eq (batch_size : nat) :
  0 < batch_size ->
  Dataset.batched_iter ds batch_size =
  Ok (map (fun i => batch_of ds (by_length ds (chunk ds batch_size i)))
        (seq 0 (ceil_div (length (Dataset.samples ds)) batch_size))).
Proof.
  intros Hb. unfold Dataset.batched_iter.
  destruct (Nat.eqb batch_size 0) eqn:E0; [apply Nat.eqb_eq in E0; lia|].
  rewrite (batch_count_ceil_div _ Hb). unfold range. rewrite Nat.sub_0_r.
  apply mapR_total. apply Forall_forall. intros i Hi. apply in_seq in Hi.
  apply batched_iter_body_eq; [exact Hb|].
  pose proof (ceil_div_bounds (length (Dataset.samples ds)) Hb). nia.
Qed.

End BatchOf.

Lemma time_major_lays_out (rows : list (list nat)) (n : nat) :
  Forall (fun r => length r = n) rows ->
  lays_out (time_major_of n rows) n (length rows) rows.
Proof.
  intros F. unfold time_major_of.
  exists (map (fun j => map (fun r => nth j r 0) rows) (seq 0 n)).
  split; [reflexivity|]. split; [rewrite length_map; apply length_seq|].
  split.
  - apply Forall_map. apply Forall_forall. intros j _. apply length_map.
  - intros j k Hj Hk.
    rewrite (nth_indep _ [] (map (fun r => nth 0 r 0) rows))
      by (rewrite length_map, length_seq; exact Hj).
    rewrite (map_nth (fun j => map (fun r => nth j r 0) rows) (seq 0 n) 0 j).
    rewrite seq_nth by exact Hj. simpl.
    pose proof (map_nth (fun r => nth j r 0) rows [] k) as E.
    cbv beta in E.
    replace (nth j [] 0) with 0 in E by (destruct j; reflexivity).
    exact E.
Qed.

Section BatchOfFacts.

Variable raw : list raw_sample.
Variable ds : Dataset.t.
Hypothesis Hloaded : loaded raw ds.

Lemma batch_of_drawn (idx : list nat) :
  Forall (fun i => i < length (Dataset.samples ds)) idx ->
  drawn_from ds idx (batch_of ds idx).
Proof.
  intros F. destruct (rows_of_indices raw ds Hloaded idx F) as [Fs Ft].
  unfold drawn_from, batch_of. split; [exact F|].
  pose proof (columns_transposed Fs) as Cs.
  pose proof (columns_transposed Ft) as Ct.
  unfold time_major_of. rewrite Cs, Ct. auto.
Qed.

Lemma batch_of_shape (idx : list nat) :
  Forall (fun i => i < length (Dataset.samples ds)) idx ->
  batch_shape ds (batch_of ds idx) idx.
Proof.
  intros F. destruct (rows_of_indices raw ds Hloaded idx F) as [Fs Ft].
  unfold batch_shape, batch_of.
  pose proof (time_major_lays_out _ _ Fs) as L1.
  pose proof (time_major_lays_out _ _ Ft) as L2.
  rewrite length_map in L1, L2.
  split; [exact F|]. split; [exact L1|]. split; [exact L2|].
  split; reflexivity.
Qed.

End BatchOfFacts.

(** X12: every batch is laid out time-major.  For a dataset that a
    constructor has returned and a batch size of at least 1, both
    [batched_iter] and [get_random_batch] return, and each batch of
    [batched_iter] (of 1 to [batch_size] samples) and each batch of
    [get_random_batch] (of exactly [batch_size] samples, even when the
    dataset has fewer) holds, for a list of [width] indices of the
    dataset, a source matrix of shape [(src_maxlen, width)] and a target
    matrix of shape [(tgt_maxlen, width)] whose entry [(j, k)] is the
    [j]-th id of the sample at the [k]-th index, and the source and
    target lengths recorded for these indices. *)
Theorem X12_batches_are_time_major :
  forall (ds : Dataset.t) (batch_size : nat),
    constructed ds ->
    1 <= batch_size ->
    (exists batches,
        Dataset.batched_iter ds batch_size = Ok batches /\
        forall b,
          In b batches ->
          exists idx,
            1 <= length idx <= batch_size /\ batch_shape ds b idx) /\
    (forall rnd,
        exists b idx,
          Dataset.get_random_batch ds batch_size rnd = Ok b /\
          length idx = batch_size /\
          batch_shape ds b idx).
Proof.
  intros ds bs Hc Hb. destruct (constructed_loaded ds Hc) as [raw Hl].
  pose proof (ceil_div_bounds (length (Dataset.samples ds)) Hb) as [B1 B2].
  split.
  - eexists. split; [exact (batched_iter_eq raw ds Hl bs Hb)|].
    intros b Hin.
    apply in_map_iff in Hin. destruct Hin as (i & <- & Hi).
    apply in_seq in Hi.
    assert (Hi' : i * bs < length (Dataset.samples ds)) by nia.
    exists (by_length ds (chunk ds bs i)). split.
    + unfold by_length. rewrite sorted_length.
      apply chunk_length; assumption.
    + apply (batch_of_shape raw ds Hl).
      apply Forall_forall. intros j Hj. unfold by_length in Hj.
      apply sorted_In in Hj. unfold chunk, range in Hj. apply in_seq in Hj. lia.
  - intros rnd.
    destruct (loaded_lengths Hl) as (Ln & _ & _ & Hpos).
    destruct (@random_choice_Ok rnd (length (Dataset.samples ds)) bs)
      as (idx0 & E0 & L0 & F0); [lia|].
    exists (batch_of ds (by_length ds idx0)), (by_length ds idx0).
    split; [exact (get_random_batch_eq raw ds Hl bs rnd idx0 Hb E0)|].
    split; [unfold by_length; rewrite sorted_length; exact L0|].
    apply (batch_of_shape raw ds Hl).
    apply Forall_forall. intros j Hj. unfold by_length in Hj.
    apply sorted_In in Hj. rewrite Forall_forall in F0. auto.
Qed.

Lemma X12_batches_are_time_major_witness :
  exists b idx,
    Dataset.get_random_batch two_lines_ds 3 (fun k => k) = Ok b /\
    length idx = 3 /\
    batch_shape two_lines_ds b idx.
Proof.
  refine (proj2 (X12_batches_are_time_major two_lines_ds 3 _ _) (fun k => k)).
  - left. exists cfg_separate, two_lines, [], two_lines_store. reflexivity.
  - repeat constructor.
Defined.

(** X13: [batched_iter] cuts the dataset into consecutive chunks: its
    [i]-th batch holds exactly the samples of the indices from
    [i * batch_size] up to [(i + 1) * batch_size] or to the end of the
    dataset, every batch but the last has [batch_size] samples, and the
    last one has the samples that remain. *)
Theorem X13_batches_are_consecutive_chunks :
  forall (ds : Dataset.t) (batch_size : nat),
    constructed ds ->
    1 <= batch_size ->
    exists batches,
      Dataset.batched_iter ds batch_size = Ok batches /\
      forall i b,
        nth_error batches i = Some b ->
        Permutation (batch_samples b)
          (slice (Dataset.samples ds) (i * batch_size)
             (Nat.min ((i + 1) * batch_size) (length (Dataset.samples ds)))) /\
        length (batch_samples b) =
          Nat.min batch_size (length (Dataset.samples ds) - i * batch_size) /\
        (i + 1 < length batches -> length (batch_samples b) = batch_size).
Proof.
  intros ds bs Hc Hb. destruct (constructed_loaded ds Hc) as [raw Hl].
  pose proof (ceil_div_bounds (length (Dataset.samples ds)) Hb) as [B1 B2].
  eexists. split; [exact (batched_iter_eq raw ds Hl bs Hb)|].
  intros i b Hi. rewrite length_map, length_seq.
  rewrite nth_error_map in Hi.
  destruct (nth_error (seq 0 (ceil_div (length (Dataset.samples ds)) bs)) i)
    as [i'|] eqn:Ei; [|discriminate].
  injection Hi as <-.
  pose proof (nth_error_In _ _ Ei) as Hin. apply in_seq in Hin.
  rewrite nth_error_seq in Ei.
  destruct (i <? ceil_div (length (Dataset.samples ds)) bs)%nat;
    [|discriminate].
  injection Ei as <-.
  assert (Hi' : i * bs < length (Dataset.samples ds)) by nia.
  assert (Fi : Forall (fun j => j < length (Dataset.samples ds))
                 (by_length ds (chunk ds bs i))).
  { apply Forall_forall. intros j Hj. unfold by_length in Hj.
    apply sorted_In in Hj. unfold chunk, range in Hj. apply in_seq in Hj. lia. }
  rewrite (drawn_from_samples _ _ _ (batch_of_drawn raw ds Hl _ Fi)).
  split; [|split].
  - rewrite (slice_nth_range (Dataset.samples ds) ([], [])) by lia.
    fold (chunk ds bs i). apply Permutation_map. apply sorted_perm.
  - rewrite length_map. unfold by_length. rewrite sorted_length.
    unfold chunk, range. rewrite length_seq. lia.
  - intros Hlast. rewrite length_map. unfold by_length.
    rewrite sorted_length. unfold chunk, range. rewrite length_seq. nia.
Qed.

Lemma X13_batches_are_consecutive_chunks_witness :
  exists batches,
    Dataset.batched_iter two_lines_ds 1 = Ok batches /\
    forall i b,
      nth_error batches i = Some b ->
      Permutation (batch_samples b)
        (slice (Dataset.samples two_lines_ds) (i * 1)
           (Nat.min ((i + 1) * 1) (length (Dataset.samples two_lines_ds)))) /\
      length (batch_samples b) =
        Nat.min 1 (length (Dataset.samples two_lines_ds) - i * 1) /\
      (i + 1 < length batches -> length (batch_samples b) = 1).
Proof.
  apply X13_batches_are_consecutive_chunks.
  - left. exists cfg_separate, two_lines, [], two_lines_store. reflexivity.
  - apply le_n.
Defined.

(** *** Equal keys keep their order *)

Section Ties.

Context {A : Type} (key : A -> Z) (R : A -> A -> Prop).

Lemma StronglySorted_filter (f : A -> bool) (l : list A) :
  StronglySorted R l -> StronglySorted R (filter f l).
Proof.
  induction 1 as [|x l S IH F]; simpl; [constructor|].
  destruct (f x); [|exact IH].
  constructor; [exact IH|].
  apply Forall_forall. intros y Hy. apply filter_In in Hy.
  rewrite Forall_forall in F. apply F. apply Hy.
Qed.

Lemma StronglySorted_later (l1 l2 : list A) (a b : A) :
  StronglySorted R (l1 ++ a :: l2) -> In b l2 -> R a b.
Proof.
  induction l1 as [|x l1 IH]; simpl; intros S Hb.
  - inversion S as [|? ? _ F]; subst. rewrite Forall_forall in F. auto.
  - inversion S; subst. auto.
Qed.

(** In the result of [sorted], two elements of equal keys stand in the
    order in which they stood before. *)
Lemma sorted_ties (l l1 l2 l3 : list A) (a b : A) :
  StronglySorted R l ->
  sorted key l = l1 ++ a :: l2 ++ b :: l3 ->
  key a = key b ->
  R a b.
Proof.
  intros S E Hk.
  pose proof (sorted_stable key (key a) l) as Hf. rewrite E in Hf.
  rewrite filter_app in Hf. simpl in Hf. rewrite Z.eqb_refl in Hf.
  rewrite filter_app in Hf. simpl in Hf.
  rewrite <- Hk, Z.eqb_refl in Hf.
  pose proof (StronglySorted_filter (fun y => (key y =? key a)%Z) l S) as Sf.
  rewrite <- Hf in Sf.
  apply (StronglySorted_later _ _ _ _ Sf).
  apply in_or_app. right. left. reflexivity.
Qed.

End Ties.

Lemma StronglySorted_seq (start len : nat) : StronglySorted lt (seq start len).
Proof.
  revert start. induction len as [|len IH]; intros start; simpl; constructor.
  - apply IH.
  - apply Forall_forall. intros x Hx. apply in_seq in Hx. lia.
Qed.

(** X14: the order inside a batch is stable.  The samples of a batch of
    [batched_iter] are those of its chunk put in descending order of
    source length, and two samples of equal source length stand in the
    batch in the order of their indices in the dataset. *)
Theorem X14_batch_order_is_stable :
  forall (ds : Dataset.t) (batch_size : nat),
    constructed ds ->
    1 <= batch_size ->
    exists batches,
      Dataset.batched_iter ds batch_size = Ok batches /\
      forall i b,
        nth_error batches i = Some b ->
        exists idx,
          drawn_from ds idx b /\
          Permutation idx (chunk ds batch_size i) /\
          forall l1 a l2 c l3,
            idx = l1 ++ a :: l2 ++ c :: l3 ->
            src_len_at ds c <= src_len_at ds a /\
            (src_len_at ds a = src_len_at ds c -> a < c).
Proof.
  intros ds bs Hc Hb. destruct (constructed_loaded ds Hc) as [raw Hl].
  pose proof (ceil_div_bounds (length (Dataset.samples ds)) Hb) as [B1 B2].
  eexists. split; [exact (batched_iter_eq raw ds Hl bs Hb)|].
  intros i b Hi. rewrite nth_error_map in Hi.
  destruct (nth_error (seq 0 (ceil_div (length (Dataset.samples ds)) bs)) i)
    as [i'|] eqn:Ei; [|discriminate].
  injection Hi as <-.
  pose proof (nth_error_In _ _ Ei) as Hin. apply in_seq in Hin.
  rewrite nth_error_seq in Ei.
  destruct (i <? ceil_div (length (Dataset.samples ds)) bs)%nat;
    [|discriminate].
  injection Ei as <-.
  assert (Hi' : i * bs < length (Dataset.samples ds)) by nia.
  exists (by_length ds (chunk ds bs i)). split; [|split].
  - apply (batch_of_drawn raw ds Hl).
    apply Forall_forall. intros j Hj. unfold by_length in Hj.
    apply sorted_In in Hj. unfold chunk, range in Hj. apply in_seq in Hj. lia.
  - apply sorted_perm.
  - intros l1 a l2 c l3 E. split.
    + pose proof (sorted_neg_descending (src_len_at ds) (chunk ds bs i)) as S.
      fold (by_length ds (chunk ds bs i)) in S. rewrite E in S.
      rewrite map_app in S. simpl in S.
      apply (StronglySorted_later (fun x y => x >= y) _ _ _
               (src_len_at ds c)) in S; [lia|].
      rewrite map_app. apply in_or_app. right. left. reflexivity.
    + intros Hk.
      apply (sorted_ties (fun j => (- Z.of_nat (src_len_at ds j))%Z) lt
               (chunk ds bs i) l1 l2 l3 a c).
      * apply StronglySorted_seq.
      * exact E.
      * cbv beta. rewrite Hk. reflexivity.
Qed.

Lemma X14_batch_order_is_stable_witness :
  exists batches,
    Dataset.batched_iter two_lines_ds 2 = Ok batches /\
    forall i b,
      nth_error batches i = Some b ->
      exists idx,
        drawn_from two_lines_ds idx b /\
        Permutation idx (chunk two_lines_ds 2 i) /\
        forall l1 a l2 c l3,
          idx = l1 ++ a :: l2 ++ c :: l3 ->
          src_len_at two_lines_ds c <= src_len_at two_lines_ds a /\
          (src_len_at two_lines_ds a = src_len_at two_lines_ds c -> a < c).
Proof.
  apply X14_batch_order_is_stable.
  - left. exists cfg_separate, two_lines, [], two_lines_store. reflexivity.
  - repeat constructor.
Defined.

(* ################################################################# *)
(** * Lines and their tokens *)

Section SplitJoin.

Variable c : ascii.

Lemma count_char_app (x : ascii) (s1 s2 : string) :
  count_char x (s1 ++ s2)%string = count_char x s1 + count_char x s2.
Proof.
  induction s1 as [|a s1 IH]; simpl; [reflexivity|]. rewrite IH. lia.
Qed.

Lemma join_cons_char (a : ascii) (p : string) (ps : list string) :
  join c (String a p :: ps) = String a (join c (p :: ps)).
Proof. destruct ps; reflexivity. Qed.

(** Joining the pieces of a text gives the text back. *)
Lemma join_split (s : string) : join c (split c s) = s.
Proof.
  induction s as [|a s IH]; [reflexivity|].
  simpl split. destruct (Ascii.eqb a c) eqn:E.
  - apply Ascii.eqb_eq in E. subst a.
    destruct (split c s) as [|p ps] eqn:Es.
    + elim (split_nonempty c s Es).
    + change (join c (EmptyString :: p :: ps))
        with (String c (join c (p :: ps))).
      rewrite IH. reflexivity.
  - destruct (split c s) as [|p ps] eqn:Es.
    + elim (split_nonempty c s Es).
    + rewrite join_cons_char, IH. reflexivity.
Qed.

(** No piece of a text holds the separator. *)
Lemma split_no_sep (s : string) :
  Forall (fun p => count_char c p = 0) (split c s).
Proof.
  induction s as [|a s IH]; [repeat constructor|].
  simpl split. destruct (Ascii.eqb a c) eqn:E.
  - constructor; [reflexivity|exact IH].
  - destruct (split c s) as [|p ps] eqn:Es.
    + repeat constructor. simpl. rewrite E. reflexivity.
    + inversion IH as [|? ? Hp Hps]; subst.
      constructor; [|exact Hps]. simpl. rewrite E. exact Hp.
Qed.

(** A character that the text lacks is in none of its pieces. *)
Lemma split_lacks (x : ascii) (s : string) :
  count_char x s = 0 -> Forall (fun p => count_char x p = 0) (split c s).
Proof.
  induction s as [|a s IH]; intros H; [repeat constructor|].
  simpl in H. simpl split.
  assert (Ha : (if Ascii.eqb a x then 1 else 0) = 0) by lia.
  assert (Hs : count_char x s = 0) by lia.
  specialize (IH Hs).
  destruct (Ascii.eqb a c) eqn:E.
  - constructor; [reflexivity|exact IH].
  - destruct (split c s) as [|p ps] eqn:Es.
    + repeat constructor. simpl. rewrite Ha. reflexivity.
    + inversion IH as [|? ? Hp Hps]; subst.
      constructor; [|exact Hps]. simpl. rewrite Ha. exact Hp.
Qed.

Lemma split_lacking (p : string) : count_char c p = 0 -> split c p = [p].
Proof.
  induction p as [|a p IH]; intros H; [reflexivity|].
  simpl in H. simpl split.
  destruct (Ascii.eqb a c); [lia|]. rewrite IH by lia. reflexivity.
Qed.

Lemma split_app_sep (p rest : string) :
  count_char c p = 0 ->
  split c (p ++ String c rest)%string = p :: split c rest.
Proof.
  induction p as [|a p IH]; intros H.
  - simpl. rewrite Ascii.eqb_refl. reflexivity.
  - simpl in H. simpl. destruct (Ascii.eqb a c); [lia|].
    rewrite IH by lia. reflexivity.
Qed.

(** Splitting the text joined from pieces that lack the separator gives
    the pieces back. *)
Lemma split_join (ps : list string) :
  ps <> [] ->
  Forall (fun p => count_char c p = 0) ps ->
  split c (join c ps) = ps.
Proof.
  induction ps as [|p ps IH]; [congruence|]. intros _ F.
  inversion F as [|? ? Hp Hps]; subst.
  destruct ps as [|q ps].
  - simpl. apply split_lacking. exact Hp.
  - change (join c (p :: q :: ps))
      with (p ++ String c (join c (q :: ps)))%string.
    rewrite split_app_sep by exact Hp.
    rewrite IH; [reflexivity|discriminate|exact Hps].
Qed.

Lemma count_char_join (x : ascii) (ps : list string) :
  x <> c ->
  Forall (fun p => count_char x p = 0) ps ->
  count_char x (join c ps) = 0.
Proof.
  intros Hx. induction 1 as [|p ps Hp Hps IH]; [reflexivity|].
  destruct ps as [|q ps]; [exact Hp|].
  change (join c (p :: q :: ps))
    with (p ++ String c (join c (q :: ps)))%string.
  rewrite count_char_app, Hp.
  change (count_char x (String c (join c (q :: ps))))
    with ((if Ascii.eqb c x then 1 else 0) + count_char x (join c (q :: ps))).
  rewrite IH.
  destruct (Ascii.eqb c x) eqn:E; [|reflexivity].
  apply Ascii.eqb_eq in E. congruence.
Qed.

(** A text that ends with another character than [c] is not stripped. *)
Lemma rstrip_app_other (t : ascii) (x y : string) :
  t <> c ->
  rstrip c (x ++ String t y)%string = (x ++ String t (rstrip c y))%string.
Proof.
  intros Ht.
  assert (H0 : rstrip c (String t y) = String t (rstrip c y)).
  { rewrite rstrip_cons. destruct (rstrip c y); [|reflexivity].
    destruct (Ascii.eqb t c) eqn:E; [|reflexivity].
    apply Ascii.eqb_eq in E. congruence. }
  induction x as [|a x IH]; [exact H0|].
  simpl. rewrite IH.
  destruct (x ++ String t (rstrip c y))%string eqn:E; [|reflexivity].
  destruct x; discriminate E.
Qed.

Lemma rstrip_app_sep (s : string) :
  rstrip c (s ++ String c EmptyString)%string = rstrip c s.
Proof.
  induction s as [|a s IH].
  - simpl. rewrite Ascii.eqb_refl. reflexivity.
  - simpl. rewrite IH. reflexivity.
Qed.

End SplitJoin.

Lemma space_neq_tab : space <> tab.
Proof. discriminate. Qed.

(** X15: parsing a line and writing its tokens are inverse to each
    other.  A line that is parsed into the token lists [src] and [tgt] is,
    up to its trailing newlines, the source tokens joined by spaces, a
    tab, and the target tokens joined by spaces; each list has a token
    (an empty side is one empty token) and no token holds a space or a
    tab.  Conversely the line written from two such lists, if its target
    text does not end with a newline, is parsed into these lists. *)
Theorem X15_parse_line_round_trip :
  (forall line src tgt,
      Dataset.parse_line line = Ok (src, tgt) ->
      rstrip newline line =
        (join space src ++ TAB ++ join space tgt)%string /\
      1 <= length src /\ 1 <= length tgt /\
      Forall (fun tok => count_char space tok = 0 /\ count_char tab tok = 0)
        (src ++ tgt)) /\
  (forall src tgt,
      src <> [] -> tgt <> [] ->
      Forall (fun tok => count_char space tok = 0 /\ count_char tab tok = 0)
        (src ++ tgt) ->
      rstrip newline (join space tgt) = join space tgt ->
      Dataset.parse_line (join space src ++ TAB ++ join space tgt ++ NL) =
        Ok (src, tgt)).
Proof.
  split.
  - intros line src tgt E.
    pose proof (parse_line_tokens line E) as [T1 T2]. simpl in T1, T2.
    unfold Dataset.parse_line in E.
    pose proof (join_split tab (rstrip newline line)) as J.
    pose proof (split_no_sep tab (rstrip newline line)) as N.
    destruct (split tab (rstrip newline line)) as [|a [|b [|x l]]];
      simpl in E; try discriminate.
    injection E as <- <-.
    inversion N as [|? ? Na N']; subst. inversion N' as [|? ? Nb _]; subst.
    split.
    { rewrite !join_split. symmetry. exact J. }
    split; [exact T1|]. split; [exact T2|].
    apply Forall_app. split.
    + pose proof (split_no_sep space a) as S1.
      pose proof (split_lacks space tab a Na) as S2.
      rewrite Forall_forall in *. auto.
    + pose proof (split_no_sep space b) as S1.
      pose proof (split_lacks space tab b Nb) as S2.
      rewrite Forall_forall in *. auto.
  - intros src tgt Hs Ht F Hend.
    apply Forall_app in F. destruct F as [Fs Ft].
    assert (Fs1 : Forall (fun p => count_char space p = 0) src)
      by (eapply Forall_impl; [|exact Fs]; intros p H; apply H).
    assert (Fs2 : Forall (fun p => count_char tab p = 0) src)
      by (eapply Forall_impl; [|exact Fs]; intros p H; apply H).
    assert (Ft1 : Forall (fun p => count_char space p = 0) tgt)
      by (eapply Forall_impl; [|exact Ft]; intros p H; apply H).
    assert (Ft2 : Forall (fun p => count_char tab p = 0) tgt)
      by (eapply Forall_impl; [|exact Ft]; intros p H; apply H).
    unfold Dataset.parse_line, TAB, NL.
    change (join space src ++ String tab EmptyString ++
            join space tgt ++ String newline EmptyString)%string
      with (join space src ++
            String tab (join space tgt ++ String newline EmptyString))%string.
    rewrite (rstrip_app_other newline tab) by exact tab_neq_newline.
    rewrite rstrip_app_sep, Hend.
    rewrite split_app_sep
      by (apply count_char_join; [exact (not_eq_sym space_neq_tab)|exact Fs2]).
    rewrite (split_lacking tab (join space tgt))
      by (apply count_char_join; [exact (not_eq_sym space_neq_tab)|exact Ft2]).
    simpl. rewrite !split_join by assumption. reflexivity.
Qed.

Lemma X15_parse_line_round_trip_witness :
  Dataset.parse_line
    (join space ["a"; "b"] ++ TAB ++ join space ["x"] ++ NL) =
  Ok (["a"; "b"], ["x"]).
Proof.
  apply (proj2 X15_parse_line_round_trip).
  - discriminate.
  - discriminate.
  - repeat constructor.
  - reflexivity.
Defined.

(* ================================================================= *)
(** ** Trailing newlines *)

Lemma parse_line_rstrip (l1 l2 : string) :
  rstrip newline l1 = rstrip newline l2 ->
  Dataset.parse_line l1 = Dataset.parse_line l2.
Proof. intros E. unfold Dataset.parse_line. rewrite E. reflexivity. Qed.

Lemma read_stream_rstrip (s1 s2 : list string) :
  map (rstrip newline) s1 = map (rstrip newline) s2 ->
  forall acc, Dataset.read_stream acc s1 = Dataset.read_stream acc s2.
Proof.
  revert s2. induction s1 as [|l1 s1 IH]; intros [|l2 s2] E acc;
    try discriminate; [reflexivity|].
  simpl in E. injection E as El Es. simpl.
  rewrite (parse_line_rstrip l1 l2 El).
  destruct (Dataset.parse_line l2); [|reflexivity]. apply IH. exact Es.
Qed.

Lemma load_rstrip (self : Dataset.t) (s1 s2 : list string) (frozen : bool) :
  map (rstrip newline) s1 = map (rstrip newline) s2 ->
  Dataset.load_data_from_stream self s1 frozen =
  Dataset.load_data_from_stream self s2 frozen.
Proof.
  intros E. unfold Dataset.load_data_from_stream.
  rewrite (read_stream_rstrip s1 s2 E []). reflexivity.
Qed.

Lemma read_entries_rstrip (f1 f2 : list string) :
  map (rstrip newline) f1 = map (rstrip newline) f2 ->
  forall acc,
    InferenceDataset.read_entries acc f1 = InferenceDataset.read_entries acc f2.
Proof.
  revert f2. induction f1 as [|l1 f1 IH]; intros [|l2 f2] E acc;
    try discriminate; [reflexivity|].
  simpl in E. injection E as El Es. simpl.
  unfold InferenceDataset.parse_entry. rewrite El.
  destruct (unpack2 (split tab (rstrip newline l2))) as [[k v]|e];
    [|reflexivity].
  apply IH. exact Es.
Qed.

(** X16: the trailing newlines of the lines do not count.  Two streams
    whose lines agree once their trailing newlines are stripped give the
    same outcome, result or exception and final store, in each of the
    three constructors; the same holds of two vocabulary files.  So a
    last line without its newline is read as the other lines are. *)
Theorem X16_trailing_newlines_do_not_count :
  forall s1 s2 : list string,
    map (rstrip newline) s1 = map (rstrip newline) s2 ->
    (forall cfg st, Dataset.__init__ cfg s1 st = Dataset.__init__ cfg s2 st) /\
    (forall train_data st,
        ValidationDataset.__init__ train_data s1 st =
        ValidationDataset.__init__ train_data s2 st) /\
    (forall fs cfg,
        InferenceDataset.__init__ fs cfg s1 =
        InferenceDataset.__init__ fs cfg s2) /\
    (forall fs1 fs2 cfg,
        fs1 (src_vocab_file cfg) = Some s1 ->
        fs2 (src_vocab_file cfg) = Some s2 ->
        InferenceDataset.load_src_vocab fs1 cfg =
        InferenceDataset.load_src_vocab fs2 cfg).
Proof.
  intros s1 s2 E. split; [|split; [|split]].
  - intros cfg st. rewrite !init_unfold. unfold bind.
    rewrite (load_rstrip (init_self cfg st) s1 s2 false E). reflexivity.
  - intros td st. unfold ValidationDataset.__init__.
    rewrite (load_rstrip _ s1 s2 true E). reflexivity.
  - intros fs cfg. unfold InferenceDataset.__init__,
      InferenceDataset.load_data_from_stream.
    rewrite E. reflexivity.
  - intros fs1 fs2 cfg E1 E2. unfold InferenceDataset.load_src_vocab.
    rewrite E1, E2. apply read_entries_rstrip. exact E.
Qed.

Lemma X16_trailing_newlines_do_not_count_witness :
  Dataset.__init__ cfg_separate two_lines [] =
  Dataset.__init__ cfg_separate
    [("a b c" ++ TAB ++ "x y")%string;
     ("a b" ++ TAB ++ "x" ++ NL ++ NL)%string] [].
Proof.
  apply (proj1 (X16_trailing_newlines_do_not_count two_lines
                  [("a b c" ++ TAB ++ "x y")%string;
                   ("a b" ++ TAB ++ "x" ++ NL ++ NL)%string]
                  eq_refl)).
Defined.

(* ################################################################# *)
(** * Further properties of the inference dataset *)

Lemma read_entries_fold (f : list string) (es : list (string * string)) :
  mapR InferenceDataset.parse_entry f = Ok es ->
  forall acc,
    InferenceDataset.read_entries acc f =
    Ok (fold_left (fun d e => dict_set d (fst e) (snd e)) es acc).
Proof.
  revert es. induction f as [|l f IH]; intros es E acc; simpl in *.
  - injection E as <-. reflexivity.
  - destruct (InferenceDataset.parse_entry l) as [[k v]|e]; [|discriminate].
    destruct (mapR InferenceDataset.parse_entry f) as [es'|e];
      [|discriminate].
    injection E as <-. simpl. apply IH. reflexivity.
Qed.

Lemma dict_get_fold_set (es : list (string * string))
  (acc : dict string string) (k : string) :
  dict_get (fold_left (fun d e => dict_set d (fst e) (snd e)) es acc) k =
  match dict_get (rev es) k with
  | Some v => Some v
  | None => dict_get acc k
  end.
Proof.
  induction es as [|[k' v'] es IH] using rev_ind; [reflexivity|].
  rewrite fold_left_app, rev_app_distr. simpl.
  destruct (key_eq_dec k k') as [->|Hne].
  - apply dict_get_set_same.
  - rewrite dict_get_set_other by exact Hne. exact IH.
Qed.

Lemma dict_set_keys (d : dict string string) (k v : string) :
  map fst (dict_set d k v) = see_token (map fst d) k.
Proof.
  unfold see_token. induction d as [|[k' v'] d IH]; simpl.
  - reflexivity.
  - destruct (key_eq_dec k k') as [->|Hne]; simpl.
    + destruct (string_dec k' k') as [Heq|N]; [reflexivity|congruence].
    + rewrite IH.
      destruct (string_dec k' k) as [Heq|Hn]; [congruence|].
      destruct (in_dec string_dec k (map fst d)); reflexivity.
Qed.

Lemma fold_set_keys (es : list (string * string)) (acc : dict string string) :
  map fst (fold_left (fun d e => dict_set d (fst e) (snd e)) es acc) =
  first_seen (map fst acc) (map fst es).
Proof.
  unfold first_seen. revert acc.
  induction es as [|[k v] es IH]; intros acc; simpl; [reflexivity|].
  rewrite IH, dict_set_keys. reflexivity.
Qed.

Lemma parse_entry_text (l k v : string) :
  InferenceDataset.parse_entry l = Ok (k, v) ->
  rstrip newline l = (k ++ TAB ++ v)%string /\
  count_char tab k = 0 /\ count_char tab v = 0.
Proof.
  unfold InferenceDataset.parse_entry. intros E.
  pose proof (join_split tab (rstrip newline l)) as J.
  pose proof (split_no_sep tab (rstrip newline l)) as N.
  destruct (split tab (rstrip newline l)) as [|a [|b [|x r]]];
    simpl in E; try discriminate.
  injection E as <- <-.
  inversion N as [|? ? Na N']; subst. inversion N' as [|? ? Nb _]; subst.
  split; [symmetry; exact J|]. split; assumption.
Qed.

(** X17: what the vocabulary file gives.  Each line of a file that is
    read is, up to its trailing newlines, a key, a tab and a value, both
    without a tab; the value is kept whole, spaces included.  The mapping
    that [load_src_vocab] returns has the keys of the file in the order in
    which each comes first, and gives each key the value of the last line
    of this key. *)
Theorem X17_vocabulary_file_last_line_wins :
  forall fs cfg f,
    fs (src_vocab_file cfg) = Some f ->
    Forall one_tab f ->
    exists es d,
      Forall2 (fun l e =>
                 rstrip newline l = (fst e ++ TAB ++ snd e)%string /\
                 count_char tab (fst e) = 0 /\ count_char tab (snd e) = 0)
        f es /\
      InferenceDataset.load_src_vocab fs cfg = Ok d /\
      map fst d = first_seen [] (map fst es) /\
      forall k, dict_get d k = dict_get (rev es) k.
Proof.
  intros fs cfg f Hf Hall.
  destruct (mapR_exists InferenceDataset.parse_entry
              (fun l e =>
                 rstrip newline l = (fst e ++ TAB ++ snd e)%string /\
                 count_char tab (fst e) = 0 /\ count_char tab (snd e) = 0)
              (l := f))
    as (es & Es & F).
  { eapply Forall_impl; [|exact Hall]. intros l Hl.
    apply parse_entry_Ok_iff in Hl. destruct Hl as [[k v] E].
    exists (k, v). split; [exact E|]. apply parse_entry_text. exact E. }
  exists es, (fold_left (fun d e => dict_set d (fst e) (snd e)) es []).
  split; [exact F|]. split; [|split].
  - unfold InferenceDataset.load_src_vocab. rewrite Hf.
    apply read_entries_fold. exact Es.
  - apply (fold_set_keys es []).
  - intros k. rewrite dict_get_fold_set.
    destruct (dict_get (rev es) k); reflexivity.
Qed.

Lemma X17_vocabulary_file_last_line_wins_witness :
  exists es d,
    Forall2 (fun l e =>
               rstrip newline l = (fst e ++ TAB ++ snd e)%string /\
               count_char tab (fst e) = 0 /\ count_char tab (snd e) = 0)
      [("a" ++ TAB ++ "4" ++ NL)%string; ("b" ++ TAB ++ "5" ++ NL)%string] es /\
    InferenceDataset.load_src_vocab one_vocab_file cfg_separate = Ok d /\
    map fst d = first_seen [] (map fst es) /\
    forall k, dict_get d k = dict_get (rev es) k.
Proof.
  apply (X17_vocabulary_file_last_line_wins one_vocab_file cfg_separate).
  - reflexivity.
  - repeat constructor.
Defined.

Lemma read_entries_Raise (f : list string) :
  forall acc e,
    InferenceDataset.read_entries acc f = Raise e ->
    class_name e = "ValueError".
Proof.
  induction f as [|l f IH]; intros acc e; simpl; [discriminate|].
  destruct (InferenceDataset.parse_entry l) as [[k v]|e'] eqn:E.
  - apply IH.
  - intros E'. injection E' as <-.
    unfold InferenceDataset.parse_entry in E.
    destruct (split tab (rstrip newline l)) as [|a [|b [|x r]]];
      simpl in E; try discriminate; injection E as <-; reflexivity.
Qed.

(** X18: the outcomes of the constructor of [InferenceDataset].  The
    vocabulary file is read before the stream: a missing file raises
    [FileNotFoundError] and a line of the file without exactly one tab a
    [ValueError], whatever the stream is.  With a file that is read, an
    empty stream raises a [ValueError], and every other stream gives an
    object: its lines need no tab, and they are kept as texts, one
    sample a line, without a lookup in the vocabulary. *)
Theorem X18_inference_constructor_outcomes :
  forall fs cfg stream,
    (fs (src_vocab_file cfg) = None ->
     InferenceDataset.__init__ fs cfg stream = Raise FileNotFoundError) /\
    (forall f,
        fs (src_vocab_file cfg) = Some f ->
        ~ Forall one_tab f ->
        exists e,
          InferenceDataset.__init__ fs cfg stream = Raise e /\
          class_name e = "ValueError") /\
    (forall f,
        fs (src_vocab_file cfg) = Some f ->
        Forall one_tab f ->
        stream = [] ->
        InferenceDataset.__init__ fs cfg stream =
        Raise (ValueError (not_enough_values 2 0))) /\
    (forall f,
        fs (src_vocab_file cfg) = Some f ->
        Forall one_tab f ->
        stream <> [] ->
        exists ds,
          InferenceDataset.__init__ fs cfg stream = Ok ds /\
          InferenceDataset.cfg ds = cfg /\
          InferenceDataset.load_src_vocab fs cfg =
            Ok (InferenceDataset.src_vocab ds) /\
          InferenceDataset.raw_samples ds = map (rstrip newline) stream /\
          length (InferenceDataset.samples ds) = length stream /\
          length (InferenceDataset.len_mapping ds) = length stream).
Proof.
  intros fs cfg stream. split; [|split; [|split]].
  - intros Hf. unfold InferenceDataset.__init__,
      InferenceDataset.load_src_vocab.
    rewrite Hf. reflexivity.
  - intros f Hf Hbad. unfold InferenceDataset.__init__,
      InferenceDataset.load_src_vocab.
    rewrite Hf.
    destruct (InferenceDataset.read_entries [] f) as [d|e] eqn:E.
    + elim Hbad. apply (read_entries_Ok_iff f []). eauto.
    + exists e. split; [reflexivity|]. exact (read_entries_Raise f [] e E).
  - intros f Hf Hall ->.
    destruct (proj2 (read_entries_Ok_iff f []) Hall) as [d Ed].
    unfold InferenceDataset.__init__, InferenceDataset.load_src_vocab.
    rewrite Hf, Ed. reflexivity.
  - intros f Hf Hall Hne.
    destruct (proj2 (read_entries_Ok_iff f []) Hall) as [d Ed].
    unfold InferenceDataset.__init__.
    assert (Ev : InferenceDataset.load_src_vocab fs cfg = Ok d).
    { unfold InferenceDataset.load_src_vocab. rewrite Hf. exact Ed. }
    rewrite Ev, (inference_load_Ok Hne). simpl.
    eexists. split; [reflexivity|]. simpl.
    split; [reflexivity|]. split; [reflexivity|]. split; [reflexivity|].
    rewrite !length_map, sorted_length. unfold enumerate.
    rewrite length_combine, length_seq, length_map, Nat.min_id. auto.
Qed.

Lemma X18_inference_constructor_outcomes_witness :
  InferenceDataset.__init__ one_vocab_file cfg_separate [] =
  Raise (ValueError (not_enough_values 2 0)).
Proof.
  apply (proj1 (proj2 (proj2
           (X18_inference_constructor_outcomes one_vocab_file cfg_separate [])))
         [("a" ++ TAB ++ "4" ++ NL)%string; ("b" ++ TAB ++ "5" ++ NL)%string]).
  - reflexivity.
  - repeat constructor.
  - reflexivity.
Defined.

Lemma StronglySorted_combine_seq {A : Type} (l : list A) (s : nat) :
  StronglySorted (fun p q : nat * A => fst p < fst q)
    (combine (seq s (length l)) l).
Proof.
  revert s. induction l as [|x l IH]; intros s; simpl; constructor.
  - apply IH.
  - apply Forall_forall. intros [i y] Hy. apply in_combine_l in Hy.
    apply in_seq in Hy. simpl. lia.
Qed.

(** X19: the order of the inference samples is stable.  [len_mapping]
    lists the positions of the stripped lines by descending length of
    the line, and of two lines of equal length the one that comes first
    in the stream comes first. *)
Theorem X19_inference_order_is_stable :
  forall fs cfg stream ds,
    InferenceDataset.__init__ fs cfg stream = Ok ds ->
    forall l1 a l2 c l3,
      InferenceDataset.len_mapping ds = l1 ++ a :: l2 ++ c :: l3 ->
      String.length (nth c (InferenceDataset.raw_samples ds) EmptyString) <=
      String.length (nth a (InferenceDataset.raw_samples ds) EmptyString) /\
      (String.length (nth a (InferenceDataset.raw_samples ds) EmptyString) =
       String.length (nth c (InferenceDataset.raw_samples ds) EmptyString) ->
       a < c).
Proof.
  intros fs cfg stream ds E l1 a l2 c l3 El.
  unfold InferenceDataset.__init__ in E.
  destruct (InferenceDataset.load_src_vocab fs cfg) as [d|e];
    [|discriminate].
  simpl in E.
  destruct stream as [|line0 stream0]; [discriminate|].
  rewrite (@inference_load_Ok (line0 :: stream0)) in E by discriminate.
  simpl rbind in E. injection E as <-. simpl in El |- *.
  set (raw := rstrip newline line0 :: map (rstrip newline) stream0) in *.
  set (key := fun x : nat * string => (- Z.of_nat (String.length (snd x)))%Z)
    in *.
  change (map fst (sorted key (enumerate raw)) = l1 ++ a :: l2 ++ c :: l3)
    in El.
  apply map_eq_app in El. destruct El as (s1 & r1 & Es & <- & El).
  apply map_eq_cons in El. destruct El as ([a' xa] & r2 & -> & Ea & El).
  simpl in Ea. subst a'.
  apply map_eq_app in El. destruct El as (s2 & r3 & -> & <- & El).
  apply map_eq_cons in El. destruct El as ([c' xc] & s3 & -> & Ec & _).
  simpl in Ec. subst c'.
  assert (Ha : nth a raw EmptyString = xa).
  { apply nth_error_nth. apply enumerate_In.
    apply (sorted_In key). rewrite Es.
    apply in_or_app. right. left. reflexivity. }
  assert (Hc : nth c raw EmptyString = xc).
  { apply nth_error_nth. apply enumerate_In.
    apply (sorted_In key). rewrite Es.
    apply in_or_app. right. right. apply in_or_app. right. left. reflexivity. }
  change (String.length (nth c raw EmptyString) <=
          String.length (nth a raw EmptyString) /\
          (String.length (nth a raw EmptyString) =
           String.length (nth c raw EmptyString) -> a < c)).
  rewrite Ha, Hc. split.
  - pose proof (sorted_sorted key (enumerate raw)) as S. rewrite Es in S.
    apply (StronglySorted_later _ _ _ _ (c, xc)) in S.
    + unfold key in S. simpl in S. lia.
    + apply in_or_app. right. left. reflexivity.
  - intros Hk.
    apply (sorted_ties key (fun p q : nat * string => fst p < fst q)
             (enumerate raw) s1 s2 s3 (a, xa) (c, xc)).
    + apply StronglySorted_combine_seq.
    + exact Es.
    + unfold key. simpl. rewrite Hk. reflexivity.
Qed.

Lemma X19_inference_order_is_stable_witness :
  exists ds,
    InferenceDataset.__init__ one_vocab_file cfg_separate three_lines = Ok ds /\
    forall l1 a l2 c l3,
      InferenceDataset.len_mapping ds = l1 ++ a :: l2 ++ c :: l3 ->
      String.length (nth c (InferenceDataset.raw_samples ds) EmptyString) <=
      String.length (nth a (InferenceDataset.raw_samples ds) EmptyString) /\
      (String.length (nth a (InferenceDataset.raw_samples ds) EmptyString) =
       String.length (nth c (InferenceDataset.raw_samples ds) EmptyString) ->
       a < c).
Proof.
  eexists. split.
  - vm_compute. reflexivity.
  - apply (X19_inference_order_is_stable one_vocab_file cfg_separate
             three_lines).
    vm_compute. reflexivity.
Defined.

(* ################################################################# *)
(** * The reserved names *)

(** The id at a position of an encoded target row that holds a token. *)
Lemma encoded_target_token (d_src d_tgt : vocab) (smax tmax : nat)
  (raw : raw_sample) (e : sample) (p : nat) (tok : string) :
  encoded_as d_src d_tgt smax tmax raw e ->
  nth_error (snd raw) p = Some tok ->
  exists id, nth_error (snd e) p = Some id /\ dict_get d_tgt tok = Some id.
Proof.
  intros (sids & tids & (Ls & Lt & ->) & Fs & Ft) E. simpl.
  assert (Hp : p < length tids).
  { rewrite Lt. apply nth_error_Some. congruence. }
  rewrite <- app_assoc, nth_error_app1 by exact Hp.
  destruct (nth_error tids p) as [id|] eqn:Ei.
  - exists id. split; [reflexivity|]. exact (Forall2_nth_error _ Ft E Ei).
  - apply nth_error_None in Ei. lia.
Qed.

Lemma constants_prefix_get (more : vocab) (name : string) (id : nat) :
  In (name, id) Dataset.CONSTANTS ->
  dict_get (Dataset.CONSTANTS ++ more) name = Some id.
Proof.
  simpl. intros [E|[E|[E|[E|[]]]]]; injection E as <- <-; reflexivity.
Qed.

(** X20: the reserved names are ordinary tokens.  In both vocabularies
    of a training dataset the texts PAD, SOS, EOS and UNK are keys with
    the ids 0, 1, 2 and 3, so a token of the data that is spelled as one
    of them is encoded with the reserved id: a source token PAD has the
    id of the padding, a target token EOS the id of the end marker. *)
Theorem X20_reserved_names_are_tokens :
  forall cfg stream st ds st',
    Dataset.__init__ cfg stream st = (Ok ds, st') ->
    forall name id,
      In (name, id) Dataset.CONSTANTS ->
      dict_get (deref st' (Dataset.src_vocab ds)) name = Some id /\
      dict_get (deref st' (Dataset.tgt_vocab ds)) name = Some id /\
      forall j rs rt es et p,
        nth_error (Dataset.raw_samples ds) j = Some (rs, rt) ->
        nth_error (Dataset.samples ds) j = Some (es, et) ->
        (nth_error rs p = Some name -> nth_error es p = Some id) /\
        (nth_error rt p = Some name -> nth_error et p = Some id).
Proof.
  intros cfg stream st ds st' E name id Hin.
  destruct (init_built _ _ _ E) as (raw & Ep & B).
  destruct (built_vocabularies _ _ _ _ _ B) as [[ms Vs] [mt Vt]].
  assert (Gs : dict_get (deref st' (Dataset.src_vocab ds)) name = Some id)
    by (rewrite Vs; apply constants_prefix_get; exact Hin).
  assert (Gt : dict_get (deref st' (Dataset.tgt_vocab ds)) name = Some id)
    by (rewrite Vt; apply constants_prefix_get; exact Hin).
  split; [exact Gs|]. split; [exact Gt|].
  intros j rs rt es et p Rj Sj.
  destruct B as ((_ & Er & _) & _ & _ & _ & _ & _ & _ & _ & F).
  rewrite Er in Rj.
  pose proof (Forall2_nth_error _ F Rj Sj) as Enc.
  split; intros Hp.
  - destruct (encoded_source_position _ _ _ _ _ _ _ _ Enc Hp)
      as (id' & Ei & Ed).
    simpl in Ei. rewrite Ei. congruence.
  - destruct (encoded_target_token _ _ _ _ _ _ _ _ Enc Hp)
      as (id' & Ei & Ed).
    simpl in Ei. rewrite Ei. congruence.
Qed.

Lemma X20_reserved_names_are_tokens_witness :
  dict_get (deref two_lines_store (Dataset.src_vocab two_lines_ds)) "PAD" =
    Some 0 /\
  dict_get (deref two_lines_store (Dataset.tgt_vocab two_lines_ds)) "PAD" =
    Some 0 /\
  forall j rs rt es et p,
    nth_error (Dataset.raw_samples two_lines_ds) j = Some (rs, rt) ->
    nth_error (Dataset.samples two_lines_ds) j = Some (es, et) ->
    (nth_error rs p = Some "PAD" -> nth_error es p = Some 0) /\
    (nth_error rt p = Some "PAD" -> nth_error et p = Some 0).
Proof.
  apply (X20_reserved_names_are_tokens cfg_separate two_lines []
           two_lines_ds two_lines_store).
  - reflexivity.
  - left. reflexivity.
Defined.
